(** * SponExpander: the pane state machine and its animated transitions

    A shallow embedding of [src/main.js] (class [SponExpander]): the pane
    registry built by [createPanels], the click handler, [expand],
    [collapse] and [onEnd], together with the two collaborators the class
    calls into, the event bus ([mitt]) and the animator ([mud-from-to]).

    JavaScript objects that are mutated in place (the panes and their DOM
    elements) live in one store, the [World]; a reference to a pane is its
    position in [this.panes].  Every observable effect (a DOM write, a
    measurement, an emitted event, a call of [fromTo]) is appended to a
    trace in program order.  A promise returned by [fromTo] is an entry of
    [pending]; its resolution is a separate step of the event loop.

    What lies outside the class is kept as the class sees it:
    - the layout engine answers [getBoundingClientRect]; it is a field of
      the world; every element has a rectangle, of height [0] when the
      element is not rendered;
    - heights, frame values and durations are JavaScript numbers, read as
      exact rationals; [Math.round] rounds to the nearest integer;
    - the listeners registered on the event bus belong to the page:
      [emit] records the event with the payload they are called with, and
      they neither throw nor call back into the widget while they run;
      [fromTo] returns its promise without throwing;
    - every button comes with the element its [data-target] selector
      resolves to, and different buttons have different targets;
    - an event that reaches [clickHandle] has the button of a pane, or an
      element inside it, as its target; no element inside a button and no
      element between a button and the root carries [data-accordion-btn];
    - a pane index is the position in [this.panes]; as a property key it
      is its decimal string, which is what [createPanels] writes into
      [data-accordion-index] and [clickHandle] reads back;
    - [classList] is the set of tokens of the [class] attribute; the
      order of the tokens is not kept. *)

From Stdlib Require Import QArith Qround.
From stdpp Require Import gmap strings list pretty.

Local Open Scope string_scope.
Local Open Scope list_scope.

(** ** DOM elements *)

(** A value assigned to an inline style property: a string, or a number
    of pixels (the template [`${v}px`]; the numeric [0] assigned by
    [expand] is the length [0px]). The empty string clears the property. *)
Inductive CssVal : Type :=
  | css_str (s : string)
  | css_px (v : Q).

Definition css_empty : CssVal := css_str "".

Record Style : Type := mkStyle {
  display : CssVal;
  height : CssVal;
  willChange : CssVal
}.

Inductive StyleProp : Type := Display | Height | WillChange.

(** An element: its attributes other than [class] and [style], whether
    it has a [class] attribute, the tokens of that attribute, and its
    inline style. *)
Record Element : Type := mkElement {
  attributes : gmap string string;
  classAttribute : bool;
  classList : gset string;
  style : Style
}.

Definition style_set (k : StyleProp) (v : CssVal) (s : Style) : Style :=
  match k with
  | Display => mkStyle v (height s) (willChange s)
  | Height => mkStyle (display s) v (willChange s)
  | WillChange => mkStyle (display s) (height s) v
  end.

Definition el_style_set (k : StyleProp) (v : CssVal) (e : Element) : Element :=
  mkElement (attributes e) (classAttribute e) (classList e) (style_set k v (style e)).

Definition setAttribute (n v : string) (e : Element) : Element :=
  mkElement (<[n := v]> (attributes e)) (classAttribute e) (classList e) (style e).

(** [classList.add(c)]: the token is added and the [class] attribute is
    written with the tokens. *)
Definition classList_add (c : string) (e : Element) : Element :=
  mkElement (attributes e) true ({[c]} ∪ classList e) (style e).

(** [classList.remove(c)]: the token is removed and the [class] attribute
    is written with the tokens that remain, empty when none does; only an
    element without the attribute and without tokens is left without
    it. *)
Definition classList_remove (c : string) (e : Element) : Element :=
  mkElement (attributes e)
    (classAttribute e || negb (bool_decide (classList e ∖ {[c]} = ∅)))
    (classList e ∖ {[c]}) (style e).

(** [String(b)], the conversion [setAttribute] applies to a boolean. *)
Definition js_string_of_bool (b : bool) : string :=
  if b then "true" else "false".

(** ** Panes *)

(** One entry of a pane's [machine]: [{ CLICK: next }]. *)
Record Transitions : Type := mkTransitions { CLICK : string }.

(** The object literal of [createPanels]:
    [{ open: { CLICK: 'close' }, close: { CLICK: 'open' } }]. *)
Definition machine_table : gmap string Transitions :=
  <["open" := mkTransitions "close"]> (<["close" := mkTransitions "open"]> ∅).

Record Pane : Type := mkPane {
  button : Element;
  target : Element;
  index : nat;
  open : bool;
  isRunning : bool;
  state : string;
  machine : gmap string Transitions
}.

Inductive ElemRef : Type := Button | Target.

Definition pane_el_map (r : ElemRef) (f : Element → Element) (p : Pane) : Pane :=
  match r with
  | Button => mkPane (f (button p)) (target p) (index p) (open p)
                     (isRunning p) (state p) (machine p)
  | Target => mkPane (button p) (f (target p)) (index p) (open p)
                     (isRunning p) (state p) (machine p)
  end.

Definition set_open (b : bool) (p : Pane) : Pane :=
  mkPane (button p) (target p) (index p) b (isRunning p) (state p) (machine p).

Definition set_isRunning (b : bool) (p : Pane) : Pane :=
  mkPane (button p) (target p) (index p) (open p) b (state p) (machine p).

Definition set_state (s : string) (p : Pane) : Pane :=
  mkPane (button p) (target p) (index p) (open p) (isRunning p) s (machine p).

(** ** Options *)

(** An easing function [(t, b, c, d) => value], read over exact rationals. *)
Definition Easing : Type := Q → Q → Q → Q → Q.

Record Options : Type := mkOptions {
  activeIndex : option nat;
  closeOthers : bool;
  optOpen : bool;
  selector : string;
  name : string;
  init : bool;
  buttonActiveClass : string;
  contentActiveClass : string;
  duration : Q;
  easing : Easing
}.

Definition defaultEasing : Easing := fun t b c d =>
  let t1 := (t / (d / 2))%Q in
  if negb (Qle_bool 1 t1) then (c / 2 * t1 * t1 + b)%Q
  else let t2 := (t1 - 1)%Q in (- c / 2 * (t2 * (t2 - 2) - 1) + b)%Q.

Definition defaults : Options := {|
  activeIndex := None;
  closeOthers := false;
  optOpen := false;
  selector := "[data-accordion-btn]";
  name := "accordion";
  init := true;
  buttonActiveClass := "is-active";
  contentActiveClass := "is-expanded";
  duration := 300;
  easing := defaultEasing
|}.

(** ** The animator and the event bus *)

(** The argument object of [fromTo]: [{ start, end, duration, easing }]. *)
Record FromToArgs : Type := mkFromTo {
  an_start : Z;
  an_end : Z;
  an_duration : Q;
  an_easing : Easing
}.

(** Which [then] callback waits for the promise: the one of [expand] or
    the one of [collapse]. *)
Inductive Then : Type := ThenOpened | ThenClosed.

(** A running animation: its arguments, the pane whose [$target] the frame
    callback writes and whose completion callback is registered. *)
Record Animation : Type := mkAnimation {
  an_args : FromToArgs;
  an_pane : nat;
  an_then : Then
}.

(** The payload [{ pane, index, panes: this.panes }].  [pane] is a reference
    into the registry, [panes] is the registry as a listener called by
    [emit] observes it. *)
Record Payload : Type := mkPayload {
  ev_pane : nat;
  ev_index : nat;
  ev_panes : list Pane
}.

(** Effects in program order. *)
Inductive Action : Type :=
  | SetStyle (i : nat) (k : StyleProp) (v : CssVal)
  | SetAttribute (i : nat) (r : ElemRef) (n v : string)
  | ClassAdd (i : nat) (r : ElemRef) (c : string)
  | ClassRemove (i : nat) (r : ElemRef) (c : string)
  | GetBoundingClientRect (i : nat)
  | Emit (n : string) (p : Payload)
  | FromTo (a : FromToArgs) (i : nat) (k : Then).

(** [Math.round]: the nearest integer, halves towards plus infinity. *)
Definition Math_round (x : Q) : Z := Qfloor (x + (1 # 2))%Q.

(** ** The widget and its environment *)

Record World : Type := mkWorld {
  options : Options;
  (** The document's layout engine: the [height] of the rectangle that
      [getBoundingClientRect] returns for the [$target] of a pane. *)
  layout : nat → Element → Q;
  panes : list Pane;
  current : option nat;
  pending : list Animation;
  trace : list Action
}.

Definition with_panes (f : list Pane → list Pane) (w : World) : World :=
  mkWorld (options w) (layout w) (f (panes w)) (current w) (pending w) (trace w).

Definition with_current (c : option nat) (w : World) : World :=
  mkWorld (options w) (layout w) (panes w) c (pending w) (trace w).

Definition with_pending (f : list Animation → list Animation) (w : World) : World :=
  mkWorld (options w) (layout w) (panes w) (current w) (f (pending w)) (trace w).

Definition record (a : Action) (w : World) : World :=
  mkWorld (options w) (layout w) (panes w) (current w) (pending w) (trace w ++ [a]).

(** ** Computations that mutate the world and may throw *)

Inductive Exn : Type :=
  | TypeError.    (* a property read of [undefined] or [null] *)

(** The world of [Throw] keeps what was written before the exception. *)
Inductive Res (A : Type) : Type :=
  | Ok (a : A) (w : World)
  | Throw (e : Exn) (w : World).
Arguments Ok {A} a w.
Arguments Throw {A} e w.

Definition res_world {A} (r : Res A) : World :=
  match r with Ok _ w => w | Throw _ w => w end.

Definition M (A : Type) : Type := World → Res A.

#[global] Instance M_ret : MRet M := fun A a w => Ok a w.

#[global] Instance M_bind : MBind M := fun A B f m w =>
  match m w with
  | Ok a w' => f a w'
  | Throw e w' => Throw e w'
  end.

Definition when (b : bool) (m : M unit) : M unit := if b then m else mret tt.

(** A property read of [this.panes[i]]: a [TypeError] when there is no
    such pane. *)
Definition getPane (i : nat) : M Pane := fun w =>
  match panes w !! i with
  | Some p => Ok p w
  | None => Throw TypeError w
  end.

Definition getOptions : M Options := fun w => Ok (options w) w.
Definition getCurrent : M (option nat) := fun w => Ok (current w) w.
Definition setCurrent (c : option nat) : M unit := fun w => Ok tt (with_current c w).

(** A field assignment on the pane object at position [i]. *)
Definition modPane (i : nat) (f : Pane → Pane) : M unit := fun w =>
  Ok tt (with_panes (alter f i) w).

Definition setStyle (i : nat) (k : StyleProp) (v : CssVal) : M unit := fun w =>
  Ok tt (record (SetStyle i k v)
           (with_panes (alter (pane_el_map Target (el_style_set k v)) i) w)).

Definition setAttr (i : nat) (r : ElemRef) (n v : string) : M unit := fun w =>
  Ok tt (record (SetAttribute i r n v)
           (with_panes (alter (pane_el_map r (setAttribute n v)) i) w)).

Definition classAdd (i : nat) (r : ElemRef) (c : string) : M unit := fun w =>
  Ok tt (record (ClassAdd i r c)
           (with_panes (alter (pane_el_map r (classList_add c)) i) w)).

Definition classRemove (i : nat) (r : ElemRef) (c : string) : M unit := fun w =>
  Ok tt (record (ClassRemove i r c)
           (with_panes (alter (pane_el_map r (classList_remove c)) i) w)).

(** [const { height } = $target.getBoundingClientRect()]. *)
Definition getBoundingClientRect (i : nat) : M Q := fun w =>
  match panes w !! i with
  | None => Throw TypeError w
  | Some p => Ok (layout w i (target p)) (record (GetBoundingClientRect i) w)
  end.

(** [this.emit(n, { pane, index, panes: this.panes })]. *)
Definition emit (n : string) (i : nat) : M unit := fun w =>
  Ok tt (record (Emit n (mkPayload i i (panes w))) w).

(** [fromTo(args, v => ($target.style.height = `${v}px`)).then(k)]. *)
Definition fromTo (a : FromToArgs) (i : nat) (k : Then) : M unit := fun w =>
  Ok tt (record (FromTo a i k) (with_pending (fun l => l ++ [mkAnimation a i k]) w)).

(** ** The methods of [SponExpander] *)

(** [item.machine[item.state].CLICK]: a [TypeError] when the machine has
    no entry for the state. *)
Definition machine_click (p : Pane) : M string := fun w =>
  match machine p !! state p with
  | Some t => Ok (CLICK t) w
  | None => Throw TypeError w
  end.

(** [onEnd = pane => ...] (lines 150-161). *)
Definition onEnd (pane : nat) : M unit :=
  p ← getPane pane;
  let open := open p in
  setStyle pane WillChange (css_str "");;
  setStyle pane Height (css_str "");;
  setStyle pane Display (css_str "");;
  modPane pane (set_isRunning false);;
  setAttr pane Button "aria-expanded" (js_string_of_bool open);;
  setAttr pane Button "aria-selected" (js_string_of_bool open);;
  setAttr pane Target "aria-hidden" (js_string_of_bool (negb open)).

(** The callback [expand] passes to [then] (lines 226-231). *)
Definition thenOpened (index : nat) : M unit :=
  o ← getOptions;
  onEnd index;;
  classAdd index Button (buttonActiveClass o);;
  classAdd index Target (contentActiveClass o);;
  emit "spon:opened" index.

(** The callback [collapse] passes to [then] (lines 269-274). *)
Definition thenClosed (index : nat) : M unit :=
  o ← getOptions;
  onEnd index;;
  classRemove index Button (buttonActiveClass o);;
  classRemove index Target (contentActiveClass o);;
  emit "spon:closed" index.

(** [expand = index => ...] (lines 199-235). *)
Definition expand (index : nat) : M unit :=
  o ← getOptions;
  pane ← getPane index;
  when (negb (isRunning pane)) (
    setStyle index Display (css_str "block");;
    height ← getBoundingClientRect index;
    setStyle index Height (css_px 0);;
    setStyle index WillChange (css_str "height");;
    modPane index (set_isRunning true);;
    modPane index (set_open true);;
    emit "spon:open" index;;
    fromTo (mkFromTo 0 (Math_round height) (duration o) (easing o))
           index ThenOpened).

(** [collapse = index => ...] (lines 243-278). *)
Definition collapse (index : nat) : M unit :=
  o ← getOptions;
  pane ← getPane index;
  when (negb (isRunning pane)) (
    modPane index (set_open false);;
    height ← getBoundingClientRect index;
    setStyle index Height (css_px height);;
    setStyle index WillChange (css_str "height");;
    emit "spon:close" index;;
    modPane index (set_isRunning true);;
    fromTo (mkFromTo (Math_round height) 0 (duration o) (easing o))
           index ThenClosed).

(** The element of lines 65-67,
    [event.target.hasAttribute('data-accordion-btn') ? event.target :
     event.target.closest('[data-accordion-btn]')],
    for an event on the button of pane [i]: the button when it carries
    [data-accordion-btn], whatever [selector] found it by, and [null]
    otherwise, as it is when the event hits no button of the registry.
    Reading [dataset] of [null] (line 69) is a [TypeError]. *)
Definition closestButton (i : nat) : M Element := fun w =>
  match panes w !! i with
  | Some p =>
      if bool_decide (is_Some (attributes (button p) !! "data-accordion-btn"))
      then Ok (button p) w
      else Throw TypeError w
  | None => Throw TypeError w
  end.

(** The position at which an array of length [n] holds its property
    [key]: the one whose decimal string is [key]. *)
Definition arrayIndex (key : string) (n : nat) : option nat :=
  fst <$> list_find (fun k => pretty k = key) (seq 0 n).

(** [this.panes[element.dataset.accordionIndex]] (lines 69-70). When the
    element has no [data-accordion-index], or the registry has no such
    property, [item] is [undefined] and [item.state] (line 71) is a
    [TypeError]. *)
Definition getItem (element : Element) : M nat := fun w =>
  match attributes element !! "data-accordion-index" with
  | Some key =>
      match arrayIndex key (length (panes w)) with
      | Some accordionIndex => Ok accordionIndex w
      | None => Throw TypeError w
      end
  | None => Throw TypeError w
  end.

(** [clickHandle = event => ...] (lines 63-88) for an event on the button
    of pane [i]. [event.preventDefault()] (line 64) acts on the event
    alone. *)
Definition clickHandle (i : nat) : M unit :=
  element ← closestButton i;
  o ← getOptions;
  accordionIndex ← getItem element;
  item ← getPane accordionIndex;
  s ← machine_click item;
  modPane accordionIndex (set_state s);;
  cur ← getCurrent;
  when (closeOthers o) (
    match cur with
    | Some c =>
        cp ← getPane c;
        when (negb (index cp =? accordionIndex)%nat) (
          let index := index cp in
          s' ← machine_click cp;
          modPane c (set_state s');;
          collapse index)
    | None => mret tt
    end);;
  item ← getPane accordionIndex;
  (if String.eqb (state item) "open"
   then expand accordionIndex
   else collapse accordionIndex);;
  setCurrent (Some accordionIndex).

(** ** Construction *)

(** The body of the [map] callback of [createPanels] (lines 105-141) for
    the button found at position [index] and the target its
    [data-target] selector resolves to. *)
Definition createPanel (o : Options) (index : nat) (bt : Element * Element) : Pane :=
  let state :=
    if optOpen o then true
    else if (if negb (optOpen o) && bool_decide (Some index = activeIndex o)
             then true else false)
         then true else false in
  let b0 := setAttribute "data-accordion-index" (pretty index) bt.1 in
  let b1 := setAttribute "aria-expanded" (js_string_of_bool state) b0 in
  let b2 := setAttribute "aria-selected" (js_string_of_bool state) b1 in
  let b3 := setAttribute "aria-controls" (name o +:+ "-" +:+ pretty index) b2 in
  let b4 := if state then classList_add (buttonActiveClass o) b3 else b3 in
  let t0 := if state then classList_add (contentActiveClass o) bt.2 else bt.2 in
  let t1 := setAttribute "data-enhanced" "true" t0 in
  let t2 := setAttribute "aria-labelledby" (name o +:+ "-" +:+ pretty index) t1 in
  let t3 := setAttribute "aria-hidden" (js_string_of_bool (negb state)) t2 in
  let t4 := setAttribute "role" "tabpanel" t3 in
  {| button := b4; target := t4; index := index; open := state;
     isRunning := false; state := if state then "open" else "close";
     machine := machine_table |}.

Definition createPanels (o : Options) (els : list (Element * Element)) : list Pane :=
  imap (createPanel o) els.

(** [this.current] after [createPanels]: the pane at [activeIndex] when
    there is one ([if (activeIndex === index) this.current = obj]). *)
Definition initialCurrent (o : Options) (els : list (Element * Element)) : option nat :=
  match activeIndex o with
  | Some a => if bool_decide (a < length els)%nat then Some a else None
  | None => None
  end.

(** The constructor, given the merged options, the layout engine and the
    buttons found by [selector], each with its resolved target. *)
Definition constructor (o : Options) (lay : nat → Element → Q)
    (els : list (Element * Element)) : World :=
  if init o
  then mkWorld o lay (createPanels o els) (initialCurrent o els) [] []
  else mkWorld o lay [] None [] [].

(** ** The event loop *)

(** What can happen to a widget: a click (or touch) on the button of a
    pane, a call of [expand] or [collapse] from outside, the animator
    producing a frame value for a running animation, and the animator
    resolving the promise of a running animation. *)
Inductive Input : Type :=
  | Click (i : nat)
  | CallExpand (i : nat)
  | CallCollapse (i : nat)
  | Frame (k : nat) (v : Q)
  | Resolve (k : nat).

(** The frame callback [v => ($target.style.height = `${v}px`)]. *)
Definition frame (k : nat) (v : Q) : M unit := fun w =>
  match pending w !! k with
  | Some a => setStyle (an_pane a) Height (css_px v) w
  | None => Ok tt w
  end.

(** The promise of the [k]-th running animation resolves and its [then]
    callback runs. *)
Definition resolve (k : nat) : M unit := fun w =>
  match pending w !! k with
  | Some a =>
      let w' := with_pending (delete k) w in
      match an_then a with
      | ThenOpened => thenOpened (an_pane a) w'
      | ThenClosed => thenClosed (an_pane a) w'
      end
  | None => Ok tt w
  end.

Definition step (i : Input) : M unit :=
  match i with
  | Click i => clickHandle i
  | CallExpand i => expand i
  | CallCollapse i => collapse i
  | Frame k v => frame k v
  | Resolve k => resolve k
  end.

(** An exception ends the turn of the event loop that raised it; the
    widget lives on with what was written before. *)
Definition run (ins : list Input) (w : World) : World :=
  foldl (fun w i => res_world (step i w)) w ins.

Definition reachable (w : World) : Prop :=
  ∃ o lay els ins, w = run ins (constructor o lay els).

(** All running animations have completed. *)
Definition settled (w : World) : Prop := pending w = [].

Definition openCount (w : World) : nat :=
  length (filter (fun p => open p = true) (panes w)).

(** ** Net effects of the methods on one pane

    The composition of the writes each method performs on its pane, in
    the order of the source, and the effects it records. *)

Definition displayBlock (p : Pane) : Pane :=
  pane_el_map Target (el_style_set Display (css_str "block")) p.

Definition expandStart (p : Pane) : Pane :=
  set_open true (set_isRunning true
    (pane_el_map Target (el_style_set WillChange (css_str "height"))
      (pane_el_map Target (el_style_set Height (css_px 0)) (displayBlock p)))).

Definition collapseStart (h : Q) (p : Pane) : Pane :=
  set_isRunning true
    (pane_el_map Target (el_style_set WillChange (css_str "height"))
      (pane_el_map Target (el_style_set Height (css_px h)) (set_open false p))).

Definition onEndPane (p : Pane) : Pane :=
  pane_el_map Target (setAttribute "aria-hidden" (js_string_of_bool (negb (open p))))
    (pane_el_map Button (setAttribute "aria-selected" (js_string_of_bool (open p)))
      (pane_el_map Button (setAttribute "aria-expanded" (js_string_of_bool (open p)))
        (set_isRunning false
          (pane_el_map Target (el_style_set Display (css_str ""))
            (pane_el_map Target (el_style_set Height (css_str ""))
              (pane_el_map Target (el_style_set WillChange (css_str "")) p)))))).

Definition openedPane (o : Options) (p : Pane) : Pane :=
  pane_el_map Target (classList_add (contentActiveClass o))
    (pane_el_map Button (classList_add (buttonActiveClass o)) (onEndPane p)).

Definition closedPane (o : Options) (p : Pane) : Pane :=
  pane_el_map Target (classList_remove (contentActiveClass o))
    (pane_el_map Button (classList_remove (buttonActiveClass o)) (onEndPane p)).

Definition expandArgs (o : Options) (h : Q) : FromToArgs :=
  mkFromTo 0 (Math_round h) (duration o) (easing o).

Definition collapseArgs (o : Options) (h : Q) : FromToArgs :=
  mkFromTo (Math_round h) 0 (duration o) (easing o).

Definition expandTrace (o : Options) (i : nat) (h : Q) (ps : list Pane) : list Action :=
  [ SetStyle i Display (css_str "block");
    GetBoundingClientRect i;
    SetStyle i Height (css_px 0);
    SetStyle i WillChange (css_str "height");
    Emit "spon:open" (mkPayload i i ps);
    FromTo (expandArgs o h) i ThenOpened ].

Definition collapseTrace (o : Options) (i : nat) (h : Q) (ps : list Pane) : list Action :=
  [ GetBoundingClientRect i;
    SetStyle i Height (css_px h);
    SetStyle i WillChange (css_str "height");
    Emit "spon:close" (mkPayload i i ps);
    FromTo (collapseArgs o h) i ThenClosed ].

Definition onEndTrace (i : nat) (op : bool) : list Action :=
  [ SetStyle i WillChange (css_str "");
    SetStyle i Height (css_str "");
    SetStyle i Display (css_str "");
    SetAttribute i Button "aria-expanded" (js_string_of_bool op);
    SetAttribute i Button "aria-selected" (js_string_of_bool op);
    SetAttribute i Target "aria-hidden" (js_string_of_bool (negb op)) ].

Definition openedTrace (o : Options) (i : nat) (op : bool) (ps : list Pane) : list Action :=
  onEndTrace i op ++
  [ ClassAdd i Button (buttonActiveClass o);
    ClassAdd i Target (contentActiveClass o);
    Emit "spon:opened" (mkPayload i i ps) ].

Definition closedTrace (o : Options) (i : nat) (op : bool) (ps : list Pane) : list Action :=
  onEndTrace i op ++
  [ ClassRemove i Button (buttonActiveClass o);
    ClassRemove i Target (contentActiveClass o);
    Emit "spon:closed" (mkPayload i i ps) ].

(** ** Invariants of a running widget *)

(** The number of running animations whose callbacks belong to pane [i]. *)
Definition animationsOn (i : nat) (w : World) : nat :=
  length (filter (fun a => an_pane a = i) (pending w)).

(** The event names of [src/main.js]. *)
Definition eventNames : list string :=
  ["spon:open"; "spon:opened"; "spon:close"; "spon:closed"].

(** An emitted event carries one of the four names, and its payload
    [{ pane, index, panes }] holds the pane found at [index] in a registry
    of [n] panes. *)
Definition event_ok (n : nat) (a : Action) : Prop :=
  match a with
  | Emit nm pl =>
      nm ∈ eventNames ∧ ev_pane pl = ev_index pl ∧
      ev_index pl < n ∧ length (ev_panes pl) = n
  | _ => True
  end.

(** The pane an effect belongs to. *)
Definition action_pane (a : Action) : nat :=
  match a with
  | SetStyle i _ _ | SetAttribute i _ _ _ | ClassAdd i _ _
  | ClassRemove i _ _ | GetBoundingClientRect i | FromTo _ i _ => i
  | Emit _ pl => ev_index pl
  end.

Definition pane_ok (i : nat) (p : Pane) : Prop :=
  index p = i ∧ machine p = machine_table ∧ (state p = "open" ∨ state p = "close") ∧
  attributes (button p) !! "data-accordion-index" = Some (pretty i).

Record wf (w : World) : Prop := mkWf {
  wf_pane : ∀ i p, panes w !! i = Some p → pane_ok i p;
  wf_current : ∀ c, current w = Some c → c < length (panes w);
  wf_running : ∀ i p, panes w !! i = Some p →
                 animationsOn i w = if isRunning p then 1 else 0;
  wf_pending : Forall (fun a => an_pane a < length (panes w)) (pending w);
  wf_trace : Forall (event_ok (length (panes w))) (trace w)
}.

(** The block of [clickHandle] guarded by [closeOthers] (lines 73-81). *)
Definition closeOther (accordionIndex : nat) : M unit :=
  o ← getOptions;
  cur ← getCurrent;
  when (closeOthers o) (
    match cur with
    | Some c =>
        cp ← getPane c;
        when (negb (index cp =? accordionIndex)%nat) (
          let index := index cp in
          s' ← machine_click cp;
          modPane c (set_state s');;
          collapse index)
    | None => mret tt
    end).

(** The dispatch of [clickHandle] on the new state (lines 83-87). *)
Definition dispatch (accordionIndex : nat) : M unit :=
  item ← getPane accordionIndex;
  (if String.eqb (state item) "open"
   then expand accordionIndex
   else collapse accordionIndex);;
  setCurrent (Some accordionIndex).

(** [n] applications of the transition [CLICK] of the machine table. *)
Fixpoint clicks (n : nat) (s : string) : option string :=
  match n with
  | 0 => Some s
  | S n => t ← machine_table !! s; clicks n (CLICK t)
  end.

Definition isClickOn (i : nat) (x : Input) : bool :=
  match x with
  | Click j => bool_decide (j = i)
  | _ => false
  end.

Definition countClicks (i : nat) (ins : list Input) : nat :=
  length (filter (fun x => isClickOn i x = true) ins).

(** ** Sample widgets *)

Definition blank : Element :=
  mkElement ∅ false ∅ (mkStyle css_empty css_empty css_empty).

(** A button as the default selector finds it: an element that carries
    [data-accordion-btn]. *)
Definition trigger : Element := setAttribute "data-accordion-btn" "" blank.

(** A layout engine that measures every target at 100.5 pixels. *)
Definition layoutHalf : nat → Element → Q := fun _ _ => 201 # 2.

(** The layout of targets that are not rendered, as when the content is
    not in the document: every rectangle has height [0]. *)
Definition layoutZero : nat → Element → Q := fun _ _ => 0%Q.

Definition exclusive : Options :=
  mkOptions None true false "[data-accordion-btn]" "accordion" true
    "is-active" "is-expanded" 300 defaultEasing.

Definition twoPanes : list (Element * Element) :=
  [(trigger, blank); (trigger, blank)].

(** ** Relations between the worlds before and after a method *)

(** Options, layout engine and [current] stay, no pane is added or
    removed, and no pane's [state] changes. *)
Definition keeps_states (w w' : World) : Prop :=
  options w' = options w ∧ layout w' = layout w ∧ current w' = current w ∧
  length (panes w') = length (panes w) ∧
  ∀ j p, panes w !! j = Some p → ∃ p', panes w' !! j = Some p' ∧ state p' = state p.

(** Pane [i] is not written, and what is started or recorded belongs to
    other panes. *)
Definition untouched (i : nat) (w w' : World) : Prop :=
  panes w' !! i = panes w !! i ∧
  (∃ l, pending w' = pending w ++ l ∧ Forall (fun a => an_pane a ≠ i) l) ∧
  (∃ t, trace w' = trace w ++ t ∧ Forall (fun a => action_pane a ≠ i) t).

(** The [state] string that agrees with [open]. *)
Definition stateOf (b : bool) : string := if b then "open" else "close".

(** Two closed panes with [closeOthers] on, and the same widget after a
    click on the first button. *)
Definition demo : World := constructor exclusive layoutHalf twoPanes.

Definition demoRunning : World := run [Click 0] demo.

(** The inputs that leave the buttons of the panes other than [i] alone:
    clicks on the button of pane [i], calls from outside and whatever the
    animator does, at any time. *)
Definition activates_only (i : nat) (x : Input) : Prop :=
  match x with
  | Click j => j = i
  | _ => True
  end.

(** Two clicks on different buttons before the first animation ends, then
    both animations complete. *)
Definition demoRace : World := run [Click 0; Click 1; Resolve 0; Resolve 0] demo.

(** ** Order of effects *)

Definition is_emit (n : string) (a : Action) : bool :=
  match a with
  | Emit m _ => String.eqb m n
  | _ => false
  end.

Definition is_fromTo (a : Action) : bool :=
  match a with
  | FromTo _ _ _ => true
  | _ => false
  end.

(** The terminal restoration of [onEnd]: an inline style property is
    cleared, or an attribute is set. *)
Definition is_restoration (a : Action) : bool :=
  match a with
  | SetStyle _ _ (css_str EmptyString) => true
  | SetAttribute _ _ _ _ => true
  | _ => false
  end.

(** Every effect satisfying [P] is recorded strictly before every effect
    satisfying [Q]. *)
Definition precedes (P Q : Action → bool) (t : list Action) : Prop :=
  ∀ m n a b, t !! m = Some a → t !! n = Some b →
             P a = true → Q b = true → (m < n)%nat.

Fixpoint precedesb (P Q : Action → bool) (t : list Action) : bool :=
  match t with
  | [] => true
  | a :: t' => if Q a then negb (existsb P t) else precedesb P Q t'
  end.

Fixpoint count_if (P : Action → bool) (t : list Action) : nat :=
  match t with
  | [] => 0
  | a :: t' => (if P a then 1 else 0) + count_if P t'
  end.

(** ** Whole transitions *)

(** The frame values the animator produces for the [k]-th animation. *)
Definition frames (k : nat) (vs : list Q) : list Input := map (Frame k) vs.

(** The pane after the frame callback has written the values [vs]. *)
Definition framesPane (vs : list Q) (p : Pane) : Pane :=
  foldl (fun p v => pane_el_map Target (el_style_set Height (css_px v)) p) p vs.

(** [expand(i)] awaited to completion: the call, the frames of its
    animation, and the resolution of its promise. The animation started
    in world [w] is the one after those already running. *)
Definition expandAwaited (i : nat) (vs : list Q) (w : World) : World :=
  let k := length (pending w) in
  run (CallExpand i :: frames k vs ++ [Resolve k]) w.

Definition collapseAwaited (i : nat) (vs : list Q) (w : World) : World :=
  let k := length (pending w) in
  run (CallCollapse i :: frames k vs ++ [Resolve k]) w.

(** The inline style with no override. *)
Definition noOverride : Style := mkStyle css_empty css_empty css_empty.

(** The reading of "runs the Animator from 0 to the measured height": the
    animation [expand] starts on an idle pane has [start = 0] and its
    [end] is the height the layout engine measured. *)
Definition animates_to_measured_height (w : World) (i : nat) : Prop :=
  ∀ p h, panes w !! i = Some p → isRunning p = false →
         layout w i (target (displayBlock p)) = h →
         ∃ a, last (pending (res_world (expand i w))) = Some a ∧
              an_start (an_args a) = 0%Z ∧
              (inject_Z (an_end (an_args a)) == h)%Q.

(** A widget whose content is not in the document. *)
Definition demoDetached : World := constructor exclusive layoutZero twoPanes.

(** The reading of "if height measurement fails during expand, the
    transition is aborted": when the target of an idle pane has no
    height to measure, [expand] leaves [isRunning] and [open] as they
    were and starts no animation, so that no [spon:opened] can follow. *)
Definition aborts_when_unmeasurable (w : World) (i : nat) : Prop :=
  ∀ p, panes w !! i = Some p → isRunning p = false →
       (layout w i (target (displayBlock p)) == 0)%Q →
       ∃ p', panes (res_world (expand i w)) !! i = Some p' ∧
             isRunning p' = isRunning p ∧ open p' = open p ∧
             pending (res_world (expand i w)) = pending w.

(** The event names as the specification lists them. *)
Definition specEventNames : list string := ["open"; "opened"; "close"; "closed"].

(** The reading of "the events are named exactly open, opened, close and
    closed": every event a widget in world [w] has emitted carries one of
    these names. *)
Definition emits_spec_names (w : World) : Prop :=
  ∀ n pl, Emit n pl ∈ trace w → n ∈ specEventNames.

(** A pane opened and closed again, each transition awaited. *)
Definition demoCycle : World := run [Click 0; Resolve 0; Click 0; Resolve 0] demo.

(** [expand(i)] then [collapse(i)], each awaited to completion. *)
Definition roundTrip (i : nat) (vs1 vs2 : list Q) (w : World) : World :=
  collapseAwaited i vs2 (expandAwaited i vs1 w).

(** The reading of "the round trip is an identity on the overrides": after
    it the inline style of the target of an idle pane is what it was. *)
Definition round_trip_restores_baseline (w : World) (i : nat) : Prop :=
  ∀ p p', panes w !! i = Some p → isRunning p = false →
          panes (roundTrip i [] [] w) !! i = Some p' →
          style (target p') = style (target p).

(** A target the document hides with an inline [display: none]. *)
Definition hidden : Element :=
  mkElement ∅ false ∅ (mkStyle (css_str "none") css_empty css_empty).

Definition demoHidden : World := constructor defaults layoutHalf [(trigger, hidden)].

(** Frame values of an opening and of a closing animation. *)
Definition risingFrames : list Q := [10 # 1; 50 # 1]%Q.
Definition fallingFrames : list Q := [70 # 1; 3 # 1]%Q.

(** ** Widgets without inline styles *)

(** No idle pane carries an inline override on its target. *)
Definition clean (w : World) : Prop :=
  ∀ i p, panes w !! i = Some p → isRunning p = false →
         style (target p) = noOverride.

(** * Further code of the class *)

(** ** Transition accounting *)

(** Transitions started: the pre-events recorded. *)
Definition started (w : World) : nat :=
  count_if (is_emit "spon:open") (trace w) + count_if (is_emit "spon:close") (trace w).

(** Transitions finished: the post-events recorded. *)
Definition finished (w : World) : nat :=
  count_if (is_emit "spon:opened") (trace w) + count_if (is_emit "spon:closed") (trace w).

(** ** Construction *)

(** Whether [createPanels] opens the pane at [index]:
    [open ? true : (index === activeIndex)]. *)
Definition startsOpen (o : Options) (index : nat) : bool :=
  optOpen o || bool_decide (Some index = activeIndex o).

(** A widget constructed with [init: false]. *)
Definition demoIdle : World :=
  constructor (mkOptions (Some 0) true false "[data-accordion-btn]" "accordion"
                 false "is-active" "is-expanded" 300 defaultEasing)
    layoutHalf twoPanes.

(** Every pre-event is matched by a running animation or by a
    post-event, and every animation was announced by a pre-event. *)
Definition balanced (w : World) : Prop :=
  started w = finished w + length (pending w) ∧
  count_if is_fromTo (trace w) = started w.

(** ** The DOM state of idle panes *)

(** The accessibility attributes and the active classes say what [open]
    says. *)
Definition mirrors (o : Options) (p : Pane) : Prop :=
  attributes (button p) !! "aria-expanded" = Some (js_string_of_bool (open p)) ∧
  attributes (button p) !! "aria-selected" = Some (js_string_of_bool (open p)) ∧
  attributes (target p) !! "aria-hidden" = Some (js_string_of_bool (negb (open p))) ∧
  (open p = true ↔ buttonActiveClass o ∈ classList (button p)) ∧
  (open p = true ↔ contentActiveClass o ∈ classList (target p)).

(** The value of [open] an animation was started with: [true] by
    [expand], [false] by [collapse]. *)
Definition direction (a : Animation) : bool :=
  match an_then a with
  | ThenOpened => true
  | ThenClosed => false
  end.

(** While an animation is pending, [open] of its pane is the value the
    animation was started with. *)
Definition directed (w : World) : Prop :=
  ∀ k a p, pending w !! k = Some a → panes w !! an_pane a = Some p →
           open p = direction a.

Definition mirrored (w : World) : Prop :=
  ∀ i p, panes w !! i = Some p → isRunning p = false → mirrors (options w) p.

(** The two facts are preserved together: the completion callback
    restores the mirror only because [open] matches the animation. *)
Definition shown (w : World) : Prop := directed w ∧ mirrored w.

(** The buttons and targets are found without the active classes. *)
Definition unmarked (o : Options) (els : list (Element * Element)) : Prop :=
  Forall (fun bt => (buttonActiveClass o ∉ classList bt.1) ∧
                    (contentActiveClass o ∉ classList bt.2)) els.

(** ** What the methods never write *)

(** [p] and [q] agree on [index], on [machine], and on every attribute
    other than the three [onEnd] writes. *)
Definition same_attributes (p q : Pane) : Prop :=
  index p = index q ∧ machine p = machine q ∧
  (∀ key, key ≠ "aria-expanded" → key ≠ "aria-selected" →
          attributes (button p) !! key = attributes (button q) !! key) ∧
  (∀ key, key ≠ "aria-hidden" →
          attributes (target p) !! key = attributes (target q) !! key).

(** [p] and [q] agree on the classes other than the active ones and on
    the inline style of the button, and [p] has a [class] attribute
    wherever [q] has one. *)
Definition same_classes (o : Options) (p q : Pane) : Prop :=
  (∀ c, c ≠ buttonActiveClass o →
        c ∈ classList (button p) ↔ c ∈ classList (button q)) ∧
  (∀ c, c ≠ contentActiveClass o →
        c ∈ classList (target p) ↔ c ∈ classList (target q)) ∧
  style (button p) = style (button q) ∧
  (classAttribute (button q) = true → classAttribute (button p) = true) ∧
  (classAttribute (target q) = true → classAttribute (target p) = true).

Definition unwritten (o : Options) (p q : Pane) : Prop :=
  same_attributes p q ∧ same_classes o p q.

Definition fixed (o : Options) (lay : nat → Element → Q)
    (ps : list Pane) (w : World) : Prop :=
  options w = o ∧ layout w = lay ∧ Forall2 (unwritten o) (panes w) ps.

(** ** The whole widget: root element, listeners and [destroy] *)

(** [removeAttribute(n)] for an attribute other than [class] and
    [style]. *)
Definition removeAttribute (n : string) (e : Element) : Element :=
  mkElement (delete n (attributes e)) (classAttribute e) (classList e) (style e).

(** [removeAttribute('style')]: the inline style is kept in [style], and
    removing the attribute empties it. *)
Definition removeStyle (e : Element) : Element :=
  mkElement (attributes e) (classAttribute e) (classList e) noOverride.

(** What the [forEach] of [destroy] does to a button and to a target. *)
Definition destroyButton (o : Options) (e : Element) : Element :=
  removeAttribute "role"
    (removeAttribute "aria-controls"
      (removeAttribute "aria-selected"
        (removeAttribute "aria-expanded"
          (classList_remove (buttonActiveClass o) e)))).

Definition destroyTarget (o : Options) (e : Element) : Element :=
  removeStyle
    (classList_remove (contentActiveClass o)
      (removeAttribute "data-enhanced"
        (removeAttribute "role"
          (removeAttribute "aria-labelledby"
            (removeAttribute "aria-hidden" e))))).

Definition destroyPane (o : Options) (p : Pane) : Pane :=
  mkPane (destroyButton o (button p)) (destroyTarget o (target p))
    (index p) (open p) (isRunning p) (state p) (machine p).

(** An instance of the class: the registry and the animations, the root
    element [$el], and the listeners: [(i, type)] says that [clickHandle]
    is bound to the button of pane [i] for events of [type]. *)
Record Expander : Type := mkExpander {
  widget : World;
  root : Element;
  listeners : gset (nat * string)
}.

Definition addEvents (x : Expander) : Expander :=
  mkExpander (widget x) (root x)
    (foldr (fun p ls => {[ (index p, "click") ]} ∪ ({[ (index p, "touchstart") ]} ∪ ls))
       (listeners x) (panes (widget x))).

Definition removeEvents (x : Expander) : Expander :=
  mkExpander (widget x) (root x)
    (foldr (fun p ls => (ls ∖ {[ (index p, "click") ]}) ∖ {[ (index p, "touchstart") ]})
       (listeners x) (panes (widget x))).

(** [init], as the constructor calls it: [createPanels] over the buttons
    found by [selector], then [addEvents], then the attributes of the
    root. *)
Definition initWidget (els : list (Element * Element)) (x : Expander) : Expander :=
  let o := options (widget x) in
  let w := widget x in
  let cur := match initialCurrent o els with
             | Some a => Some a
             | None => current w
             end in
  let x1 := addEvents
              (mkExpander
                 (mkWorld o (layout w) (createPanels o els) cur (pending w) (trace w))
                 (root x) (listeners x)) in
  mkExpander (widget x1)
    (setAttribute "aria-multiselectable" (js_string_of_bool (closeOthers o))
       (setAttribute "role" "tablist" (root x1)))
    (listeners x1).

(** [new SponExpander(el, options)]. *)
Definition newExpander (o : Options) (lay : nat → Element → Q)
    (el : Element) (els : list (Element * Element)) : Expander :=
  let x0 := mkExpander (mkWorld o lay [] None [] []) el ∅ in
  if init o then initWidget els x0 else x0.

(** [destroy]. The registry, [current] and the running animations stay
    as they are; [trace] lists the effects of the methods on a pane and
    is not extended. *)
Definition destroy (x : Expander) : Expander :=
  let o := options (widget x) in
  let x1 := removeEvents x in
  mkExpander (with_panes (fmap (destroyPane o)) (widget x1))
    (removeAttribute "aria-multiselectable" (removeAttribute "role" (root x1)))
    (listeners x1).

(** What happens to an instance: an event of some type dispatched on the
    button of pane [j], which reaches [clickHandle] through a bound
    listener only, or a call from outside, a frame or a completion. *)
Inductive Occurrence : Type :=
  | DomEvent (type : string) (j : nat)
  | Direct (i : Input).

Definition lift (i : Input) (x : Expander) : Expander :=
  mkExpander (res_world (step i (widget x))) (root x) (listeners x).

Definition occur (e : Occurrence) (x : Expander) : Expander :=
  match e with
  | DomEvent type j =>
      if bool_decide ((j, type) ∈ listeners x) then lift (Click j) x else x
  | Direct i => lift i x
  end.

Definition live (es : list Occurrence) (x : Expander) : Expander :=
  foldl (fun x e => occur e x) x es.

(** The inputs that reached the methods. *)
Definition delivered (x : Expander) (es : list Occurrence) : list Input :=
  omap (fun e => match e with
                 | DomEvent type j =>
                     if bool_decide ((j, type) ∈ listeners x) then Some (Click j) else None
                 | Direct i => Some i
                 end) es.

Definition is_DomEvent (e : Occurrence) : Prop :=
  match e with DomEvent _ _ => True | Direct _ => False end.


(** Two elements that differ at most in whether they have a [class]
    attribute. *)
Definition same_but_class_attribute (e e' : Element) : Prop :=
  attributes e = attributes e' ∧ classList e = classList e' ∧ style e = style e'.


(** ** One pane at a time *)

(** Every open pane is the current one. *)
Definition single (w : World) : Prop :=
  ∀ j p, panes w !! j = Some p → open p = true → current w = Some j.

(** The current pane is not running. *)
Definition calm (w : World) : Prop :=
  ∀ c p, current w = Some c → panes w !! c = Some p → isRunning p = false.

(** Inputs in which every click finds the current pane idle, and
    [expand] is not called from outside. *)
Fixpoint paced (ins : list Input) (w : World) : Prop :=
  match ins with
  | [] => True
  | x :: ins' =>
      match x with
      | Click _ => calm w
      | CallExpand _ => False
      | CallCollapse _ | Frame _ _ | Resolve _ => True
      end ∧ paced ins' (res_world (step x w))
  end.

(** ** Buttons and the selector *)

(** What [querySelectorAll(selector)] says of the buttons it returns
    when [selector] is the attribute selector of the defaults: each of
    them carries [data-accordion-btn]. For any other selector it says
    nothing of that attribute. *)
Definition selected (o : Options) (els : list (Element * Element)) : Prop :=
  selector o = "[data-accordion-btn]" →
  Forall (fun bt => is_Some (attributes bt.1 !! "data-accordion-btn")) els.

(** The button of pane [i] is one [clickHandle] recognises. *)
Definition recognised (i : nat) (w : World) : Prop :=
  ∃ p, panes w !! i = Some p ∧
       is_Some (attributes (button p) !! "data-accordion-btn").

(** A widget whose buttons are found by a class selector and do not
    carry [data-accordion-btn]. *)
Definition classButton : Element :=
  mkElement ∅ true {["acc-btn"]} (mkStyle css_empty css_empty css_empty).

Definition bySelector : Options :=
  mkOptions None false false ".acc-btn" "accordion" true
    "is-active" "is-expanded" 300 defaultEasing.

Definition demoSelector : World :=
  constructor bySelector layoutHalf [(classButton, blank); (classButton, blank)].

(** ** Equations of the methods *)

Example Math_round_half : Math_round (201 # 2) = 101%Z.
Proof. reflexivity. Qed.

Example Math_round_below : Math_round (1004 # 10) = 100%Z.
Proof. reflexivity. Qed.

Arguments Math_round : simpl never.

Ltac mcbv :=
  cbv [mbind M_bind mret M_ret when getOptions getCurrent setCurrent modPane
       setStyle setAttr classAdd classRemove emit fromTo machine_click
       getPane getBoundingClientRect record with_panes with_pending
       with_current panes options layout current pending trace res_world
       negb option_fmap option_map fmap].

Ltac with_world w :=
  destruct w as [?o ?lay ?ps ?c ?pd ?tr];
  cbn [panes options layout current pending trace] in *.

Lemma alter_lookup {A} (f : A → A) (l : list A) i x :
  l !! i = Some x → alter f i l = <[i := f x]> l.
Proof.
  revert i. induction l as [|y l IH]; intros [|i] H; simplify_eq/=; try done.
  by rewrite (IH i).
Qed.

Lemma alter_insert {A} (f : A → A) (l : list A) i x y :
  l !! i = Some y → alter f i (<[i := x]> l) = <[i := f x]> l.
Proof.
  intros H. rewrite (alter_lookup f _ i x).
  - apply list_insert_insert_eq.
  - apply list_lookup_insert_eq. by eapply lookup_lt_Some.
Qed.

Ltac world_norm H :=
  rewrite ?(alter_lookup _ _ _ _ H); rewrite ?(alter_insert _ _ _ _ _ H);
  rewrite <- ?app_assoc; cbn [app].

Lemma expand_missing i w :
  panes w !! i = None → expand i w = Throw TypeError w.
Proof. intros H. with_world w. unfold expand. mcbv. by rewrite H. Qed.

Lemma expand_busy i w p :
  panes w !! i = Some p → isRunning p = true → expand i w = Ok tt w.
Proof. intros H Hr. with_world w. unfold expand. mcbv. by rewrite H, Hr. Qed.

Lemma expand_idle i w p h :
  panes w !! i = Some p → isRunning p = false →
  layout w i (target (displayBlock p)) = h →
  expand i w = Ok tt
    (mkWorld (options w) (layout w) (<[i := expandStart p]> (panes w)) (current w)
       (pending w ++ [mkAnimation (expandArgs (options w) h) i ThenOpened])
       (trace w ++ expandTrace (options w) i h (<[i := expandStart p]> (panes w)))).
Proof.
  intros H Hr Hl. with_world w. unfold expand. mcbv. rewrite H, Hr.
  rewrite list_lookup_alter_eq, H. mcbv.
  unfold displayBlock in Hl. rewrite Hl.
  world_norm H. reflexivity.
Qed.

Lemma collapse_missing i w :
  panes w !! i = None → collapse i w = Throw TypeError w.
Proof. intros H. with_world w. unfold collapse. mcbv. by rewrite H. Qed.

Lemma collapse_busy i w p :
  panes w !! i = Some p → isRunning p = true → collapse i w = Ok tt w.
Proof. intros H Hr. with_world w. unfold collapse. mcbv. by rewrite H, Hr. Qed.

Lemma collapse_idle i w p h :
  panes w !! i = Some p → isRunning p = false →
  layout w i (target p) = h →
  collapse i w = Ok tt
    (mkWorld (options w) (layout w) (<[i := collapseStart h p]> (panes w)) (current w)
       (pending w ++ [mkAnimation (collapseArgs (options w) h) i ThenClosed])
       (trace w ++ collapseTrace (options w) i h
          (<[i := pane_el_map Target (el_style_set WillChange (css_str "height"))
                    (pane_el_map Target (el_style_set Height (css_px h))
                       (set_open false p))]> (panes w)))).
Proof.
  intros H Hr Hl. with_world w. unfold collapse. mcbv. rewrite H, Hr.
  rewrite list_lookup_alter_eq, H. mcbv.
  change (target (set_open false p)) with (target p). rewrite Hl.
  world_norm H. reflexivity.
Qed.

Lemma thenOpened_pane i w p :
  panes w !! i = Some p →
  thenOpened i w = Ok tt
    (mkWorld (options w) (layout w) (<[i := openedPane (options w) p]> (panes w))
       (current w) (pending w)
       (trace w ++ openedTrace (options w) i (open p)
                     (<[i := openedPane (options w) p]> (panes w)))).
Proof.
  intros H. with_world w. unfold thenOpened, onEnd. mcbv. rewrite H.
  world_norm H. reflexivity.
Qed.

Lemma thenClosed_pane i w p :
  panes w !! i = Some p →
  thenClosed i w = Ok tt
    (mkWorld (options w) (layout w) (<[i := closedPane (options w) p]> (panes w))
       (current w) (pending w)
       (trace w ++ closedTrace (options w) i (open p)
                     (<[i := closedPane (options w) p]> (panes w)))).
Proof.
  intros H. with_world w. unfold thenClosed, onEnd. mcbv. rewrite H.
  world_norm H. reflexivity.
Qed.

Lemma onEnd_pane i w p :
  panes w !! i = Some p →
  onEnd i w = Ok tt
    (mkWorld (options w) (layout w) (<[i := onEndPane p]> (panes w))
       (current w) (pending w) (trace w ++ onEndTrace i (open p))).
Proof.
  intros H. with_world w. unfold onEnd. mcbv. rewrite H.
  world_norm H. reflexivity.
Qed.

Lemma arrayIndex_pretty i n : (i < n)%nat → arrayIndex (pretty i) n = Some i.
Proof.
  intros Hlt. unfold arrayIndex.
  assert (list_find (fun k => pretty k = pretty i) (seq 0 n) = Some (i, i)) as ->;
    [|done].
  apply list_find_Some. split_and!; [apply lookup_seq; lia|done|].
  intros j y Hj Hji Heq. apply lookup_seq in Hj as [-> _].
  apply (inj pretty) in Heq. cbn in Heq. lia.
Qed.

(** A click on a button that carries [data-accordion-btn] and the
    [data-accordion-index] written by [createPanels]. *)
Lemma clickHandle_eq i w p v :
  panes w !! i = Some p →
  attributes (button p) !! "data-accordion-btn" = Some v →
  attributes (button p) !! "data-accordion-index" = Some (pretty i) →
  clickHandle i w =
  (o ← getOptions; item ← getPane i; s ← machine_click item;
   modPane i (set_state s);; closeOther i;; dispatch i) w.
Proof.
  intros Hi Hb Hidx.
  assert (i < length (panes w))%nat as Hlt by by eapply lookup_lt_Some.
  with_world w. unfold clickHandle, closestButton, getItem, closeOther, dispatch.
  mcbv. rewrite Hi, Hb.
  rewrite bool_decide_eq_true_2 by by eexists.
  rewrite Hidx, (arrayIndex_pretty _ _ Hlt), Hi.
  destruct (machine p !! state p); mcbv; reflexivity.
Qed.

Lemma clickHandle_missing i w :
  panes w !! i = None → clickHandle i w = Throw TypeError w.
Proof.
  intros Hi. with_world w. unfold clickHandle, closestButton. mcbv.
  by rewrite Hi.
Qed.

(** A click on a button without [data-accordion-btn] throws before
    anything is written. *)
Lemma clickHandle_unrecognised i w p :
  panes w !! i = Some p →
  attributes (button p) !! "data-accordion-btn" = None →
  clickHandle i w = Throw TypeError w.
Proof.
  intros Hi Hb. with_world w. unfold clickHandle, closestButton. mcbv.
  rewrite Hi, Hb. rewrite bool_decide_eq_false_2; [done|].
  by intros [? ?].
Qed.

(** ** Preservation of the invariants *)

Lemma pane_ok_expandStart i p : pane_ok i p → pane_ok i (expandStart p).
Proof. intros (?&?&?&Ha). split_and!; [done|done|done|exact Ha]. Qed.

Lemma pane_ok_displayBlock i p : pane_ok i p → pane_ok i (displayBlock p).
Proof. intros (?&?&?&Ha). split_and!; [done|done|done|exact Ha]. Qed.

Lemma pane_ok_collapseStart i h p : pane_ok i p → pane_ok i (collapseStart h p).
Proof. intros (?&?&?&Ha). split_and!; [done|done|done|exact Ha]. Qed.

Lemma pane_ok_set_open i b p : pane_ok i p → pane_ok i (set_open b p).
Proof. intros (?&?&?&Ha). split_and!; [done|done|done|exact Ha]. Qed.

Lemma pane_ok_set_state i s p :
  s = "open" ∨ s = "close" → pane_ok i p → pane_ok i (set_state s p).
Proof. intros Hs (?&?&?&Ha). split_and!; [done|done|exact Hs|exact Ha]. Qed.

Lemma pane_ok_el_map i f p : pane_ok i p → pane_ok i (pane_el_map Target f p).
Proof. intros (?&?&?&Ha). split_and!; [done|done|done|exact Ha]. Qed.

Lemma onEndPane_index p :
  attributes (button (onEndPane p)) !! "data-accordion-index" =
  attributes (button p) !! "data-accordion-index".
Proof.
  unfold onEndPane, pane_el_map, setAttribute.
  cbn [button target attributes open set_isRunning].
  by rewrite !lookup_insert_ne by discriminate.
Qed.

Lemma pane_ok_openedPane i o p : pane_ok i p → pane_ok i (openedPane o p).
Proof.
  intros (?&?&?&Ha). split_and!; [done|done|done|].
  change (attributes (button (openedPane o p)))
    with (attributes (button (onEndPane p))).
  by rewrite onEndPane_index.
Qed.

Lemma pane_ok_closedPane i o p : pane_ok i p → pane_ok i (closedPane o p).
Proof.
  intros (?&?&?&Ha). split_and!; [done|done|done|].
  change (attributes (button (closedPane o p)))
    with (attributes (button (onEndPane p))).
  by rewrite onEndPane_index.
Qed.

Lemma filter_pane_all i (l : list Animation) :
  Forall (fun a => an_pane a = i) l →
  filter (fun a => an_pane a = i) l = l.
Proof.
  induction 1 as [|a l Ha _ IH]; [done|].
  rewrite filter_cons_True by done. by rewrite IH.
Qed.

Lemma filter_pane_none i j (l : list Animation) :
  i ≠ j → Forall (fun a => an_pane a = i) l →
  filter (fun a => an_pane a = j) l = [].
Proof.
  intros Hij. induction 1 as [|a l Ha _ IH]; [done|].
  rewrite filter_cons_False by congruence. done.
Qed.

Lemma filter_delete_length {A} (P : A → Prop) `{!∀ x, Decision (P x)}
    (l : list A) k a :
  l !! k = Some a →
  length (filter P l) =
  length (filter P (delete k l)) + (if decide (P a) then 1 else 0).
Proof.
  revert k. induction l as [|x l IH]; intros [|k] Hk; simplify_eq/=.
  - rewrite filter_cons. destruct (decide (P a)); simpl; lia.
  - rewrite !filter_cons. specialize (IH _ Hk).
    destruct (decide (P x)); simpl; lia.
Qed.

Lemma wf_update w i p p' l t :
  wf w → panes w !! i = Some p → pane_ok i p' →
  Forall (fun a => an_pane a = i) l →
  (length l + (if isRunning p then 1 else 0) = if isRunning p' then 1 else 0)%nat →
  Forall (event_ok (length (panes w))) t →
  wf (mkWorld (options w) (layout w) (<[i := p']> (panes w)) (current w)
        (pending w ++ l) (trace w ++ t)).
Proof.
  intros [Hp Hc Hr Hq Ht] Hi Hok Hl Hn Hev.
  assert (i < length (panes w))%nat as Hlt by by eapply lookup_lt_Some.
  split; cbn; rewrite ?length_insert; try done.
  - intros j q Hj. destruct (decide (i = j)) as [->|Hne].
    + rewrite list_lookup_insert_eq in Hj by done. by simplify_eq.
    + rewrite list_lookup_insert_ne in Hj by done. eauto.
  - intros j q Hj. unfold animationsOn. cbn. rewrite filter_app, length_app.
    destruct (decide (i = j)) as [->|Hne].
    + rewrite list_lookup_insert_eq in Hj by done. simplify_eq.
      rewrite (filter_pane_all j l) by done.
      specialize (Hr _ _ Hi). unfold animationsOn in Hr. lia.
    + rewrite list_lookup_insert_ne in Hj by done.
      rewrite (filter_pane_none i j l) by done.
      specialize (Hr _ _ Hj). unfold animationsOn in Hr. simpl. lia.
  - apply Forall_app. split; [done|].
    eapply Forall_impl; [exact Hl|]. intros a ->. done.
  - apply Forall_app. by split.
Qed.

Lemma wf_same_pending w i p p' t :
  wf w → panes w !! i = Some p → pane_ok i p' →
  isRunning p' = isRunning p →
  Forall (event_ok (length (panes w))) t →
  wf (mkWorld (options w) (layout w) (<[i := p']> (panes w)) (current w)
        (pending w) (trace w ++ t)).
Proof.
  intros Hw Hi Hok Hr Ht.
  rewrite <- (app_nil_r (pending w)).
  eapply wf_update; eauto. rewrite Hr. done.
Qed.

Lemma wf_resolved w k a p p' t :
  wf w → pending w !! k = Some a → panes w !! an_pane a = Some p →
  pane_ok (an_pane a) p' → isRunning p' = false →
  Forall (event_ok (length (panes w))) t →
  wf (mkWorld (options w) (layout w) (<[an_pane a := p']> (panes w)) (current w)
        (delete k (pending w)) (trace w ++ t)).
Proof.
  intros [Hp Hc Hr Hq Ht] Hk Hi Hok Hrun Hev.
  assert (an_pane a < length (panes w))%nat as Hlt by by eapply lookup_lt_Some.
  split; cbn; rewrite ?length_insert; try done.
  - intros j q Hj. destruct (decide (an_pane a = j)) as [<-|Hne].
    + rewrite list_lookup_insert_eq in Hj by done. by simplify_eq.
    + rewrite list_lookup_insert_ne in Hj by done. eauto.
  - intros j q Hj. unfold animationsOn. cbn.
    pose proof (filter_delete_length (fun b => an_pane b = j) _ _ _ Hk) as Hd.
    destruct (decide (an_pane a = j)) as [<-|Hne].
    + rewrite list_lookup_insert_eq in Hj by done. simplify_eq.
      specialize (Hr _ _ Hi). unfold animationsOn in Hr.
      rewrite Hrun. destruct (isRunning p); lia.
    + rewrite list_lookup_insert_ne in Hj by done.
      specialize (Hr _ _ Hj). unfold animationsOn in Hr. lia.
  - rewrite delete_take_drop. apply Forall_app. split.
    + by apply Forall_take.
    + by apply Forall_drop.
  - apply Forall_app. by split.
Qed.

Lemma wf_set_state w i s :
  wf w → s = "open" ∨ s = "close" →
  wf (with_panes (alter (set_state s) i) w).
Proof.
  intros Hw Hs. destruct (panes w !! i) as [p|] eqn:Hi.
  - unfold with_panes. rewrite (alter_lookup _ _ _ _ Hi).
    rewrite <- (app_nil_r (trace w)).
    apply wf_same_pending with (p := p); try done.
    by apply pane_ok_set_state, (wf_pane _ Hw).
  - assert (alter (set_state s) i (panes w) = panes w) as Heq.
    { apply list_eq. intros j. destruct (decide (i = j)) as [->|].
      - by rewrite list_lookup_alter_eq, Hi.
      - by rewrite list_lookup_alter_ne. }
    unfold with_panes. rewrite Heq. by destruct w.
Qed.

Lemma wf_with_current w c :
  wf w → (c < length (panes w))%nat → wf (with_current (Some c) w).
Proof.
  intros [Hp Hc Hr Hq Ht] Hlt. split; cbn; try done.
  intros ? [= <-]. done.
Qed.

Lemma event_ok_emit (n : nat) nm i (ps : list Pane) :
  nm ∈ eventNames → (i < n)%nat → length ps = n →
  event_ok n (Emit nm (mkPayload i i ps)).
Proof. intros. by repeat split. Qed.

Ltac event_names := unfold eventNames; set_solver.

Ltac events_ok :=
  unfold expandTrace, collapseTrace, openedTrace, closedTrace, onEndTrace;
  cbn [app];
  repeat first [apply Forall_nil_2 | apply Forall_cons_2];
  try exact I;
  try (apply event_ok_emit; [event_names|done|by rewrite length_insert]).

Lemma event_ok_expandTrace (w : World) i h p' :
  (i < length (panes w))%nat →
  Forall (event_ok (length (panes w)))
    (expandTrace (options w) i h (<[i := p']> (panes w))).
Proof. intros. events_ok. Qed.

Lemma event_ok_collapseTrace (w : World) i h p' :
  (i < length (panes w))%nat →
  Forall (event_ok (length (panes w)))
    (collapseTrace (options w) i h (<[i := p']> (panes w))).
Proof. intros. events_ok. Qed.

Lemma event_ok_openedTrace (w : World) i op p' :
  (i < length (panes w))%nat →
  Forall (event_ok (length (panes w)))
    (openedTrace (options w) i op (<[i := p']> (panes w))).
Proof. intros. events_ok. Qed.

Lemma event_ok_closedTrace (w : World) i op p' :
  (i < length (panes w))%nat →
  Forall (event_ok (length (panes w)))
    (closedTrace (options w) i op (<[i := p']> (panes w))).
Proof. intros. events_ok. Qed.

Lemma wf_expand i w : wf w → wf (res_world (expand i w)).
Proof.
  intros Hw. destruct (panes w !! i) as [p|] eqn:Hi.
  2: { by rewrite expand_missing. }
  assert (i < length (panes w))%nat as Hlt by by eapply lookup_lt_Some.
  pose proof (wf_pane _ Hw _ _ Hi) as Hok.
  destruct (isRunning p) eqn:Hr.
  { by rewrite (expand_busy _ _ _ Hi Hr). }
  rewrite (expand_idle _ _ _ _ Hi Hr eq_refl). cbn [res_world].
  eapply wf_update;
    [exact Hw|exact Hi|by apply pane_ok_expandStart|by repeat constructor
    |by rewrite Hr|by apply event_ok_expandTrace].
Qed.

Lemma wf_collapse i w : wf w → wf (res_world (collapse i w)).
Proof.
  intros Hw. destruct (panes w !! i) as [p|] eqn:Hi.
  2: { by rewrite collapse_missing. }
  assert (i < length (panes w))%nat as Hlt by by eapply lookup_lt_Some.
  pose proof (wf_pane _ Hw _ _ Hi) as Hok.
  destruct (isRunning p) eqn:Hr.
  { by rewrite (collapse_busy _ _ _ Hi Hr). }
  rewrite (collapse_idle _ _ _ _ Hi Hr eq_refl). cbn [res_world].
  eapply wf_update;
    [exact Hw|exact Hi|by apply pane_ok_collapseStart|by repeat constructor
    |by rewrite Hr|by apply event_ok_collapseTrace].
Qed.

Lemma frame_pane k v w a p :
  pending w !! k = Some a → panes w !! an_pane a = Some p →
  frame k v w = Ok tt
    (mkWorld (options w) (layout w)
       (<[an_pane a := pane_el_map Target (el_style_set Height (css_px v)) p]> (panes w))
       (current w) (pending w)
       (trace w ++ [SetStyle (an_pane a) Height (css_px v)])).
Proof.
  intros Hk Hi. with_world w. unfold frame. cbn [pending]. rewrite Hk. mcbv.
  world_norm Hi. reflexivity.
Qed.

Lemma frame_none k v w : pending w !! k = None → frame k v w = Ok tt w.
Proof. intros Hk. unfold frame. by rewrite Hk. Qed.

Lemma resolve_none k w : pending w !! k = None → resolve k w = Ok tt w.
Proof. intros Hk. unfold resolve. by rewrite Hk. Qed.

Lemma resolve_opened k w a p :
  pending w !! k = Some a → an_then a = ThenOpened →
  panes w !! an_pane a = Some p →
  resolve k w = Ok tt
    (mkWorld (options w) (layout w)
       (<[an_pane a := openedPane (options w) p]> (panes w)) (current w)
       (delete k (pending w))
       (trace w ++ openedTrace (options w) (an_pane a) (open p)
                     (<[an_pane a := openedPane (options w) p]> (panes w)))).
Proof.
  intros Hk Ht Hi. unfold resolve. rewrite Hk, Ht.
  by rewrite (thenOpened_pane _ _ p).
Qed.

Lemma resolve_closed k w a p :
  pending w !! k = Some a → an_then a = ThenClosed →
  panes w !! an_pane a = Some p →
  resolve k w = Ok tt
    (mkWorld (options w) (layout w)
       (<[an_pane a := closedPane (options w) p]> (panes w)) (current w)
       (delete k (pending w))
       (trace w ++ closedTrace (options w) (an_pane a) (open p)
                     (<[an_pane a := closedPane (options w) p]> (panes w)))).
Proof.
  intros Hk Ht Hi. unfold resolve. rewrite Hk, Ht.
  by rewrite (thenClosed_pane _ _ p).
Qed.

Lemma pending_pane w k a :
  wf w → pending w !! k = Some a → ∃ p, panes w !! an_pane a = Some p.
Proof.
  intros Hw Hk. apply lookup_lt_is_Some.
  pose proof (wf_pending _ Hw) as Hq.
  rewrite Forall_lookup in Hq. by eapply Hq.
Qed.

Lemma wf_frame k v w : wf w → wf (res_world (frame k v w)).
Proof.
  intros Hw. destruct (pending w !! k) as [a|] eqn:Hk.
  2: { by rewrite frame_none. }
  destruct (pending_pane _ _ _ Hw Hk) as [p Hi].
  rewrite (frame_pane _ _ _ _ _ Hk Hi). cbn [res_world].
  eapply wf_same_pending; [exact Hw|exact Hi| |done|].
  - apply pane_ok_el_map. by eapply wf_pane.
  - events_ok.
Qed.

Lemma wf_resolve k w : wf w → wf (res_world (resolve k w)).
Proof.
  intros Hw. destruct (pending w !! k) as [a|] eqn:Hk.
  2: { by rewrite resolve_none. }
  destruct (pending_pane _ _ _ Hw Hk) as [p Hi].
  assert (an_pane a < length (panes w))%nat as Hlt by by eapply lookup_lt_Some.
  pose proof (wf_pane _ Hw _ _ Hi) as Hok.
  destruct (an_then a) eqn:Ht.
  - rewrite (resolve_opened _ _ _ _ Hk Ht Hi). cbn [res_world].
    eapply wf_resolved;
      [exact Hw|exact Hk|exact Hi|by apply pane_ok_openedPane|done
      |by apply event_ok_openedTrace].
  - rewrite (resolve_closed _ _ _ _ Hk Ht Hi). cbn [res_world].
    eapply wf_resolved;
      [exact Hw|exact Hk|exact Hi|by apply pane_ok_closedPane|done
      |by apply event_ok_closedTrace].
Qed.

(** ** What a method leaves alone *)

Lemma keeps_states_refl w : keeps_states w w.
Proof. repeat split; eauto. Qed.

Lemma keeps_states_trans w1 w2 w3 :
  keeps_states w1 w2 → keeps_states w2 w3 → keeps_states w1 w3.
Proof.
  intros (?&?&?&?&Ha) (?&?&?&?&Hb). repeat split; try congruence.
  intros j p Hj. destruct (Ha _ _ Hj) as (p'&Hj'&?).
  destruct (Hb _ _ Hj') as (p''&?&?). exists p''. split; [done|congruence].
Qed.

Lemma untouched_refl i w : untouched i w w.
Proof.
  split; [done|]. split; exists []; by rewrite app_nil_r.
Qed.

Lemma untouched_trans i w1 w2 w3 :
  untouched i w1 w2 → untouched i w2 w3 → untouched i w1 w3.
Proof.
  intros (?&(l1&?&?)&(t1&?&?)) (?&(l2&?&?)&(t2&?&?)).
  split; [congruence|]. split.
  - exists (l1 ++ l2). split; [|by apply Forall_app].
    rewrite app_assoc. congruence.
  - exists (t1 ++ t2). split; [|by apply Forall_app].
    rewrite app_assoc. congruence.
Qed.

Lemma keeps_states_insert w j p p' pend tr :
  panes w !! j = Some p → state p' = state p →
  keeps_states w
    (mkWorld (options w) (layout w) (<[j := p']> (panes w)) (current w) pend tr).
Proof.
  intros Hj Hs. repeat split; cbn; try done.
  { by rewrite length_insert. }
  intros k q Hk. destruct (decide (j = k)) as [->|Hne].
  - exists p'. rewrite list_lookup_insert_eq by by eapply lookup_lt_Some.
    split; [done|]. congruence.
  - exists q. by rewrite list_lookup_insert_ne.
Qed.

Lemma untouched_insert i w j p' l t :
  i ≠ j →
  Forall (fun a => an_pane a = j) l → Forall (fun a => action_pane a = j) t →
  untouched i w
    (mkWorld (options w) (layout w) (<[j := p']> (panes w)) (current w)
       (pending w ++ l) (trace w ++ t)).
Proof.
  intros Hne Hl Ht. split; cbn.
  { by rewrite list_lookup_insert_ne. }
  split.
  - exists l. split; [done|]. eapply Forall_impl; [exact Hl|]. cbn. congruence.
  - exists t. split; [done|]. eapply Forall_impl; [exact Ht|]. cbn. congruence.
Qed.

Lemma untouched_insert_nil i w j p' t :
  i ≠ j → Forall (fun a => action_pane a = j) t →
  untouched i w
    (mkWorld (options w) (layout w) (<[j := p']> (panes w)) (current w)
       (pending w) (trace w ++ t)).
Proof.
  intros Hne Ht. rewrite <- (app_nil_r (pending w)).
  by apply untouched_insert.
Qed.

Lemma expand_keeps j w : keeps_states w (res_world (expand j w)).
Proof.
  destruct (panes w !! j) as [p|] eqn:Hj.
  2: { rewrite expand_missing by done. apply keeps_states_refl. }
  destruct (isRunning p) eqn:Hr.
  { rewrite (expand_busy _ _ _ Hj Hr). apply keeps_states_refl. }
  rewrite (expand_idle _ _ _ _ Hj Hr eq_refl). by eapply keeps_states_insert.
Qed.

Lemma collapse_keeps j w : keeps_states w (res_world (collapse j w)).
Proof.
  destruct (panes w !! j) as [p|] eqn:Hj.
  2: { rewrite collapse_missing by done. apply keeps_states_refl. }
  destruct (isRunning p) eqn:Hr.
  { rewrite (collapse_busy _ _ _ Hj Hr). apply keeps_states_refl. }
  rewrite (collapse_idle _ _ _ _ Hj Hr eq_refl). by eapply keeps_states_insert.
Qed.

Lemma expand_untouched i j w : i ≠ j → untouched i w (res_world (expand j w)).
Proof.
  intros Hne. destruct (panes w !! j) as [p|] eqn:Hj.
  2: { rewrite expand_missing by done. apply untouched_refl. }
  destruct (isRunning p) eqn:Hr.
  { rewrite (expand_busy _ _ _ Hj Hr). apply untouched_refl. }
  rewrite (expand_idle _ _ _ _ Hj Hr eq_refl).
  apply untouched_insert; [done| |]; by repeat constructor.
Qed.

Lemma collapse_untouched i j w : i ≠ j → untouched i w (res_world (collapse j w)).
Proof.
  intros Hne. destruct (panes w !! j) as [p|] eqn:Hj.
  2: { rewrite collapse_missing by done. apply untouched_refl. }
  destruct (isRunning p) eqn:Hr.
  { rewrite (collapse_busy _ _ _ Hj Hr). apply untouched_refl. }
  rewrite (collapse_idle _ _ _ _ Hj Hr eq_refl).
  apply untouched_insert; [done| |]; by repeat constructor.
Qed.

Lemma frame_keeps k v w : wf w → keeps_states w (res_world (frame k v w)).
Proof.
  intros Hw. destruct (pending w !! k) as [a|] eqn:Hk.
  2: { rewrite frame_none by done. apply keeps_states_refl. }
  destruct (pending_pane _ _ _ Hw Hk) as [p Hi].
  rewrite (frame_pane _ _ _ _ _ Hk Hi). by eapply keeps_states_insert.
Qed.

Lemma resolve_keeps k w : wf w → keeps_states w (res_world (resolve k w)).
Proof.
  intros Hw. destruct (pending w !! k) as [a|] eqn:Hk.
  2: { rewrite resolve_none by done. apply keeps_states_refl. }
  destruct (pending_pane _ _ _ Hw Hk) as [p Hi].
  destruct (an_then a) eqn:Ht.
  - rewrite (resolve_opened _ _ _ _ Hk Ht Hi). by eapply keeps_states_insert.
  - rewrite (resolve_closed _ _ _ _ Hk Ht Hi). by eapply keeps_states_insert.
Qed.

(** ** The state machine *)

Lemma machine_open : machine_table !! "open" = Some (mkTransitions "close").
Proof. reflexivity. Qed.

Lemma machine_close : machine_table !! "close" = Some (mkTransitions "open").
Proof. reflexivity. Qed.

Lemma machine_valid s :
  s = "open" ∨ s = "close" →
  ∃ t, machine_table !! s = Some t ∧ (CLICK t = "open" ∨ CLICK t = "close") ∧
       CLICK t ≠ s ∧ clicks 1 s = Some (CLICK t).
Proof.
  intros [-> | ->]; eexists; (split; [reflexivity|]); cbn; split_and!; auto.
Qed.

Lemma clicks_valid n s :
  s = "open" ∨ s = "close" →
  ∃ s', clicks n s = Some s' ∧ (s' = "open" ∨ s' = "close").
Proof.
  revert s. induction n as [|n IH]; intros s Hs; [by exists s|].
  destruct (machine_valid s Hs) as (t&Ht&Hv&_&_).
  cbn. rewrite Ht. cbn. by apply IH.
Qed.

Lemma clicks_S n s t :
  machine_table !! s = Some t → clicks (S n) s = clicks n (CLICK t).
Proof. intros H. cbn. by rewrite H. Qed.

(** ** The click handler *)

Lemma res_world_bind {A B} (m : M A) (f : A → M B) w :
  res_world ((m ≫= f) w) =
  match m w with
  | Ok a w' => res_world (f a w')
  | Throw _ w' => w'
  end.
Proof. unfold mbind, M_bind. by destruct (m w). Qed.

Lemma set_state_lookup w i p s :
  panes w !! i = Some p →
  panes (with_panes (alter (set_state s) i) w) !! i = Some (set_state s p).
Proof. intros H. cbn. by rewrite list_lookup_alter_eq, H. Qed.

Lemma set_state_lookup_ne w i j s :
  i ≠ j →
  panes (with_panes (alter (set_state s) i) w) !! j = panes w !! j.
Proof. intros H. cbn. by rewrite list_lookup_alter_ne. Qed.

Lemma closeOther_off i w :
  closeOthers (options w) = false → closeOther i w = Ok tt w.
Proof. intros H. with_world w. unfold closeOther. mcbv. by rewrite H. Qed.

Lemma closeOther_cases i w :
  wf w →
  closeOther i w = Ok tt w ∨
  ∃ c cp t,
    closeOthers (options w) = true ∧ current w = Some c ∧ c ≠ i ∧
    panes w !! c = Some cp ∧ machine_table !! state cp = Some t ∧
    closeOther i w = collapse c (with_panes (alter (set_state (CLICK t)) c) w).
Proof.
  intros Hw.
  destruct (closeOthers (options w)) eqn:Hco.
  2: { left. by apply closeOther_off. }
  destruct (current w) as [c|] eqn:Hc.
  2: { left. with_world w. unfold closeOther. mcbv. by rewrite Hco, Hc. }
  destruct (lookup_lt_is_Some_2 (panes w) c) as [cp Hcp].
  { by eapply wf_current. }
  destruct (wf_pane _ Hw _ _ Hcp) as (Hidx&Hm&Hs&Hdai).
  destruct (machine_valid _ Hs) as (t&Ht&_).
  destruct (decide (c = i)) as [->|Hne].
  { left. with_world w. unfold closeOther. mcbv.
    rewrite Hco, Hc, Hcp, Hidx, Nat.eqb_refl. done. }
  right. exists c, cp, t. split_and!; try done.
  with_world w. unfold closeOther. mcbv.
  rewrite Hco, Hc, Hcp, Hidx. destruct (Nat.eqb_spec c i) as [|_]; [done|].
  by rewrite Hm, Ht.
Qed.

Lemma wf_closeOther i w : wf w → wf (res_world (closeOther i w)).
Proof.
  intros Hw. destruct (closeOther_cases i w Hw) as [->|(c&cp&t&_&_&_&Hcp&Ht&->)];
    [done|].
  apply wf_collapse, wf_set_state; [done|].
  destruct (wf_pane _ Hw _ _ Hcp) as (_&_&Hs&Hdai).
  destruct (machine_valid _ Hs) as (t'&Ht'&Hv&_). by simplify_eq.
Qed.

Lemma closeOther_untouched i w :
  wf w → untouched i w (res_world (closeOther i w)).
Proof.
  intros Hw. destruct (closeOther_cases i w Hw) as [->|(c&cp&t&_&_&Hne&Hcp&Ht&->)];
    [apply untouched_refl|].
  eapply untouched_trans; [|by apply collapse_untouched].
  split; [by apply set_state_lookup_ne|].
  split; exists []; by rewrite app_nil_r.
Qed.

Lemma closeOther_length i w :
  wf w → length (panes (res_world (closeOther i w))) = length (panes w).
Proof.
  intros Hw. destruct (closeOther_cases i w Hw) as [->|(c&cp&t&_&_&Hne&Hcp&Ht&->)];
    [done|].
  destruct (collapse_keeps c (with_panes (alter (set_state (CLICK t)) c) w))
    as (_&_&_&->&_).
  cbn. by rewrite length_alter.
Qed.

Lemma dispatch_eq i w p :
  panes w !! i = Some p →
  dispatch i w =
  match (if String.eqb (state p) "open" then expand i else collapse i) w with
  | Ok _ w3 => Ok tt (with_current (Some i) w3)
  | Throw e w3 => Throw e w3
  end.
Proof.
  intros Hi. unfold dispatch, mbind, M_bind, getPane, setCurrent.
  by rewrite Hi.
Qed.

Lemma dispatch_world i w p :
  panes w !! i = Some p →
  let w3 := res_world ((if String.eqb (state p) "open" then expand i else collapse i) w) in
  res_world (dispatch i w) = w3 ∨ res_world (dispatch i w) = with_current (Some i) w3.
Proof.
  intros Hi. cbv zeta. rewrite (dispatch_eq i w p Hi).
  destruct ((if String.eqb (state p) "open" then expand i else collapse i) w)
    as [[] w3|e w3]; cbn [res_world]; [by right|by left].
Qed.

Lemma clickHandle_shape i w p v t :
  panes w !! i = Some p →
  attributes (button p) !! "data-accordion-btn" = Some v →
  attributes (button p) !! "data-accordion-index" = Some (pretty i) →
  machine p !! state p = Some t →
  clickHandle i w =
  (closeOther i ≫= fun _ => dispatch i)
    (with_panes (alter (set_state (CLICK t)) i) w).
Proof.
  intros Hi Hb Hidx Ht. rewrite (clickHandle_eq i w p v Hi Hb Hidx).
  unfold mbind at 1 2 3 4, M_bind at 1 2 3 4.
  unfold getOptions, getPane at 1, machine_click, modPane. by rewrite Hi, Ht.
Qed.

(** The worlds a click on a recognised button passes through: the
    clicked pane's state is advanced ([w1]), the other pane is closed
    ([w2]), the clicked pane is expanded or collapsed ([w3]), and
    [current] is set. *)
Lemma click_world i w p v :
  wf w → panes w !! i = Some p →
  attributes (button p) !! "data-accordion-btn" = Some v →
  ∃ t w2 w3,
    machine_table !! state p = Some t ∧
    w2 = res_world (closeOther i (with_panes (alter (set_state (CLICK t)) i) w)) ∧
    panes w2 !! i = Some (set_state (CLICK t) p) ∧
    (w3 = w2 ∨
     w3 = res_world ((if String.eqb (CLICK t) "open" then expand i else collapse i) w2)) ∧
    (res_world (clickHandle i w) = w3 ∨
     res_world (clickHandle i w) = with_current (Some i) w3).
Proof.
  intros Hw Hi Hb. destruct (wf_pane _ Hw _ _ Hi) as (_&Hm&Hs&Hdai).
  destruct (machine_valid _ Hs) as (t&Ht&Hv&_).
  pose (w1 := with_panes (alter (set_state (CLICK t)) i) w).
  assert (wf w1) as Hw1 by by apply wf_set_state.
  assert (panes (res_world (closeOther i w1)) !! i = Some (set_state (CLICK t) p))
    as Hi2.
  { destruct (closeOther_untouched i w1 Hw1) as (Heq&_). rewrite Heq.
    by apply set_state_lookup. }
  exists t, (res_world (closeOther i w1)).
  assert (clickHandle i w = (closeOther i ≫= fun _ => dispatch i) w1) as ->.
  { apply (clickHandle_shape i w p v t); [done|done|done|by rewrite Hm]. }
  rewrite res_world_bind.
  destruct (closeOther i w1) as [[] w2|e w2] eqn:Hco; cbn [res_world] in *.
  - exists (res_world ((if String.eqb (CLICK t) "open" then expand i else collapse i) w2)).
    split_and!; [done|by (unfold w1 in Hco; rewrite Hco)|done|by right|].
    destruct (dispatch_world i w2 _ Hi2) as [H|H]; rewrite H; auto.
  - exists w2. split_and!; [done|by (unfold w1 in Hco; rewrite Hco)|done|by left|by left].
Qed.

Lemma wf_clickHandle i w : wf w → wf (res_world (clickHandle i w)).
Proof.
  intros Hw. destruct (panes w !! i) as [p|] eqn:Hi.
  2: { by rewrite clickHandle_missing. }
  destruct (attributes (button p) !! "data-accordion-btn") as [v|] eqn:Hb.
  2: { by rewrite (clickHandle_unrecognised _ _ _ Hi Hb). }
  destruct (click_world i w p v Hw Hi Hb) as (t&w2&w3&Ht&Hw2&Hi2&Hw3&Hres).
  destruct (wf_pane _ Hw _ _ Hi) as (_&_&Hs&Hdai).
  destruct (machine_valid _ Hs) as (t'&Ht'&Hv&_).
  assert (t' = t) as -> by congruence.
  assert (wf w2) as Hwf2.
  { subst w2. by apply wf_closeOther, wf_set_state. }
  assert (wf w3 ∧ length (panes w3) = length (panes w2)) as [Hwf3 Hlen].
  { destruct Hw3 as [->| ->]; [done|]. destruct (String.eqb _ _).
    - split; [by apply wf_expand|].
      by destruct (expand_keeps i w2) as (_&_&_&?&_).
    - split; [by apply wf_collapse|].
      by destruct (collapse_keeps i w2) as (_&_&_&?&_). }
  destruct Hres as [->| ->]; [done|].
  apply wf_with_current; [done|]. rewrite Hlen. by eapply lookup_lt_Some.
Qed.

Create HintDb expander discriminated.

#[local] Hint Resolve wf_clickHandle wf_expand wf_collapse wf_frame
  wf_resolve : expander.

Lemma wf_step x w : wf w → wf (res_world (step x w)).
Proof. destruct x; cbn [step]; auto with expander. Qed.

Lemma run_snoc ins x w : run (ins ++ [x]) w = res_world (step x (run ins w)).
Proof. unfold run. by rewrite foldl_app. Qed.

Lemma run_app ins1 ins2 w : run (ins1 ++ ins2) w = run ins2 (run ins1 w).
Proof. unfold run. by rewrite foldl_app. Qed.

Lemma wf_run ins w : wf w → wf (run ins w).
Proof.
  revert w. induction ins as [|x ins IH]; intros w Hw; [done|].
  cbn. by apply IH, wf_step.
Qed.

Lemma createPanels_lookup o els i p :
  createPanels o els !! i = Some p →
  ∃ bt, els !! i = Some bt ∧ p = createPanel o i bt.
Proof.
  unfold createPanels. rewrite list_lookup_imap.
  destruct (els !! i) as [bt|]; [|done]. intros [= <-]. by exists bt.
Qed.

Lemma wf_constructor o lay els : wf (constructor o lay els).
Proof.
  unfold constructor. destruct (init o).
  - split; cbn; try done.
    + intros i p Hi. destruct (createPanels_lookup _ _ _ _ Hi) as (bt&_&->).
      split_and!; [done|done| |].
      * cbn. destruct (if optOpen o then _ else _); auto.
      * unfold createPanel. cbn [button].
        set (st := if optOpen o then true else _).
        assert (∀ e, attributes (if st then classList_add (buttonActiveClass o) e else e)
                     = attributes e) as -> by by destruct st.
        unfold setAttribute. cbn [attributes].
        do 3 (rewrite lookup_insert_ne by discriminate). apply lookup_insert_eq.
    + intros c. unfold initialCurrent. destruct (activeIndex o) as [a|]; [|done].
      case_bool_decide; [|done]. intros [= <-].
      unfold createPanels. by rewrite length_imap.
    + intros i p Hi. destruct (createPanels_lookup _ _ _ _ Hi) as (bt&_&->).
      done.
  - split; cbn; try done.
Qed.

Lemma reachable_wf w : reachable w → wf w.
Proof. intros (o&lay&els&ins&->). apply wf_run, wf_constructor. Qed.

Lemma reachable_step x w : reachable w → reachable (res_world (step x w)).
Proof.
  intros (o&lay&els&ins&->). exists o, lay, els, (ins ++ [x]).
  by rewrite run_snoc.
Qed.

Lemma reachable_run ins w : reachable w → reachable (run ins w).
Proof.
  intros (o&lay&els&ins0&->). exists o, lay, els, (ins0 ++ ins).
  by rewrite run_app.
Qed.

(** ** Invariants of the event loop

    A property of the world that the four methods, the write of [state]
    and the write of [current] preserve holds in every world the event
    loop reaches. *)

Section Invariant.
Variable I : World → Prop.
Hypothesis I_expand : ∀ i w, wf w → I w → I (res_world (expand i w)).
Hypothesis I_collapse : ∀ i w, wf w → I w → I (res_world (collapse i w)).
Hypothesis I_frame : ∀ k v w, wf w → I w → I (res_world (frame k v w)).
Hypothesis I_resolve : ∀ k w, wf w → I w → I (res_world (resolve k w)).
Hypothesis I_state :
  ∀ i s w, wf w → I w → I (with_panes (alter (set_state s) i) w).
Hypothesis I_current : ∀ c w, I w → I (with_current c w).

Lemma invariant_closeOther i w : wf w → I w → I (res_world (closeOther i w)).
Proof.
  intros Hw HI.
  destruct (closeOther_cases i w Hw) as [->|(c&cp&t&_&_&_&Hcp&Htc&->)]; [done|].
  destruct (wf_pane _ Hw _ _ Hcp) as (_&_&Hs&Hdai).
  destruct (machine_valid _ Hs) as (t'&Ht'&Hv&_).
  assert (t' = t) as -> by congruence.
  apply I_collapse; [by apply wf_set_state|by apply I_state].
Qed.

Lemma invariant_clickHandle i w : wf w → I w → I (res_world (clickHandle i w)).
Proof.
  intros Hw HI. destruct (panes w !! i) as [p|] eqn:Hi.
  2: { by rewrite clickHandle_missing. }
  destruct (attributes (button p) !! "data-accordion-btn") as [v|] eqn:Hb.
  2: { by rewrite (clickHandle_unrecognised _ _ _ Hi Hb). }
  destruct (click_world i w p v Hw Hi Hb) as (t&w2&w3&Hmt&Hw2&Hi2&Hw3&Hres).
  destruct (wf_pane _ Hw _ _ Hi) as (_&_&Hs&Hdai).
  destruct (machine_valid _ Hs) as (t'&Ht'&Hv&_).
  assert (t' = t) as -> by congruence.
  assert (wf (with_panes (alter (set_state (CLICK t)) i) w)) as Hw1
    by by apply wf_set_state.
  assert (wf w2) as Hwf2 by (rewrite Hw2; by apply wf_closeOther).
  assert (I w2) as HI2.
  { rewrite Hw2. apply invariant_closeOther; [done|by apply I_state]. }
  assert (I w3) as HI3.
  { destruct Hw3 as [->| ->]; [done|].
    destruct (String.eqb _ _); [by apply I_expand|by apply I_collapse]. }
  destruct Hres as [->| ->]; [done|]. by apply I_current.
Qed.

Lemma invariant_step x w : wf w → I w → I (res_world (step x w)).
Proof.
  intros Hw HI. destruct x; cbn [step]; auto using invariant_clickHandle.
Qed.

Lemma invariant_run ins w : wf w → I w → I (run ins w).
Proof.
  revert w. induction ins as [|x ins IH]; intros w Hw HI; [done|].
  change (run (x :: ins) w) with (run ins (res_world (step x w))).
  apply IH; [by apply wf_step|by apply invariant_step].
Qed.
End Invariant.

Lemma alter_missing {A} (f : A → A) (l : list A) i :
  l !! i = None → alter f i l = l.
Proof.
  intros Hi. apply list_eq. intros j. destruct (decide (i = j)) as [->|].
  - by rewrite list_lookup_alter_eq, Hi.
  - by rewrite list_lookup_alter_ne.
Qed.

Lemma set_state_world w i s :
  with_panes (alter (set_state s) i) w = w ∨
  ∃ p, panes w !! i = Some p ∧
       with_panes (alter (set_state s) i) w =
       mkWorld (options w) (layout w) (<[i := set_state s p]> (panes w))
         (current w) (pending w) (trace w).
Proof.
  destruct (panes w !! i) as [p|] eqn:Hi.
  - right. exists p. split; [done|]. unfold with_panes.
    by rewrite (alter_lookup _ _ _ _ Hi).
  - left. unfold with_panes. rewrite (alter_missing _ _ _ Hi). by destruct w.
Qed.

(** ** What the methods never write *)

Lemma unwritten_trans o p q r :
  unwritten o p q → unwritten o q r → unwritten o p r.
Proof.
  intros [(Hi&Hm&Hb&Ht) (Hcb&Hct&Hs&Hab&Hat)]
         [(Hi'&Hm'&Hb'&Ht') (Hcb'&Hct'&Hs'&Hab'&Hat')].
  split; split_and!; [congruence|congruence|..|congruence|auto|auto].
  - intros key H1 H2. rewrite Hb by done. by apply Hb'.
  - intros key H1. rewrite Ht by done. by apply Ht'.
  - intros c Hc. rewrite Hcb by done. by apply Hcb'.
  - intros c Hc. rewrite Hct by done. by apply Hct'.
Qed.

(** A write that leaves attributes, classes, [index], [machine] and the
    style of the button to conversion. *)
Ltac untouched_parts :=
  split; split_and!;
    [reflexivity|reflexivity|intros; reflexivity|intros; reflexivity
    |intros; reflexivity|intros; reflexivity|reflexivity
    |intros H; exact H|intros H; exact H].

Lemma unwritten_refl o p : unwritten o p p.
Proof. untouched_parts. Qed.

Lemma unwritten_onEndPane o p : unwritten o (onEndPane p) p.
Proof.
  split; split_and!;
    [reflexivity|reflexivity| | |intros; reflexivity|intros; reflexivity
    |reflexivity|intros H; exact H|intros H; exact H].
  - intros key H1 H2.
    change (attributes (button (onEndPane p)))
      with (<["aria-selected" := js_string_of_bool (open p)]>
              (<["aria-expanded" := js_string_of_bool (open p)]>
                 (attributes (button p)))).
    by rewrite !lookup_insert_ne.
  - intros key H1.
    change (attributes (target (onEndPane p)))
      with (<["aria-hidden" := js_string_of_bool (negb (open p))]>
              (attributes (target p))).
    by rewrite lookup_insert_ne.
Qed.

Lemma unwritten_openedPane o p : unwritten o (openedPane o p) p.
Proof.
  apply (unwritten_trans _ _ (onEndPane p)); [|apply unwritten_onEndPane].
  split; split_and!;
    [reflexivity|reflexivity|intros; reflexivity|intros; reflexivity
    | | |reflexivity|intros _; reflexivity|intros _; reflexivity].
  - intros c Hc.
    change (classList (button (openedPane o p)))
      with ({[buttonActiveClass o]} ∪ classList (button (onEndPane p))).
    rewrite elem_of_union, elem_of_singleton. tauto.
  - intros c Hc.
    change (classList (target (openedPane o p)))
      with ({[contentActiveClass o]} ∪ classList (target (onEndPane p))).
    rewrite elem_of_union, elem_of_singleton. tauto.
Qed.

Lemma unwritten_closedPane o p : unwritten o (closedPane o p) p.
Proof.
  apply (unwritten_trans _ _ (onEndPane p)); [|apply unwritten_onEndPane].
  split; split_and!;
    [reflexivity|reflexivity|intros; reflexivity|intros; reflexivity
    | | |reflexivity| |].
  - intros c Hc.
    change (classList (button (closedPane o p)))
      with (classList (button (onEndPane p)) ∖ {[buttonActiveClass o]}).
    rewrite elem_of_difference, elem_of_singleton. tauto.
  - intros c Hc.
    change (classList (target (closedPane o p)))
      with (classList (target (onEndPane p)) ∖ {[contentActiveClass o]}).
    rewrite elem_of_difference, elem_of_singleton. tauto.
  - intros H.
    change (classAttribute (button (closedPane o p)))
      with (classAttribute (button (onEndPane p)) ||
            negb (bool_decide (classList (button (onEndPane p)) ∖
                                 {[buttonActiveClass o]} = ∅))).
    by rewrite H.
  - intros H.
    change (classAttribute (target (closedPane o p)))
      with (classAttribute (target (onEndPane p)) ||
            negb (bool_decide (classList (target (onEndPane p)) ∖
                                 {[contentActiveClass o]} = ∅))).
    by rewrite H.
Qed.

Lemma fixed_insert o lay ps w i p p' c pend t :
  fixed o lay ps w → panes w !! i = Some p → unwritten o p' p →
  fixed o lay ps
    (mkWorld (options w) (layout w) (<[i := p']> (panes w)) c pend t).
Proof.
  intros (Ho&Hl&Hall) Hi Hs. split_and!; [done|done|]. cbn [panes].
  destruct (Forall2_lookup_l _ _ _ _ _ Hall Hi) as (q&Hq&Hpq).
  rewrite <- (list_insert_id ps i q Hq). apply Forall2_insert; [done|].
  by apply (unwritten_trans _ _ p).
Qed.

Lemma fixed_expand o lay ps i w :
  wf w → fixed o lay ps w → fixed o lay ps (res_world (expand i w)).
Proof.
  intros Hw Hf. destruct (panes w !! i) as [p|] eqn:Hi.
  2: { by rewrite expand_missing. }
  destruct (isRunning p) eqn:Hr.
  { by rewrite (expand_busy _ _ _ Hi Hr). }
  rewrite (expand_idle _ _ _ _ Hi Hr eq_refl).
  apply (fixed_insert _ _ _ _ _ p); [done|done|untouched_parts].
Qed.

Lemma fixed_collapse o lay ps i w :
  wf w → fixed o lay ps w → fixed o lay ps (res_world (collapse i w)).
Proof.
  intros Hw Hf. destruct (panes w !! i) as [p|] eqn:Hi.
  2: { by rewrite collapse_missing. }
  destruct (isRunning p) eqn:Hr.
  { by rewrite (collapse_busy _ _ _ Hi Hr). }
  rewrite (collapse_idle _ _ _ _ Hi Hr eq_refl).
  apply (fixed_insert _ _ _ _ _ p); [done|done|untouched_parts].
Qed.

Lemma fixed_frame o lay ps k v w :
  wf w → fixed o lay ps w → fixed o lay ps (res_world (frame k v w)).
Proof.
  intros Hw Hf. destruct (pending w !! k) as [a|] eqn:Hk.
  2: { by rewrite frame_none. }
  destruct (pending_pane _ _ _ Hw Hk) as [p Hi].
  rewrite (frame_pane _ _ _ _ _ Hk Hi).
  apply (fixed_insert _ _ _ _ _ p); [done|done|untouched_parts].
Qed.

Lemma fixed_resolve o lay ps k w :
  wf w → fixed o lay ps w → fixed o lay ps (res_world (resolve k w)).
Proof.
  intros Hw Hf. destruct (pending w !! k) as [a|] eqn:Hk.
  2: { by rewrite resolve_none. }
  destruct (pending_pane _ _ _ Hw Hk) as [p Hi].
  destruct Hf as (Ho&Hl&Hall).
  destruct (an_then a) eqn:Hth.
  - rewrite (resolve_opened _ _ _ _ Hk Hth Hi).
    apply (fixed_insert _ _ _ _ _ p); [done|done|].
    rewrite Ho. apply unwritten_openedPane.
  - rewrite (resolve_closed _ _ _ _ Hk Hth Hi).
    apply (fixed_insert _ _ _ _ _ p); [done|done|].
    rewrite Ho. apply unwritten_closedPane.
Qed.

Lemma fixed_state o lay ps i s w :
  wf w → fixed o lay ps w → fixed o lay ps (with_panes (alter (set_state s) i) w).
Proof.
  intros _ Hf. destruct (set_state_world w i s) as [->|(p&Hi&->)]; [done|].
  apply (fixed_insert _ _ _ _ _ p); [done|done|untouched_parts].
Qed.

Lemma fixed_run o lay ps ins w :
  wf w → fixed o lay ps w → fixed o lay ps (run ins w).
Proof.
  apply (invariant_run (fixed o lay ps));
    auto using fixed_expand, fixed_collapse, fixed_frame, fixed_resolve,
               fixed_state.
Qed.

Lemma fixed_constructor o lay els :
  fixed o lay (panes (constructor o lay els)) (constructor o lay els).
Proof.
  split_and!.
  - unfold constructor. by destruct (init o).
  - unfold constructor. by destruct (init o).
  - apply Forall_Forall2_diag, Forall_forall. intros p _.
    apply unwritten_refl.
Qed.

Lemma fixed_pane o lay els ins i bt :
  init o = true → els !! i = Some bt →
  ∃ p, panes (run ins (constructor o lay els)) !! i = Some p ∧
       unwritten o p (createPanel o i bt).
Proof.
  intros Hinit Hbt.
  pose proof (fixed_run o lay _ ins _ (wf_constructor o lay els)
                (fixed_constructor o lay els)) as (Ho&Hl&Hall).
  assert (panes (constructor o lay els) = createPanels o els) as Hps.
  { unfold constructor. by rewrite Hinit. }
  rewrite Hps in Hall.
  assert (createPanels o els !! i = Some (createPanel o i bt)) as Hi0.
  { unfold createPanels. by rewrite list_lookup_imap, Hbt. }
  destruct (Forall2_lookup_r _ _ _ _ _ Hall Hi0) as (p&Hi&Hu). eauto.
Qed.

Lemma fixed_length o lay els ins :
  length (panes (run ins (constructor o lay els))) =
  length (panes (constructor o lay els)).
Proof.
  pose proof (fixed_run o lay _ ins _ (wf_constructor o lay els)
                (fixed_constructor o lay els)) as (_&_&Hall).
  by apply Forall2_length in Hall.
Qed.


Lemma fixed_here w : fixed (options w) (layout w) (panes w) w.
Proof.
  split_and!; [done|done|]. apply Forall_Forall2_diag, Forall_forall.
  intros p _. apply unwritten_refl.
Qed.

(** What a run leaves of a pane: everything but the three [aria]
    attributes and the active classes. *)
Lemma run_unwritten ins w i p :
  wf w → panes w !! i = Some p →
  ∃ p', panes (run ins w) !! i = Some p' ∧ unwritten (options w) p' p.
Proof.
  intros Hw Hi.
  destruct (fixed_run _ _ _ ins w Hw (fixed_here w)) as (_&_&Hall).
  destruct (Forall2_lookup_r _ _ _ _ _ Hall Hi) as (p'&Hi'&Hu). eauto.
Qed.

Lemma run_options ins w : wf w → options (run ins w) = options w.
Proof.
  intros Hw. by destruct (fixed_run _ _ _ ins w Hw (fixed_here w)) as (->&_).
Qed.

Lemma step_options x w : wf w → options (res_world (step x w)) = options w.
Proof. intros Hw. exact (run_options [x] w Hw). Qed.

(** The attribute [clickHandle] looks for is never written. *)
Lemma run_recognised ins w i p p' :
  wf w → panes w !! i = Some p → panes (run ins w) !! i = Some p' →
  attributes (button p') !! "data-accordion-btn" =
  attributes (button p) !! "data-accordion-btn".
Proof.
  intros Hw Hi Hi'. destruct (run_unwritten ins w i p Hw Hi) as (q&Hq&(_&_&Hb&_)&_).
  assert (q = p') as -> by congruence. by apply Hb.
Qed.

(** ** What [createPanels] writes *)

Lemma createPanel_open o i bt : open (createPanel o i bt) = startsOpen o i.
Proof.
  unfold createPanel, startsOpen. cbn [open].
  destruct (optOpen o); [done|]. cbn [negb andb orb].
  by destruct (bool_decide (Some i = activeIndex o)).
Qed.

Lemma createPanel_button_attributes o i bt :
  let b := button (createPanel o i bt) in
  attributes b !! "data-accordion-index" = Some (pretty i) ∧
  attributes b !! "aria-expanded" = Some (js_string_of_bool (startsOpen o i)) ∧
  attributes b !! "aria-selected" = Some (js_string_of_bool (startsOpen o i)) ∧
  attributes b !! "aria-controls" = Some (name o +:+ "-" +:+ pretty i).
Proof.
  cbv zeta. rewrite <- (createPanel_open o i bt).
  unfold createPanel. cbn [button open].
  set (st := if optOpen o then true else _).
  assert (∀ e, attributes (if st then classList_add (buttonActiveClass o) e else e)
               = attributes e) as -> by by destruct st.
  unfold setAttribute. cbn [attributes].
  split_and!.
  - do 3 (rewrite lookup_insert_ne by discriminate). apply lookup_insert_eq.
  - do 2 (rewrite lookup_insert_ne by discriminate). apply lookup_insert_eq.
  - rewrite lookup_insert_ne by discriminate. apply lookup_insert_eq.
  - apply lookup_insert_eq.
Qed.

Lemma createPanel_target_attributes o i bt :
  let t := target (createPanel o i bt) in
  attributes t !! "data-enhanced" = Some "true" ∧
  attributes t !! "aria-labelledby" = Some (name o +:+ "-" +:+ pretty i) ∧
  attributes t !! "aria-hidden" = Some (js_string_of_bool (negb (startsOpen o i))) ∧
  attributes t !! "role" = Some "tabpanel".
Proof.
  cbv zeta. rewrite <- (createPanel_open o i bt).
  unfold createPanel. cbn [target open].
  set (st := if optOpen o then true else _).
  unfold setAttribute. cbn [attributes].
  split_and!.
  - do 3 (rewrite lookup_insert_ne by discriminate). apply lookup_insert_eq.
  - do 2 (rewrite lookup_insert_ne by discriminate). apply lookup_insert_eq.
  - rewrite lookup_insert_ne by discriminate. apply lookup_insert_eq.
  - apply lookup_insert_eq.
Qed.

Lemma createPanel_classes o i bt :
  classList (button (createPanel o i bt)) =
    (if startsOpen o i then {[buttonActiveClass o]} ∪ classList bt.1
     else classList bt.1) ∧
  classList (target (createPanel o i bt)) =
    (if startsOpen o i then {[contentActiveClass o]} ∪ classList bt.2
     else classList bt.2) ∧
  style (target (createPanel o i bt)) = style bt.2 ∧
  style (button (createPanel o i bt)) = style bt.1.
Proof.
  rewrite <- (createPanel_open o i bt).
  unfold createPanel. cbn [button target open].
  set (st := if optOpen o then true else _).
  by destruct st.
Qed.

Lemma createPanel_button_map o i bt :
  attributes (button (createPanel o i bt)) =
  <["aria-controls" := name o +:+ "-" +:+ pretty i]>
    (<["aria-selected" := js_string_of_bool (startsOpen o i)]>
       (<["aria-expanded" := js_string_of_bool (startsOpen o i)]>
          (<["data-accordion-index" := pretty i]> (attributes bt.1)))).
Proof.
  rewrite <- (createPanel_open o i bt).
  unfold createPanel. cbn [button open].
  set (st := if optOpen o then true else _).
  by destruct st.
Qed.



(** * The claims *)

Lemma reachable_constructor o lay els : reachable (constructor o lay els).
Proof. by exists o, lay, els, []. Qed.

Lemma reachable_demoRunning : reachable demoRunning.
Proof. apply reachable_run, reachable_constructor. Qed.

Lemma animationsOn_le_1 w j : wf w → (animationsOn j w ≤ 1)%nat.
Proof.
  intros Hw. destruct (panes w !! j) as [q|] eqn:Hj.
  - rewrite (wf_running _ Hw _ _ Hj). destruct (isRunning q); lia.
  - apply lookup_ge_None in Hj. unfold animationsOn.
    pose proof (wf_pending _ Hw) as Hq.
    induction Hq as [|a l Ha _ IH]; [cbn; lia|].
    rewrite filter_cons_False by lia. done.
Qed.

(** C1. On a pane whose [isRunning] is true, [expand] and [collapse]
    return without any effect: the world after the call is the world
    before it, so no event is emitted, no field of any pane is written and
    no animation is started. In every state the widget can reach, a
    running pane has exactly one animation and no pane has more than
    one. *)
Theorem running_pane_ignores_expand_and_collapse w i p :
  panes w !! i = Some p → isRunning p = true →
  expand i w = Ok tt w ∧ collapse i w = Ok tt w ∧
  (reachable w → animationsOn i w = 1 ∧ ∀ j, (animationsOn j w ≤ 1)%nat).
Proof.
  intros Hi Hr. split_and!.
  - by eapply expand_busy.
  - by eapply collapse_busy.
  - intros Hre. pose proof (reachable_wf _ Hre) as Hw. split.
    + by rewrite (wf_running _ Hw _ _ Hi), Hr.
    + intros j. by apply animationsOn_le_1.
Qed.

Lemma running_pane_ignores_expand_and_collapse_witness :
  expand 0 demoRunning = Ok tt demoRunning ∧
  collapse 0 demoRunning = Ok tt demoRunning ∧
  animationsOn 0 demoRunning = 1 ∧ ∀ j, (animationsOn j demoRunning ≤ 1)%nat.
Proof.
  destruct (running_pane_ignores_expand_and_collapse demoRunning 0
              (expandStart (set_state "open" (createPanel exclusive 0 (trigger, blank)))))
    as (He&Hc&Hn); [vm_compute; reflexivity|reflexivity|].
  split; [exact He|]. split; [exact Hc|].
  exact (Hn reachable_demoRunning).
Defined.

Lemma keeps_state_at w w' i p :
  keeps_states w w' → panes w !! i = Some p →
  ∃ p', panes w' !! i = Some p' ∧ state p' = state p.
Proof. intros (_&_&_&_&H) Hi. eauto. Qed.

Lemma click_state i w p v :
  wf w → panes w !! i = Some p →
  attributes (button p) !! "data-accordion-btn" = Some v →
  ∃ p' t, machine_table !! state p = Some t ∧
          panes (res_world (clickHandle i w)) !! i = Some p' ∧
          state p' = CLICK t.
Proof.
  intros Hw Hi Hb.
  destruct (click_world i w p v Hw Hi Hb) as (t&w2&w3&Ht&Hw2&Hi2&Hw3&Hres).
  assert (∃ p', panes w3 !! i = Some p' ∧ state p' = CLICK t) as (p'&Hi3&Hs).
  { destruct Hw3 as [->| ->]; [by eexists|].
    destruct (String.eqb _ _).
    - eapply (keeps_state_at _ _ _ _ (expand_keeps i w2)) in Hi2. done.
    - eapply (keeps_state_at _ _ _ _ (collapse_keeps i w2)) in Hi2. done. }
  exists p', t. by destruct Hres as [->| ->].
Qed.

Lemma step_state i x w p :
  wf w → panes w !! i = Some p → isClickOn i x = false → activates_only i x →
  ∃ p', panes (res_world (step x w)) !! i = Some p' ∧ state p' = state p.
Proof.
  intros Hw Hi Hx Hact. destruct x as [j|j|j|k v|k]; cbn [step].
  - cbn in Hx, Hact. by case_bool_decide.
  - by apply (keeps_state_at _ _ _ _ (expand_keeps j w)).
  - by apply (keeps_state_at _ _ _ _ (collapse_keeps j w)).
  - by apply (keeps_state_at _ _ _ _ (frame_keeps k v w Hw)).
  - by apply (keeps_state_at _ _ _ _ (resolve_keeps k w Hw)).
Qed.

Lemma countClicks_cons i x ins :
  countClicks i (x :: ins) =
  ((if isClickOn i x then 1 else 0) + countClicks i ins)%nat.
Proof.
  unfold countClicks. rewrite filter_cons.
  destruct (isClickOn i x); by case_decide.
Qed.

Lemma run_state i v ins :
  ∀ w p, wf w → panes w !! i = Some p →
  attributes (button p) !! "data-accordion-btn" = Some v →
  Forall (activates_only i) ins →
  ∃ p', panes (run ins w) !! i = Some p' ∧
        clicks (countClicks i ins) (state p) = Some (state p').
Proof.
  induction ins as [|x ins IH]; intros w p Hw Hi Hb Hall.
  { by exists p. }
  assert (∀ p1, panes (res_world (step x w)) !! i = Some p1 →
                attributes (button p1) !! "data-accordion-btn" = Some v) as Hkeep.
  { intros p1 Hp1. by rewrite (run_recognised [x] w i p p1 Hw Hi Hp1). }
  apply Forall_cons in Hall as [Hx Hall].
  change (run (x :: ins) w) with (run ins (res_world (step x w))).
  rewrite countClicks_cons.
  pose proof (wf_step x w Hw) as Hw'.
  destruct (isClickOn i x) eqn:Hc.
  - destruct x as [j| | | |]; try done. cbn in Hc.
    apply bool_decide_eq_true in Hc as ->.
    destruct (click_state i w p v Hw Hi Hb) as (p1&t&Ht&Hi1&Hs1).
    destruct (IH _ _ Hw' Hi1 (Hkeep _ Hi1) Hall) as (p'&Hi'&Hcl).
    exists p'. split; [done|].
    change (1 + countClicks i ins)%nat with (S (countClicks i ins)).
    rewrite (clicks_S _ _ _ Ht). by rewrite <- Hs1.
  - destruct (step_state i x w p Hw Hi Hc Hx) as (p1&Hi1&Hs1).
    destruct (IH _ _ Hw' Hi1 (Hkeep _ Hi1) Hall) as (p'&Hi'&Hcl).
    exists p'. split; [done|]. by rewrite <- Hs1.
Qed.

Lemma clicks_snoc n s :
  clicks (S n) s = s' ← clicks n s; clicks 1 s'.
Proof.
  revert s. induction n as [|n IH]; intros s.
  - cbn. by destruct (machine_table !! s).
  - change (clicks (S (S n)) s) with (t ← machine_table !! s; clicks (S n) (CLICK t)).
    change (clicks (S n) s) with (t ← machine_table !! s; clicks n (CLICK t)).
    destruct (machine_table !! s) as [t|]; [|done]. cbn [mbind option_bind].
    apply IH.
Qed.

Lemma clicks_alternate n s :
  s = "open" ∨ s = "close" → clicks (S n) s ≠ clicks n s.
Proof.
  intros Hs. rewrite clicks_snoc.
  destruct (clicks_valid n s Hs) as (s'&->&Hs'). cbn [mbind option_bind].
  destruct (machine_valid _ Hs') as (t&_&_&Hne&->). congruence.
Qed.

Lemma closeOther_states i w j p :
  wf w → panes w !! j = Some p →
  ∃ p', panes (res_world (closeOther i w)) !! j = Some p' ∧
        (state p' = state p ∨ clicks 1 (state p) = Some (state p')).
Proof.
  intros Hw Hj.
  destruct (closeOther_cases i w Hw) as [->|(c&cp&t&_&_&_&Hcp&Ht&->)].
  { exists p. auto. }
  set (w1 := with_panes (alter (set_state (CLICK t)) c) w).
  destruct (decide (c = j)) as [->|Hne].
  - assert (panes w1 !! j = Some (set_state (CLICK t) p)) as Hj1
      by by apply set_state_lookup.
    destruct (keeps_state_at _ _ _ _ (collapse_keeps j w1) Hj1) as (p'&Hp'&Hs).
    exists p'. split; [done|]. right. rewrite Hs. cbn [state set_state].
    simplify_eq. cbn. by rewrite Ht.
  - assert (panes w1 !! j = Some p) as Hj1
      by by (unfold w1; rewrite set_state_lookup_ne).
    destruct (keeps_state_at _ _ _ _ (collapse_keeps c w1) Hj1) as (p'&Hp'&Hs).
    exists p'. auto.
Qed.

(** One input advances the [state] of a pane by at most one transition
    of the table. *)
Lemma step_state_any x w j p :
  wf w → panes w !! j = Some p →
  ∃ p', panes (res_world (step x w)) !! j = Some p' ∧
        (state p' = state p ∨ clicks 1 (state p) = Some (state p')).
Proof.
  intros Hw Hj. destruct x as [i|i|i|k v|k]; cbn [step].
  - destruct (panes w !! i) as [pi|] eqn:Hi.
    2: { rewrite clickHandle_missing by done. exists p. auto. }
    destruct (attributes (button pi) !! "data-accordion-btn") as [v|] eqn:Hb.
    2: { rewrite (clickHandle_unrecognised _ _ _ Hi Hb). exists p. auto. }
    destruct (decide (i = j)) as [->|Hne].
    { assert (pi = p) as -> by congruence.
      destruct (click_state j w p v Hw Hj Hb) as (p'&t&Ht&Hp'&Hs).
      exists p'. split; [done|]. right. rewrite Hs. cbn. by rewrite Ht. }
    destruct (click_world i w pi v Hw Hi Hb) as (t&w2&w3&Ht&Hw2&Hi2&Hw3&Hres).
    destruct (wf_pane _ Hw _ _ Hi) as (_&_&Hs&Hdai).
    destruct (machine_valid _ Hs) as (t'&Ht'&Hv&_).
    assert (t' = t) as -> by congruence.
    destruct (closeOther_states i (with_panes (alter (set_state (CLICK t)) i) w) j p)
      as (p2&Hp2&Hs2); [by apply wf_set_state|by rewrite set_state_lookup_ne|].
    rewrite <- Hw2 in Hp2.
    assert (∃ p3, panes w3 !! j = Some p3 ∧ state p3 = state p2) as (p3&Hp3&Hs3).
    { destruct Hw3 as [->| ->]; [by exists p2|]. destruct (String.eqb _ _).
      - by apply (keeps_state_at _ _ _ _ (expand_keeps i w2)).
      - by apply (keeps_state_at _ _ _ _ (collapse_keeps i w2)). }
    exists p3. rewrite Hs3. by destruct Hres as [->| ->].
  - destruct (keeps_state_at _ _ _ _ (expand_keeps i w) Hj) as (p'&?&?). eauto.
  - destruct (keeps_state_at _ _ _ _ (collapse_keeps i w) Hj) as (p'&?&?). eauto.
  - destruct (keeps_state_at _ _ _ _ (frame_keeps k v w Hw) Hj) as (p'&?&?). eauto.
  - destruct (keeps_state_at _ _ _ _ (resolve_keeps k w Hw) Hj) as (p'&?&?). eauto.
Qed.

(** C2. The buttons of a widget built with a [selector] other than the
    default are found by [createPanels] and bound by [addEvents], but
    [clickHandle] looks for the hard-coded [data-accordion-btn]: on a
    button found by the class selector [.acc-btn] every click throws a
    [TypeError] before [state] is written, so after three activations
    the [state] of the pane is still ['close'], where the table leads to
    ['open']. *)
Theorem selector_click_never_advances_state :
  selector (options demoSelector) = ".acc-btn" ∧
  (∃ p, panes demoSelector !! 0 = Some p ∧ state p = "close" ∧
        machine p = machine_table) ∧
  clickHandle 0 demoSelector = Throw TypeError demoSelector ∧
  run [Click 0; Click 0; Click 0] demoSelector = demoSelector ∧
  clicks 3 "close" = Some "open".
Proof.
  assert (clickHandle 0 demoSelector = Throw TypeError demoSelector) as Hc.
  { apply (clickHandle_unrecognised 0 demoSelector
             (createPanel bySelector 0 (classButton, blank))); [reflexivity|].
    rewrite createPanel_button_map. unfold setAttribute.
    by rewrite !lookup_insert_ne by discriminate. }
  split_and!; [reflexivity| |exact Hc| |reflexivity].
  - eexists. split_and!; reflexivity.
  - unfold run. cbn [foldl step]. by rewrite !Hc.
Qed.

(** ** The state machine under recognised clicks *)

(** X21. In a reachable state every pane's [state] is ['open'] or
    ['close'] and its machine is the two-state table. When the button of
    pane [i] carries [data-accordion-btn], then whatever the timing
    (frames, completions, calls of [expand] and [collapse] interleaved),
    after a sequence of activations of pane [i] its [state] is the result
    of following the table's [CLICK] transition once per activation, so
    it alternates and never leaves the two values. Any single input, a
    click on another button included, leaves a pane's [state] as it is or
    advances it by one transition of the table. *)
Theorem state_alternates_by_the_machine_table w i p ins :
  reachable w → panes w !! i = Some p → Forall (activates_only i) ins →
  machine p = machine_table ∧
  machine_table !! "open" = Some (mkTransitions "close") ∧
  machine_table !! "close" = Some (mkTransitions "open") ∧
  (state p = "open" ∨ state p = "close") ∧
  (is_Some (attributes (button p) !! "data-accordion-btn") →
   ∃ p', panes (run ins w) !! i = Some p' ∧
         clicks (countClicks i ins) (state p) = Some (state p') ∧
         (state p' = "open" ∨ state p' = "close")) ∧
  (∀ n, clicks (S n) (state p) ≠ clicks n (state p)) ∧
  (∀ x, ∃ p', panes (res_world (step x w)) !! i = Some p' ∧
              (state p' = state p ∨ clicks 1 (state p) = Some (state p'))).
Proof.
  intros Hre Hi Hall. pose proof (reachable_wf _ Hre) as Hw.
  destruct (wf_pane _ Hw _ _ Hi) as (_&Hm&Hs&Hdai).
  split_and!; try done.
  - intros [v Hb].
    destruct (run_state i v ins w p Hw Hi Hb Hall) as (p'&Hi'&Hcl).
    exists p'. split_and!; try done.
    pose proof (wf_run ins w Hw) as Hw'.
    by destruct (wf_pane _ Hw' _ _ Hi') as (_&_&?&_).
  - intros n. by apply clicks_alternate.
  - intros x. by apply step_state_any.
Qed.

Lemma state_alternates_by_the_machine_table_witness :
  ∃ p', panes (run [Click 0; Frame 0 5; Click 0; Resolve 0; Click 0] demo) !! 0
        = Some p' ∧
        clicks 3 "close" = Some (state p') ∧ state p' = "open".
Proof.
  destruct (state_alternates_by_the_machine_table demo 0
              (createPanel exclusive 0 (trigger, blank))
              [Click 0; Frame 0 5; Click 0; Resolve 0; Click 0])
    as (_&_&_&_&Hrun&_&_).
  - apply reachable_constructor.
  - reflexivity.
  - repeat constructor.
  - destruct Hrun as (p'&Hp'&Hc&_).
    { exists "". vm_compute. reflexivity. }
    exists p'. split; [exact Hp'|]. split; [exact Hc|].
    assert (Some "open" = Some (state p')) as [= <-] by exact Hc.
    reflexivity.
Defined.

(** C3. With [closeOthers] on, two panes stay open: a click on the first
    button and, before its animation has completed, a click on the second
    one. The [collapse] of the first pane that the second click asks for
    returns at the [isRunning] guard, and once both animations have
    completed both panes have [open = true]; the events emitted are the
    two [spon:open] and the two [spon:opened], and no [spon:close]. *)
Theorem closeOthers_race_leaves_two_panes_open :
  closeOthers (options demoRace) = true ∧
  settled demoRace ∧
  openCount demoRace = 2 ∧
  map open (panes demoRace) = [true; true] ∧
  map state (panes demoRace) = ["close"; "open"] ∧
  count_if (is_emit "spon:open") (trace demoRace) = 2 ∧
  count_if (is_emit "spon:opened") (trace demoRace) = 2 ∧
  count_if (is_emit "spon:close") (trace demoRace) = 0.
Proof. vm_compute. repeat split. Qed.

Lemma existsb_lookup (P : Action → bool) t m a :
  t !! m = Some a → P a = true → existsb P t = true.
Proof.
  revert m. induction t as [|x t IH]; intros [|m] Hm Ha; simplify_eq/=.
  - by rewrite Ha.
  - rewrite (IH _ Hm Ha). by destruct (P x).
Qed.

Lemma precedesb_sound P Q t : precedesb P Q t = true → precedes P Q t.
Proof.
  induction t as [|x t IH]; intros Hb m n a b Hm Hn Ha Hq; [done|].
  cbn [precedesb] in Hb. destruct (Q x) eqn:Hx.
  - apply negb_true_iff in Hb.
    by rewrite (existsb_lookup P _ _ _ Hm Ha) in Hb.
  - destruct n as [|n]; [cbn in Hn; simplify_eq; congruence|].
    destruct m as [|m]; [lia|].
    cbn in Hm, Hn. specialize (IH Hb m n a b Hm Hn Ha Hq). lia.
Qed.

(** C4. In a transition that runs, the pre-event ([spon:open] or
    [spon:close]) is recorded once and strictly before the one call of
    [fromTo] that starts the animation. When the promise of a running
    animation resolves, in whatever state of the widget, the post-event
    ([spon:opened] or [spon:closed]) is recorded once, as the last effect
    of the callback, strictly after the three cleared inline style
    properties and the three [aria] attributes that [onEnd] writes. *)
Theorem events_bracket_the_animation w i p :
  panes w !! i = Some p → isRunning p = false →
  (∀ h, layout w i (target (displayBlock p)) = h →
     ∃ w1 t1, expand i w = Ok tt w1 ∧ trace w1 = trace w ++ t1 ∧
              count_if (is_emit "spon:open") t1 = 1 ∧ count_if is_fromTo t1 = 1 ∧
              precedes (is_emit "spon:open") is_fromTo t1) ∧
  (∀ h, layout w i (target p) = h →
     ∃ w1 t1, collapse i w = Ok tt w1 ∧ trace w1 = trace w ++ t1 ∧
              count_if (is_emit "spon:close") t1 = 1 ∧ count_if is_fromTo t1 = 1 ∧
              precedes (is_emit "spon:close") is_fromTo t1) ∧
  (∀ w' k a q, pending w' !! k = Some a → panes w' !! an_pane a = Some q →
     ∃ w2 t2 post, resolve k w' = Ok tt w2 ∧ trace w2 = trace w' ++ t2 ∧
              post = match an_then a with
                     | ThenOpened => "spon:opened"
                     | ThenClosed => "spon:closed"
                     end ∧
              count_if (is_emit post) t2 = 1 ∧
              count_if is_restoration t2 = 6 ∧
              count_if is_fromTo t2 = 0 ∧
              precedes is_restoration (is_emit post) t2 ∧
              ∃ t pl, t2 = t ++ [Emit post pl]).
Proof.
  intros Hi Hr. split_and!.
  - intros h Hl. eexists _, _.
    split; [exact (expand_idle _ _ _ _ Hi Hr Hl)|]. split; [reflexivity|].
    split_and!; try reflexivity. by apply precedesb_sound.
  - intros h Hl. eexists _, _.
    split; [exact (collapse_idle _ _ _ _ Hi Hr Hl)|]. split; [reflexivity|].
    split_and!; try reflexivity. by apply precedesb_sound.
  - intros w' k a q Hk Hq. destruct (an_then a) eqn:Ht.
    + eexists _, _, _. split; [exact (resolve_opened _ _ _ _ Hk Ht Hq)|].
      split; [reflexivity|]. split; [reflexivity|].
      split_and!; try reflexivity; [by apply precedesb_sound|].
      by eexists (onEndTrace _ _ ++ [_; _]), _.
    + eexists _, _, _. split; [exact (resolve_closed _ _ _ _ Hk Ht Hq)|].
      split; [reflexivity|]. split; [reflexivity|].
      split_and!; try reflexivity; [by apply precedesb_sound|].
      by eexists (onEndTrace _ _ ++ [_; _]), _.
Qed.

Lemma events_bracket_the_animation_witness :
  (∃ w1 t1, expand 1 demoRunning = Ok tt w1 ∧ trace w1 = trace demoRunning ++ t1 ∧
            count_if (is_emit "spon:open") t1 = 1 ∧ count_if is_fromTo t1 = 1 ∧
            precedes (is_emit "spon:open") is_fromTo t1) ∧
  (∃ w2 t2, resolve 0 demoRunning = Ok tt w2 ∧ trace w2 = trace demoRunning ++ t2 ∧
            count_if (is_emit "spon:opened") t2 = 1 ∧
            precedes is_restoration (is_emit "spon:opened") t2).
Proof.
  destruct (events_bracket_the_animation demoRunning 1
              (createPanel exclusive 1 (trigger, blank)))
    as (He&_&Hres); [vm_compute; reflexivity|reflexivity|].
  split.
  - apply (He (201 # 2)). reflexivity.
  - destruct (Hres demoRunning 0
                (mkAnimation (expandArgs exclusive (201 # 2)) 0 ThenOpened)
                (expandStart (set_state "open" (createPanel exclusive 0 (trigger, blank)))))
      as (w2&t2&post&Hr&Ht&->&Hc&_&_&Hp&_);
      [vm_compute; reflexivity|vm_compute; reflexivity|].
    exists w2, t2. split_and!; [exact Hr|exact Ht|exact Hc|exact Hp].
Defined.

(** ** Transitions awaited to completion *)

Lemma world_eta w :
  mkWorld (options w) (layout w) (panes w) (current w) (pending w) (trace w) = w.
Proof. by destruct w. Qed.

Lemma run_frames k vs :
  ∀ w a p, pending w !! k = Some a → panes w !! an_pane a = Some p →
  run (frames k vs) w =
  mkWorld (options w) (layout w) (<[an_pane a := framesPane vs p]> (panes w))
    (current w) (pending w)
    (trace w ++ map (fun v => SetStyle (an_pane a) Height (css_px v)) vs).
Proof.
  induction vs as [|v vs IH]; intros w a p Hk Hi.
  { cbn. rewrite list_insert_id by done. rewrite app_nil_r. by rewrite world_eta. }
  change (run (frames k (v :: vs)) w)
    with (run (frames k vs) (res_world (frame k v w))).
  rewrite (frame_pane _ _ _ _ _ Hk Hi). cbn [res_world].
  assert (an_pane a < length (panes w))%nat as Hlt by by eapply lookup_lt_Some.
  erewrite IH; [|exact Hk|by apply list_lookup_insert_eq].
  cbn [options layout panes current pending trace map framesPane foldl].
  rewrite list_insert_insert_eq. by rewrite <- app_assoc.
Qed.

Lemma framesPane_fields vs p :
  button (framesPane vs p) = button p ∧
  attributes (target (framesPane vs p)) = attributes (target p) ∧
  classList (target (framesPane vs p)) = classList (target p) ∧
  display (style (target (framesPane vs p))) = display (style (target p)) ∧
  willChange (style (target (framesPane vs p))) = willChange (style (target p)) ∧
  index (framesPane vs p) = index p ∧ open (framesPane vs p) = open p ∧
  isRunning (framesPane vs p) = isRunning p ∧ state (framesPane vs p) = state p ∧
  machine (framesPane vs p) = machine p.
Proof.
  revert p. induction vs as [|v vs IH]; intros p; [done|].
  cbn [framesPane foldl]. specialize (IH (pane_el_map Target (el_style_set Height (css_px v)) p)).
  unfold framesPane in IH. exact IH.
Qed.

(** The pane and the effects of [expand(i)] awaited to completion. *)
Lemma expandAwaited_idle i vs w p h :
  panes w !! i = Some p → isRunning p = false →
  layout w i (target (displayBlock p)) = h →
  let p1 := expandStart p in
  let p2 := openedPane (options w) (framesPane vs p1) in
  expandAwaited i vs w =
  mkWorld (options w) (layout w) (<[i := p2]> (panes w)) (current w) (pending w)
    (trace w ++ expandTrace (options w) i h (<[i := p1]> (panes w)) ++
     map (fun v => SetStyle i Height (css_px v)) vs ++
     openedTrace (options w) i true (<[i := p2]> (panes w))).
Proof.
  intros Hi Hr Hl p1 p2. unfold expandAwaited.
  assert (i < length (panes w))%nat as Hlt by by eapply lookup_lt_Some.
  change (run (CallExpand i :: ?l) w) with (run l (res_world (expand i w))).
  rewrite run_app. rewrite (expand_idle _ _ _ _ Hi Hr Hl). cbn [res_world].
  set (an := mkAnimation (expandArgs (options w) h) i ThenOpened).
  erewrite (run_frames _ _ _ an p1);
    [|cbn [pending]; by rewrite lookup_app_r, Nat.sub_diag
     |cbn [panes an_pane an]; by apply list_lookup_insert_eq].
  cbn [options layout panes current pending trace an_pane an].
  rewrite list_insert_insert_eq.
  change (run [Resolve ?k] ?w') with (res_world (resolve k w')).
  erewrite (resolve_opened _ _ an (framesPane vs p1));
    [|cbn [pending]; by rewrite lookup_app_r, Nat.sub_diag
     |done
     |cbn [panes an_pane an]; by apply list_lookup_insert_eq].
  cbn [res_world options layout panes current pending trace an_pane an].
  rewrite list_insert_insert_eq.
  assert (open (framesPane vs p1) = true) as ->.
  { by destruct (framesPane_fields vs p1) as (_&_&_&_&_&_&->&_). }
  f_equal.
  - rewrite delete_take_drop, take_app_length.
    rewrite drop_ge by (rewrite length_app; cbn; lia). by rewrite app_nil_r.
  - by rewrite <- !app_assoc.
Qed.

(** The same for [collapse(i)]. *)
Lemma collapseAwaited_idle i vs w p h :
  panes w !! i = Some p → isRunning p = false →
  layout w i (target p) = h →
  let p1 := collapseStart h p in
  let p2 := closedPane (options w) (framesPane vs p1) in
  ∃ ps, collapseAwaited i vs w =
  mkWorld (options w) (layout w) (<[i := p2]> (panes w)) (current w) (pending w)
    (trace w ++ collapseTrace (options w) i h ps ++
     map (fun v => SetStyle i Height (css_px v)) vs ++
     closedTrace (options w) i false (<[i := p2]> (panes w))).
Proof.
  intros Hi Hr Hl p1 p2. unfold collapseAwaited.
  assert (i < length (panes w))%nat as Hlt by by eapply lookup_lt_Some.
  change (run (CallCollapse i :: ?l) w) with (run l (res_world (collapse i w))).
  rewrite run_app. rewrite (collapse_idle _ _ _ _ Hi Hr Hl). cbn [res_world].
  set (an := mkAnimation (collapseArgs (options w) h) i ThenClosed).
  erewrite (run_frames _ _ _ an p1);
    [|cbn [pending]; by rewrite lookup_app_r, Nat.sub_diag
     |cbn [panes an_pane an]; by apply list_lookup_insert_eq].
  cbn [options layout panes current pending trace an_pane an].
  rewrite list_insert_insert_eq.
  change (run [Resolve ?k] ?w') with (res_world (resolve k w')).
  erewrite (resolve_closed _ _ an (framesPane vs p1));
    [|cbn [pending]; by rewrite lookup_app_r, Nat.sub_diag
     |done
     |cbn [panes an_pane an]; by apply list_lookup_insert_eq].
  cbn [res_world options layout panes current pending trace an_pane an].
  rewrite list_insert_insert_eq.
  assert (open (framesPane vs p1) = false) as ->.
  { by destruct (framesPane_fields vs p1) as (_&_&_&_&_&_&->&_). }
  eexists. f_equal.
  - rewrite delete_take_drop, take_app_length.
    rewrite drop_ge by (rewrite length_app; cbn; lia). by rewrite app_nil_r.
  - by rewrite <- !app_assoc.
Qed.

Lemma lookup_insert_other (l : list Pane) i p' :
  ∀ j, j ≠ i → <[i := p']> l !! j = l !! j.
Proof. intros j Hne. by rewrite list_lookup_insert_ne. Qed.

(** C5, as the source has it. On an idle pane [expand(i)] sets
    [isRunning] and [open], emits [spon:open] with the payload
    [{ pane, index, panes }] before it calls [fromTo], and animates from
    [0] to [Math.round] of the measured height with the configured
    duration and easing. When the animation has run and its promise
    resolves, the inline overrides are cleared, [isRunning] is false and
    [spon:opened] is the last effect recorded. *)
Theorem expand_animates_to_the_rounded_height w i p h vs :
  panes w !! i = Some p → isRunning p = false →
  layout w i (target (displayBlock p)) = h →
  (∃ w1 p1 t1,
     expand i w = Ok tt w1 ∧ panes w1 !! i = Some p1 ∧
     isRunning p1 = true ∧ open p1 = true ∧
     (∀ j, j ≠ i → panes w1 !! j = panes w !! j) ∧
     pending w1 = pending w ++
       [mkAnimation (mkFromTo 0 (Math_round h) (duration (options w))
                       (easing (options w))) i ThenOpened] ∧
     trace w1 = trace w ++ t1 ++
       [Emit "spon:open" (mkPayload i i (panes w1));
        FromTo (mkFromTo 0 (Math_round h) (duration (options w))
                  (easing (options w))) i ThenOpened] ∧
     count_if is_fromTo t1 = 0 ∧ (∀ n, count_if (is_emit n) t1 = 0)) ∧
  (∃ p2 t2,
     panes (expandAwaited i vs w) !! i = Some p2 ∧
     isRunning p2 = false ∧ open p2 = true ∧
     style (target p2) = noOverride ∧
     (∀ j, j ≠ i → panes (expandAwaited i vs w) !! j = panes w !! j) ∧
     pending (expandAwaited i vs w) = pending w ∧
     trace (expandAwaited i vs w) =
       t2 ++ [Emit "spon:opened" (mkPayload i i (panes (expandAwaited i vs w)))]).
Proof.
  intros Hi Hr Hl.
  assert (i < length (panes w))%nat as Hlt by by eapply lookup_lt_Some.
  split.
  - eexists _, (expandStart p), _.
    split; [exact (expand_idle _ _ _ _ Hi Hr Hl)|].
    cbn [panes pending trace].
    split; [by apply list_lookup_insert_eq|].
    split_and!; try reflexivity.
    + apply lookup_insert_other.
    + unfold expandTrace, expandArgs.
      by instantiate (1 := [_; _; _; _]).
    + reflexivity.
    + intros n. reflexivity.
  - rewrite (expandAwaited_idle _ vs _ _ _ Hi Hr Hl).
    cbn [panes pending trace].
    eexists _, _. split; [by apply list_lookup_insert_eq|].
    split_and!; try reflexivity.
    + change (open (framesPane vs (expandStart p)) = true).
      by destruct (framesPane_fields vs (expandStart p)) as (_&_&_&_&_&_&->&_).
    + apply lookup_insert_other.
    + unfold openedTrace. rewrite !app_assoc.
      change [?a; ?b; ?c] with ([a; b] ++ [c]). rewrite !app_assoc.
      reflexivity.
Qed.

Lemma expand_animates_to_the_rounded_height_witness :
  ∃ w1, expand 0 demo = Ok tt w1 ∧
        pending w1 = [mkAnimation (mkFromTo 0 101 300 defaultEasing) 0 ThenOpened].
Proof.
  destruct (expand_animates_to_the_rounded_height demo 0
              (createPanel exclusive 0 (trigger, blank)) (201 # 2) [])
    as ((w1&p1&t1&He&_&_&_&_&Hp&_)&_);
    [reflexivity|reflexivity|reflexivity|].
  exists w1. split; [exact He|exact Hp].
Defined.

(** C5 as stated fails on a fractional height: a target measured at 100.5
    pixels is animated to 101. *)
Lemma measured_height_is_rounded : ¬ animates_to_measured_height demo 0.
Proof.
  intros H.
  destruct (H (createPanel exclusive 0 (trigger, blank)) (201 # 2))
    as (a&Ha&_&He); [reflexivity|reflexivity|reflexivity|].
  assert (a = mkAnimation (mkFromTo 0 101 300 defaultEasing) 0 ThenOpened) as ->.
  { assert (last (pending (res_world (expand 0 demo))) =
            Some (mkAnimation (mkFromTo 0 101 300 defaultEasing) 0 ThenOpened))
      as Hlast by (vm_compute; reflexivity).
    congruence. }
  vm_compute in He. discriminate.
Qed.

Lemma Math_round_zero h : (h == 0)%Q → Math_round h = 0%Z.
Proof.
  intros Hh. unfold Math_round.
  assert (h + (1 # 2) == 1 # 2)%Q as -> by (rewrite Hh; reflexivity).
  reflexivity.
Qed.

(** C6 as stated fails: [expand] has no branch for a measurement that
    yields nothing. On a widget whose content is not in the document,
    where every target measures 0, [expand(0)] leaves pane 0 running and
    open with an animation started. *)
Lemma unmeasurable_target_still_opens : ¬ aborts_when_unmeasurable demoDetached 0.
Proof.
  intros H.
  destruct (H (createPanel exclusive 0 (trigger, blank)))
    as (p'&Hp&Hr&_); [reflexivity|reflexivity|reflexivity|].
  assert (isRunning <$> panes (res_world (expand 0 demoDetached)) !! 0 = Some true)
    as Hrun by (vm_compute; reflexivity).
  rewrite Hp in Hrun. cbn in Hrun.
  assert (isRunning (createPanel exclusive 0 (trigger, blank)) = false)
    as Hidle by reflexivity.
  congruence.
Qed.

(** C6, as the source has it. [getBoundingClientRect] gives a height for
    every target, 0 for one that is not rendered, and [expand] has no
    path that aborts. On an idle pane whose target measures 0,
    [expand(i)] returns normally with [isRunning] and [open] set, the
    inline [display: block], [height: 0] and [will-change: height] in
    place, [spon:open] emitted and an animation from 0 to 0 started.
    When that animation has run and its promise resolves, [isRunning] is
    false, [open] stays true, the inline overrides are cleared and
    [spon:opened] is the last effect recorded. *)
Theorem expand_opens_a_target_of_height_zero w i p vs :
  panes w !! i = Some p → isRunning p = false →
  (layout w i (target (displayBlock p)) == 0)%Q →
  (∃ w1 p1 t1,
     expand i w = Ok tt w1 ∧ panes w1 !! i = Some p1 ∧
     isRunning p1 = true ∧ open p1 = true ∧ state p1 = state p ∧
     display (style (target p1)) = css_str "block" ∧
     height (style (target p1)) = css_px 0 ∧
     willChange (style (target p1)) = css_str "height" ∧
     (∀ j, j ≠ i → panes w1 !! j = panes w !! j) ∧
     pending w1 = pending w ++
       [mkAnimation (mkFromTo 0 0 (duration (options w)) (easing (options w)))
          i ThenOpened] ∧
     trace w1 = trace w ++ t1 ++
       [Emit "spon:open" (mkPayload i i (panes w1));
        FromTo (mkFromTo 0 0 (duration (options w)) (easing (options w)))
          i ThenOpened] ∧
     count_if is_fromTo t1 = 0 ∧ (∀ n, count_if (is_emit n) t1 = 0)) ∧
  (∃ p2 t2,
     panes (expandAwaited i vs w) !! i = Some p2 ∧
     isRunning p2 = false ∧ open p2 = true ∧
     style (target p2) = noOverride ∧
     pending (expandAwaited i vs w) = pending w ∧
     trace (expandAwaited i vs w) =
       t2 ++ [Emit "spon:opened" (mkPayload i i (panes (expandAwaited i vs w)))]).
Proof.
  intros Hi Hr Hl.
  assert (i < length (panes w))%nat as Hlt by by eapply lookup_lt_Some.
  pose proof (Math_round_zero _ Hl) as Hz.
  split.
  - eexists _, (expandStart p), _.
    split; [exact (expand_idle _ _ _ _ Hi Hr eq_refl)|].
    cbn [panes pending trace].
    split; [by apply list_lookup_insert_eq|].
    unfold expandTrace, expandArgs. rewrite Hz.
    split_and!; try reflexivity.
    + apply lookup_insert_other.
    + by instantiate (1 := [_; _; _; _]).
    + reflexivity.
    + intros n. reflexivity.
  - rewrite (expandAwaited_idle _ vs _ _ _ Hi Hr eq_refl).
    cbn [panes pending trace].
    eexists _, _. split; [by apply list_lookup_insert_eq|].
    split_and!; try reflexivity.
    + change (open (framesPane vs (expandStart p)) = true).
      by destruct (framesPane_fields vs (expandStart p)) as (_&_&_&_&_&_&->&_).
    + unfold openedTrace. rewrite !app_assoc.
      change [?a; ?b; ?c] with ([a; b] ++ [c]). rewrite !app_assoc.
      reflexivity.
Qed.

Lemma expand_opens_a_target_of_height_zero_witness :
  ∃ w1 p1, expand 0 demoDetached = Ok tt w1 ∧ panes w1 !! 0 = Some p1 ∧
           isRunning p1 = true ∧ open p1 = true ∧
           pending w1 = [mkAnimation (mkFromTo 0 0 300 defaultEasing) 0 ThenOpened].
Proof.
  destruct (expand_opens_a_target_of_height_zero demoDetached 0
              (createPanel exclusive 0 (trigger, blank)) [])
    as ((w1&p1&t1&He&Hp&Hr&Ho&_&_&_&_&_&Hq&_)&_);
    [reflexivity|reflexivity|reflexivity|].
  exists w1, p1. split_and!; [exact He|exact Hp|exact Hr|exact Ho|exact Hq].
Defined.

Lemma eventNames_cases n :
  n ∈ eventNames →
  n = "spon:open" ∨ n = "spon:opened" ∨ n = "spon:close" ∨ n = "spon:closed".
Proof.
  unfold eventNames. intros H.
  repeat (apply elem_of_cons in H as [->|H]; [tauto|]).
  by apply elem_of_nil in H.
Qed.

Lemma emitted_in n w :
  (0 < count_if (is_emit n) (trace w))%nat → ∃ pl, Emit n pl ∈ trace w.
Proof.
  induction (trace w) as [|a t IH]; cbn [count_if]; [lia|].
  destruct (is_emit n a) eqn:Ha.
  - intros _. destruct a; try done. cbn in Ha.
    apply String.eqb_eq in Ha as ->. eexists. by left.
  - intros H. destruct (IH H) as [pl Hpl]. exists pl. by right.
Qed.

(** C7, as the source has it. Every event a widget emits is named
    [spon:open], [spon:opened], [spon:close] or [spon:closed]; its payload
    [{ pane, index, panes }] holds the pane found at [index] in the
    registry and the whole registry. Each of the four names is emitted. *)
Theorem events_carry_the_spon_prefix w n pl :
  reachable w → Emit n pl ∈ trace w →
  (n = "spon:open" ∨ n = "spon:opened" ∨ n = "spon:close" ∨ n = "spon:closed") ∧
  ev_pane pl = ev_index pl ∧
  is_Some (ev_panes pl !! ev_pane pl) ∧
  length (ev_panes pl) = length (panes w) ∧
  Forall (fun m => ∃ w' pl', reachable w' ∧ Emit m pl' ∈ trace w') eventNames.
Proof.
  intros Hre Hin. pose proof (reachable_wf _ Hre) as Hw.
  pose proof (wf_trace _ Hw) as Ht. rewrite Forall_forall in Ht.
  destruct (Ht _ Hin) as (Hn&Hp&Hlt&Hlen).
  split_and!; try done.
  - by apply eventNames_cases.
  - apply lookup_lt_is_Some. rewrite Hp, Hlen. done.
  - assert (reachable demoCycle) as Hcy
      by apply reachable_run, reachable_constructor.
    assert (∀ m, (0 < count_if (is_emit m) (trace demoCycle))%nat →
                 ∃ w' pl', reachable w' ∧ Emit m pl' ∈ trace w') as Hex.
    { intros m Hm. destruct (emitted_in m demoCycle Hm) as [pl' Hpl'].
      by exists demoCycle, pl'. }
    unfold eventNames.
    repeat first [apply Forall_nil_2 | apply Forall_cons_2];
      apply Hex; vm_compute; lia.
Qed.

Lemma events_carry_the_spon_prefix_witness :
  ∃ pl, Emit "spon:open" pl ∈ trace demoRunning ∧ ev_pane pl = ev_index pl.
Proof.
  destruct (emitted_in "spon:open" demoRunning) as [pl Hpl].
  { vm_compute. lia. }
  exists pl. split; [exact Hpl|].
  destruct (events_carry_the_spon_prefix demoRunning "spon:open" pl)
    as (_&Hp&_); [exact reachable_demoRunning|exact Hpl|exact Hp].
Defined.

(** C7 as stated fails: the first event of a widget is [spon:open], which
    is none of [open], [opened], [close], [closed]. *)
Lemma event_names_are_not_the_bare_ones :
  reachable demoRunning ∧ ¬ emits_spec_names demoRunning.
Proof.
  split; [exact reachable_demoRunning|]. intros H.
  destruct (emitted_in "spon:open" demoRunning) as [pl Hpl].
  { vm_compute. lia. }
  specialize (H _ _ Hpl). unfold specEventNames in H.
  repeat (apply elem_of_cons in H as [H|H]; [discriminate H|]).
  by apply elem_of_nil in H.
Qed.

(** The pane after [expand(i)] then [collapse(i)], each awaited. *)
Lemma roundTrip_pane w i p vs1 vs2 :
  panes w !! i = Some p → isRunning p = false →
  ∃ p', panes (roundTrip i vs1 vs2 w) !! i = Some p' ∧
        style (target p') = noOverride ∧
        isRunning p' = false ∧ open p' = false ∧
        pending (roundTrip i vs1 vs2 w) = pending w ∧
        ∀ j, j ≠ i → panes (roundTrip i vs1 vs2 w) !! j = panes w !! j.
Proof.
  intros Hi Hr.
  assert (i < length (panes w))%nat as Hlt by by eapply lookup_lt_Some.
  unfold roundTrip. rewrite (expandAwaited_idle _ vs1 _ _ _ Hi Hr eq_refl).
  set (p2 := openedPane (options w) (framesPane vs1 (expandStart p))).
  set (w1 := mkWorld _ _ _ _ _ _).
  assert (panes w1 !! i = Some p2) as Hi1 by by apply list_lookup_insert_eq.
  set (h' := layout w1 i (target p2)).
  destruct (collapseAwaited_idle i vs2 w1 p2 h' Hi1 eq_refl eq_refl) as [ps ->].
  cbn [panes pending options w1].
  eexists. split.
  { rewrite list_insert_insert_eq. by apply list_lookup_insert_eq. }
  split_and!.
  - reflexivity.
  - reflexivity.
  - change (open (framesPane vs2 (collapseStart h' p2)) = false).
    by destruct (framesPane_fields vs2 (collapseStart h' p2)) as (_&_&_&_&_&_&->&_).
  - reflexivity.
  - intros j Hne. by rewrite !list_lookup_insert_ne.
Qed.

(** C8, as the source has it. [expand(i)] then [collapse(i)] on an idle
    pane, each awaited to completion, whatever frames the animator
    produces, leaves the target's inline [height], [display] and
    [will-change] empty and the pane idle and closed with no animation
    left; the inline style is the one before the round trip whenever
    that one had no override. *)
Theorem round_trip_clears_the_overrides w i p vs1 vs2 :
  panes w !! i = Some p → isRunning p = false →
  ∃ p', panes (roundTrip i vs1 vs2 w) !! i = Some p' ∧
        style (target p') = noOverride ∧
        (style (target p) = noOverride → style (target p') = style (target p)) ∧
        isRunning p' = false ∧ open p' = false ∧
        pending (roundTrip i vs1 vs2 w) = pending w ∧
        ∀ j, j ≠ i → panes (roundTrip i vs1 vs2 w) !! j = panes w !! j.
Proof.
  intros Hi Hr.
  destruct (roundTrip_pane w i p vs1 vs2 Hi Hr) as (p'&Hp&Hs&Hr'&Ho&Hq&Hj).
  exists p'. split_and!; try done. intros Hb. by rewrite Hs, Hb.
Qed.

Lemma round_trip_clears_the_overrides_witness :
  ∃ p', panes (roundTrip 0 risingFrames fallingFrames demoHidden) !! 0 = Some p' ∧
        style (target p') = noOverride.
Proof.
  destruct (round_trip_clears_the_overrides demoHidden 0
              (createPanel defaults 0 (trigger, hidden)) risingFrames fallingFrames)
    as (p'&Hp&Hs&_); [reflexivity|reflexivity|].
  exists p'. split; [exact Hp|exact Hs].
Defined.

(** C8 as stated fails when the document gave the target an inline
    style: [display: none] is not there after the round trip. *)
Lemma round_trip_drops_the_inline_style :
  reachable demoHidden ∧ ¬ round_trip_restores_baseline demoHidden 0.
Proof.
  split; [apply reachable_constructor|]. intros H.
  destruct (roundTrip_pane demoHidden 0
              (createPanel defaults 0 (trigger, hidden)) [] [])
    as (p'&Hp&Hs&_); [reflexivity|reflexivity|].
  specialize (H _ p' eq_refl eq_refl Hp). rewrite Hs in H. discriminate H.
Qed.

(** ** Widgets built from targets without inline style *)

Lemma clean_insert w i p' pd tr :
  clean w → (isRunning p' = false → style (target p') = noOverride) →
  clean (mkWorld (options w) (layout w) (<[i := p']> (panes w)) (current w) pd tr).
Proof.
  intros Hc Hp' j q Hj Hr. cbn [panes] in Hj.
  destruct (decide (i = j)) as [->|Hne].
  - destruct (decide (j < length (panes w))%nat) as [Hlt|Hge].
    + rewrite list_lookup_insert_eq in Hj by done. simplify_eq. auto.
    + rewrite list_insert_ge in Hj by lia. eauto.
  - rewrite list_lookup_insert_ne in Hj by done. eauto.
Qed.

Lemma clean_expand i w : clean w → clean (res_world (expand i w)).
Proof.
  intros Hc. destruct (panes w !! i) as [p|] eqn:Hi.
  2: { by rewrite expand_missing. }
  destruct (isRunning p) eqn:Hr.
  { by rewrite (expand_busy _ _ _ Hi Hr). }
  rewrite (expand_idle _ _ _ _ Hi Hr eq_refl). by apply clean_insert.
Qed.

Lemma clean_collapse i w : clean w → clean (res_world (collapse i w)).
Proof.
  intros Hc. destruct (panes w !! i) as [p|] eqn:Hi.
  2: { by rewrite collapse_missing. }
  destruct (isRunning p) eqn:Hr.
  { by rewrite (collapse_busy _ _ _ Hi Hr). }
  rewrite (collapse_idle _ _ _ _ Hi Hr eq_refl). by apply clean_insert.
Qed.

Lemma pending_running w k a p :
  wf w → pending w !! k = Some a → panes w !! an_pane a = Some p →
  isRunning p = true.
Proof.
  intros Hw Hk Hi. pose proof (wf_running _ Hw _ _ Hi) as Hr.
  pose proof (filter_delete_length (fun b => an_pane b = an_pane a) _ _ _ Hk) as Hd.
  unfold animationsOn in Hr. rewrite decide_True in Hd by done.
  destruct (isRunning p); [done|lia].
Qed.

Lemma clean_frame k v w : wf w → clean w → clean (res_world (frame k v w)).
Proof.
  intros Hw Hc. destruct (pending w !! k) as [a|] eqn:Hk.
  2: { by rewrite frame_none. }
  destruct (pending_pane _ _ _ Hw Hk) as [p Hi].
  rewrite (frame_pane _ _ _ _ _ Hk Hi). apply clean_insert; [done|].
  cbn [isRunning pane_el_map]. by rewrite (pending_running _ _ _ _ Hw Hk Hi).
Qed.

Lemma clean_resolve k w : wf w → clean w → clean (res_world (resolve k w)).
Proof.
  intros Hw Hc. destruct (pending w !! k) as [a|] eqn:Hk.
  2: { by rewrite resolve_none. }
  destruct (pending_pane _ _ _ Hw Hk) as [p Hi].
  destruct (an_then a) eqn:Ht.
  - rewrite (resolve_opened _ _ _ _ Hk Ht Hi). by apply clean_insert.
  - rewrite (resolve_closed _ _ _ _ Hk Ht Hi). by apply clean_insert.
Qed.

Lemma clean_set_state w i s : clean w → clean (with_panes (alter (set_state s) i) w).
Proof.
  intros Hc j q Hj Hr. cbn [panes with_panes] in Hj.
  destruct (decide (i = j)) as [->|Hne].
  - rewrite list_lookup_alter_eq in Hj.
    destruct (panes w !! j) as [p|] eqn:Hp; [|done].
    cbn in Hj. simplify_eq. by apply (Hc j p).
  - rewrite list_lookup_alter_ne in Hj by done. eauto.
Qed.

Lemma clean_run ins w : wf w → clean w → clean (run ins w).
Proof.
  apply invariant_run.
  - intros i w' _. apply clean_expand.
  - intros i w' _. apply clean_collapse.
  - apply clean_frame.
  - apply clean_resolve.
  - intros i s' w' _. apply clean_set_state.
  - intros c w' Hc. exact Hc.
Qed.

Lemma clean_constructor o lay els :
  Forall (fun bt => style bt.2 = noOverride) els → clean (constructor o lay els).
Proof.
  intros Hall i p Hi _. unfold constructor in Hi. destruct (init o); [|done].
  cbn [panes] in Hi. destruct (createPanels_lookup _ _ _ _ Hi) as (bt&Hbt&->).
  rewrite Forall_lookup in Hall. specialize (Hall _ _ Hbt).
  unfold createPanel. cbn [target]. destruct (if optOpen o then _ else _); exact Hall.
Qed.

(** For a widget built from targets without inline style, the round
    trip is the identity on the inline style, in every state the widget
    can reach. *)
Lemma round_trip_identity_without_inline_style o lay els ins i p vs1 vs2 :
  Forall (fun bt => style bt.2 = noOverride) els →
  panes (run ins (constructor o lay els)) !! i = Some p → isRunning p = false →
  ∃ p', panes (roundTrip i vs1 vs2 (run ins (constructor o lay els))) !! i = Some p' ∧
        style (target p') = style (target p).
Proof.
  intros Hall Hi Hr.
  pose proof (clean_run ins _ (wf_constructor o lay els)
                (clean_constructor o lay els Hall)) as Hc.
  destruct (roundTrip_pane _ i p vs1 vs2 Hi Hr) as (p'&Hp&Hs&_).
  exists p'. split; [done|]. by rewrite Hs, (Hc _ _ Hi Hr).
Qed.

Lemma filter_pane_others i (l : list Animation) :
  Forall (fun a => an_pane a ≠ i) l →
  filter (fun a => an_pane a = i) l = [].
Proof.
  induction 1 as [|a l Ha _ IH]; [done|].
  by rewrite filter_cons_False.
Qed.

Lemma clicks_back s s1 :
  s = "open" ∨ s = "close" → clicks 1 s = Some s1 → clicks 1 s1 = Some s.
Proof. intros [-> | ->] [= <-]; reflexivity. Qed.

(** A click on the button of a running pane: its [state] follows the
    table, and nothing else of the pane changes. *)
Lemma click_running i w p v :
  wf w → panes w !! i = Some p → isRunning p = true →
  attributes (button p) !! "data-accordion-btn" = Some v →
  ∃ s, clicks 1 (state p) = Some s ∧ s ≠ state p ∧
       panes (res_world (clickHandle i w)) !! i = Some (set_state s p) ∧
       animationsOn i (res_world (clickHandle i w)) = animationsOn i w ∧
       (∃ t, trace (res_world (clickHandle i w)) = trace w ++ t ∧
             Forall (fun a => action_pane a ≠ i) t) ∧
       (closeOthers (options w) = false →
        trace (res_world (clickHandle i w)) = trace w ∧
        pending (res_world (clickHandle i w)) = pending w).
Proof.
  intros Hw Hi Hr Hb.
  destruct (click_world i w p v Hw Hi Hb) as (t&w2&w3&Ht&Hw2&Hi2&Hw3&Hres).
  destruct (wf_pane _ Hw _ _ Hi) as (_&_&Hs&Hdai).
  destruct (machine_valid _ Hs) as (t'&Ht'&Hv&Hne&Hcl).
  assert (t' = t) as -> by congruence.
  assert (w3 = w2) as ->.
  { destruct Hw3 as [->| ->]; [done|].
    destruct (String.eqb _ _).
    - by rewrite (expand_busy _ _ _ Hi2 Hr).
    - by rewrite (collapse_busy _ _ _ Hi2 Hr). }
  set (w1 := with_panes (alter (set_state (CLICK t)) i) w) in Hw2.
  assert (wf w1) as Hw1 by by apply wf_set_state.
  pose proof (closeOther_untouched i w1 Hw1) as (_&(l&Hl&Hfl)&(tr&Htr&Hftr)).
  rewrite <- Hw2 in Hl, Htr. cbn [w1 with_panes pending trace] in Hl, Htr.
  assert (panes (res_world (clickHandle i w)) = panes w2 ∧
          pending (res_world (clickHandle i w)) = pending w2 ∧
          trace (res_world (clickHandle i w)) = trace w2) as (Hp&Hq&Hr').
  { by destruct Hres as [->| ->]. }
  exists (CLICK t). split_and!; try done.
  - by rewrite Hp.
  - unfold animationsOn. rewrite Hq, Hl, filter_app.
    by rewrite (filter_pane_others i l Hfl), app_nil_r.
  - exists tr. by rewrite Hr'.
  - intros Hco. rewrite Hq, Hr', Hw2.
    by rewrite closeOther_off.
Qed.


(** X22. A click on the button of a pane whose animation is running,
    when that button carries [data-accordion-btn], advances the pane's
    [state] through the table although [expand] and [collapse] then
    return at the [isRunning] guard: [open], [isRunning] and the DOM
    elements of the pane are as before, the pane gets no further
    animation and no event or other effect of this pane is recorded
    (with [closeOthers] off, nothing at all is recorded or started). If
    [state] agreed with [open] before, it disagrees after, and a second
    such click brings it back. *)
Theorem click_on_running_pane_flips_only_state w i p :
  reachable w → panes w !! i = Some p → isRunning p = true →
  is_Some (attributes (button p) !! "data-accordion-btn") →
  ∃ s,
    clicks 1 (state p) = Some s ∧ s ≠ state p ∧
    panes (res_world (clickHandle i w)) !! i = Some (set_state s p) ∧
    open (set_state s p) = open p ∧ isRunning (set_state s p) = true ∧
    button (set_state s p) = button p ∧ target (set_state s p) = target p ∧
    animationsOn i (res_world (clickHandle i w)) = 1 ∧
    (∃ t, trace (res_world (clickHandle i w)) = trace w ++ t ∧
          Forall (fun a => action_pane a ≠ i) t) ∧
    (closeOthers (options w) = false →
     trace (res_world (clickHandle i w)) = trace w ∧
     pending (res_world (clickHandle i w)) = pending w) ∧
    (state p = stateOf (open p) →
     state (set_state s p) ≠ stateOf (open (set_state s p))) ∧
    panes (run [Click i; Click i] w) !! i = Some p.
Proof.
  intros Hre Hi Hr [v Hb]. pose proof (reachable_wf _ Hre) as Hw.
  destruct (wf_pane _ Hw _ _ Hi) as (_&_&Hs&Hdai).
  destruct (click_running i w p v Hw Hi Hr Hb) as (s&Hcl&Hne&Hi'&Han&Htr&Hoff).
  exists s. split_and!; try done.
  - by rewrite Han, (wf_running _ Hw _ _ Hi), Hr.
  - cbn [state set_state open]. congruence.
  - change (run [Click i; Click i] w)
      with (res_world (clickHandle i (res_world (clickHandle i w)))).
    pose proof (wf_clickHandle i w Hw) as Hw'.
    destruct (click_running i _ _ v Hw' Hi' Hr Hb) as (s2&Hcl2&_&Hi2&_).
    rewrite Hi2. f_equal. cbn [state set_state] in *.
    rewrite (clicks_back _ _ Hs Hcl) in Hcl2. injection Hcl2 as <-.
    by destruct p.
Qed.

Lemma click_on_running_pane_flips_only_state_witness :
  ∃ p', panes (res_world (clickHandle 0 demoRunning)) !! 0 = Some p' ∧
        state p' = "close" ∧ open p' = true ∧ isRunning p' = true.
Proof.
  assert (∃ p, panes demoRunning !! 0 = Some p ∧ isRunning p = true ∧
               open p = true ∧ state p = "open" ∧
               attributes (button p) !! "data-accordion-btn" = Some "")
    as (p&Hp&Hr&Ho&Hs&Hb).
  { eexists. split; [vm_compute; reflexivity|]. by split_and!. }
  destruct (click_on_running_pane_flips_only_state demoRunning 0 p)
    as (s&Hcl&_&Hi'&Ho'&Hr'&_);
    [exact reachable_demoRunning|exact Hp|exact Hr|by exists ""|].
  exists (set_state s p). split; [exact Hi'|].
  rewrite Hs in Hcl. injection Hcl as <-.
  split_and!; [reflexivity|exact Ho|exact Hr].
Defined.

Lemma onEndPane_aria p :
  attributes (button (onEndPane p)) !! "aria-expanded"
    = Some (js_string_of_bool (open p)) ∧
  attributes (button (onEndPane p)) !! "aria-selected"
    = Some (js_string_of_bool (open p)) ∧
  attributes (target (onEndPane p)) !! "aria-hidden"
    = Some (js_string_of_bool (negb (open p))).
Proof.
  unfold onEndPane, pane_el_map, setAttribute.
  cbn [button target attributes open set_isRunning].
  split_and!.
  - rewrite lookup_insert_ne by discriminate. apply lookup_insert_eq.
  - apply lookup_insert_eq.
  - apply lookup_insert_eq.
Qed.

Lemma onEndPane_fields p :
  style (target (onEndPane p)) = noOverride ∧
  isRunning (onEndPane p) = false ∧ open (onEndPane p) = open p.
Proof. by split_and!. Qed.

(** C10. [onEnd] clears the inline [will-change], [height] and [display]
    of the pane's target, sets [isRunning] to false, leaves [open] as it
    is, and writes [open] to the button's [aria-expanded] and
    [aria-selected] and its negation to the target's [aria-hidden]. The
    completion callback of every animation runs it, so after the promise
    of a running animation resolves the pane has no inline override, is
    idle, and its three [aria] attributes mirror [open]. *)
Theorem onEnd_mirrors_open_into_aria w k a p :
  pending w !! k = Some a → panes w !! an_pane a = Some p →
  onEnd (an_pane a) w =
    Ok tt (mkWorld (options w) (layout w) (<[an_pane a := onEndPane p]> (panes w))
             (current w) (pending w) (trace w ++ onEndTrace (an_pane a) (open p))) ∧
  style (target (onEndPane p)) = noOverride ∧
  isRunning (onEndPane p) = false ∧ open (onEndPane p) = open p ∧
  ∃ w' p',
    resolve k w = Ok tt w' ∧ panes w' !! an_pane a = Some p' ∧
    pending w' = delete k (pending w) ∧
    style (target p') = noOverride ∧ isRunning p' = false ∧ open p' = open p ∧
    attributes (button p') !! "aria-expanded" = Some (js_string_of_bool (open p')) ∧
    attributes (button p') !! "aria-selected" = Some (js_string_of_bool (open p')) ∧
    attributes (target p') !! "aria-hidden" = Some (js_string_of_bool (negb (open p'))).
Proof.
  intros Hk Hi.
  assert (an_pane a < length (panes w))%nat as Hlt by by eapply lookup_lt_Some.
  destruct (onEndPane_fields p) as (Hst&Hrun&Hop).
  destruct (onEndPane_aria p) as (Hex&Hsel&Hhid).
  split; [by apply onEnd_pane|]. split; [exact Hst|].
  split; [exact Hrun|]. split; [exact Hop|].
  destruct (an_then a) eqn:Ht.
  - exists (mkWorld (options w) (layout w)
              (<[an_pane a := openedPane (options w) p]> (panes w)) (current w)
              (delete k (pending w))
              (trace w ++ openedTrace (options w) (an_pane a) (open p)
                 (<[an_pane a := openedPane (options w) p]> (panes w)))),
           (openedPane (options w) p).
    split; [exact (resolve_opened _ _ _ _ Hk Ht Hi)|].
    cbn [panes pending]. split; [by apply list_lookup_insert_eq|].
    split; [reflexivity|].
    split; [exact Hst|]. split; [exact Hrun|]. split; [exact Hop|].
    split; [exact Hex|]. split; [exact Hsel|exact Hhid].
  - exists (mkWorld (options w) (layout w)
              (<[an_pane a := closedPane (options w) p]> (panes w)) (current w)
              (delete k (pending w))
              (trace w ++ closedTrace (options w) (an_pane a) (open p)
                 (<[an_pane a := closedPane (options w) p]> (panes w)))),
           (closedPane (options w) p).
    split; [exact (resolve_closed _ _ _ _ Hk Ht Hi)|].
    cbn [panes pending]. split; [by apply list_lookup_insert_eq|].
    split; [reflexivity|].
    split; [exact Hst|]. split; [exact Hrun|]. split; [exact Hop|].
    split; [exact Hex|]. split; [exact Hsel|exact Hhid].
Qed.

Lemma onEnd_mirrors_open_into_aria_witness :
  ∃ w' p', resolve 0 demoRunning = Ok tt w' ∧ panes w' !! 0 = Some p' ∧
           open p' = true ∧ isRunning p' = false ∧
           attributes (button p') !! "aria-expanded" = Some "true" ∧
           attributes (target p') !! "aria-hidden" = Some "false".
Proof.
  destruct (onEnd_mirrors_open_into_aria demoRunning 0
              (mkAnimation (expandArgs exclusive (201 # 2)) 0 ThenOpened)
              (expandStart (set_state "open" (createPanel exclusive 0 (trigger, blank)))))
    as (_&_&_&_&w'&p'&Hre&Hp'&_&_&Hr'&Ho'&He&_&Hh);
    [vm_compute; reflexivity|vm_compute; reflexivity|].
  exists w', p'. rewrite Ho' in He, Hh.
  split_and!; [exact Hre|exact Hp'|exact Ho'|exact Hr'|exact He|exact Hh].
Defined.

(** * Further properties of the class *)

(** ** [collapse] *)

Lemma closedPane_classes o p :
  (buttonActiveClass o ∉ classList (button (closedPane o p))) ∧
  (contentActiveClass o ∉ classList (target (closedPane o p))).
Proof.
  split.
  - change (classList (button (closedPane o p)))
      with (classList (button p) ∖ {[buttonActiveClass o]}).
    apply not_elem_of_difference. right. by apply elem_of_singleton.
  - change (classList (target (closedPane o p)))
      with (classList (target p) ∖ {[contentActiveClass o]}).
    apply not_elem_of_difference. right. by apply elem_of_singleton.
Qed.

(** X1. On an idle pane [collapse(i)] sets [open] to false, writes the
    measured height, unrounded, into the inline [height], emits
    [spon:close] while [isRunning] is still false, and only then sets
    [isRunning] and animates from [Math.round] of the height to [0].
    After the animation the pane is idle and closed, has no inline
    override, has lost the two active classes, and [spon:closed] is the
    last effect. *)
Theorem collapse_animates_from_the_rounded_height w i p h vs :
  panes w !! i = Some p → isRunning p = false →
  layout w i (target p) = h →
  (∃ w1 p1 ps q,
     collapse i w = Ok tt w1 ∧ panes w1 !! i = Some p1 ∧
     isRunning p1 = true ∧ open p1 = false ∧ state p1 = state p ∧
     height (style (target p1)) = css_px h ∧
     willChange (style (target p1)) = css_str "height" ∧
     display (style (target p1)) = display (style (target p)) ∧
     (∀ j, j ≠ i → panes w1 !! j = panes w !! j) ∧
     pending w1 = pending w ++
       [mkAnimation (mkFromTo (Math_round h) 0 (duration (options w))
                       (easing (options w))) i ThenClosed] ∧
     trace w1 = trace w ++
       [GetBoundingClientRect i; SetStyle i Height (css_px h);
        SetStyle i WillChange (css_str "height");
        Emit "spon:close" (mkPayload i i ps);
        FromTo (mkFromTo (Math_round h) 0 (duration (options w))
                  (easing (options w))) i ThenClosed] ∧
     ps !! i = Some q ∧ isRunning q = false ∧ open q = false) ∧
  (∃ p2 t2,
     panes (collapseAwaited i vs w) !! i = Some p2 ∧
     isRunning p2 = false ∧ open p2 = false ∧
     style (target p2) = noOverride ∧
     (buttonActiveClass (options w) ∉ classList (button p2)) ∧
     (contentActiveClass (options w) ∉ classList (target p2)) ∧
     (∀ j, j ≠ i → panes (collapseAwaited i vs w) !! j = panes w !! j) ∧
     pending (collapseAwaited i vs w) = pending w ∧
     trace (collapseAwaited i vs w) =
       t2 ++ [Emit "spon:closed" (mkPayload i i (panes (collapseAwaited i vs w)))]).
Proof.
  intros Hi Hr Hl.
  assert (i < length (panes w))%nat as Hlt by by eapply lookup_lt_Some.
  split.
  - eexists _, (collapseStart h p), _, _.
    split; [exact (collapse_idle _ _ _ _ Hi Hr Hl)|].
    cbn [panes pending trace].
    split; [by apply list_lookup_insert_eq|].
    split_and!; try reflexivity.
    + apply lookup_insert_other.
    + by apply list_lookup_insert_eq.
    + exact Hr.
    + reflexivity.
  - destruct (collapseAwaited_idle i vs w p h Hi Hr Hl) as [ps ->].
    cbn [panes pending trace].
    eexists _, _. split; [by apply list_lookup_insert_eq|].
    destruct (framesPane_fields vs (collapseStart h p))
      as (_&_&_&_&_&_&Ho&_).
    destruct (closedPane_classes (options w) (framesPane vs (collapseStart h p)))
      as (Hcb&Hct).
    split; [reflexivity|]. split; [exact Ho|]. split; [reflexivity|].
    split; [exact Hcb|]. split; [exact Hct|].
    split; [apply lookup_insert_other|]. split; [reflexivity|].
    unfold closedTrace. rewrite !app_assoc.
    change [?a; ?b; ?c] with ([a; b] ++ [c]). rewrite !app_assoc.
    reflexivity.
Qed.

Lemma collapse_animates_from_the_rounded_height_witness :
  ∃ w1, collapse 0 demo = Ok tt w1 ∧
        pending w1 = [mkAnimation (mkFromTo 101 0 300 defaultEasing) 0 ThenClosed].
Proof.
  destruct (collapse_animates_from_the_rounded_height demo 0
              (createPanel exclusive 0 (trigger, blank)) (201 # 2) [])
    as ((w1&p1&ps&q&He&_&_&_&_&_&_&_&_&Hp&_)&_);
    [reflexivity|reflexivity|reflexivity|].
  exists w1. split; [exact He|exact Hp].
Defined.

(** ** Calls that return *)

Lemma expand_ok w j p :
  panes w !! j = Some p → ∃ w', expand j w = Ok tt w'.
Proof.
  intros Hj. destruct (isRunning p) eqn:Hr.
  { exists w. by eapply expand_busy. }
  eexists. exact (expand_idle _ _ _ _ Hj Hr eq_refl).
Qed.

Lemma collapse_ok w j p :
  panes w !! j = Some p → ∃ w', collapse j w = Ok tt w'.
Proof.
  intros Hj. destruct (isRunning p) eqn:Hr.
  { exists w. by eapply collapse_busy. }
  eexists. exact (collapse_idle _ _ _ _ Hj Hr eq_refl).
Qed.

(** X2. [expand] and [collapse] have one way to throw, the read of
    [isRunning] on a pane that is not there: each returns normally
    exactly when the registry has a pane at the index, whatever height
    the layout engine reports and whether or not the pane is running. *)
Theorem expand_and_collapse_throw_only_without_pane w i :
  ((∃ w', expand i w = Ok tt w') ↔ (i < length (panes w))%nat) ∧
  ((∃ w', collapse i w = Ok tt w') ↔ (i < length (panes w))%nat).
Proof.
  split; split.
  - intros [w' He]. destruct (panes w !! i) as [p|] eqn:Hi.
    + by eapply lookup_lt_Some.
    + by rewrite (expand_missing _ _ Hi) in He.
  - intros Hlt. destruct (lookup_lt_is_Some_2 _ _ Hlt) as [p Hi].
    by eapply expand_ok.
  - intros [w' He]. destruct (panes w !! i) as [p|] eqn:Hi.
    + by eapply lookup_lt_Some.
    + by rewrite (collapse_missing _ _ Hi) in He.
  - intros Hlt. destruct (lookup_lt_is_Some_2 _ _ Hlt) as [p Hi].
    by eapply collapse_ok.
Qed.

(** ** Indices without a pane *)

(** X3. [expand], [collapse] and the click handler given an index at
    which the registry has no pane throw a [TypeError] at the first
    property read and leave the widget as it was. *)
Theorem index_without_pane_throws w i :
  (length (panes w) ≤ i)%nat →
  expand i w = Throw TypeError w ∧
  collapse i w = Throw TypeError w ∧
  clickHandle i w = Throw TypeError w.
Proof.
  intros Hge. apply lookup_ge_None in Hge.
  split_and!; [by apply expand_missing|by apply collapse_missing
              |by apply clickHandle_missing].
Qed.

Lemma index_without_pane_throws_witness :
  expand 2 demo = Throw TypeError demo ∧
  collapse 2 demo = Throw TypeError demo ∧
  clickHandle 2 demo = Throw TypeError demo.
Proof. apply (index_without_pane_throws demo 2). vm_compute. lia. Defined.

(** ** [createPanels] and the constructor *)

(** X4. [createPanels] builds one pane per button, in order. The pane at
    position [i] has [index = i], is idle, is open exactly when the
    [open] option is set or [activeIndex] is [i], and its [state] says
    the same. Its button carries [data-accordion-index = i],
    [aria-expanded] and [aria-selected] equal to [open] and
    [aria-controls = name-i]; its target carries [aria-hidden] equal to
    the negation, [aria-labelledby = name-i], [role = tabpanel] and
    [data-enhanced]; the two active classes are added exactly when the
    pane starts open, and inline styles are left alone. *)
Theorem createPanels_builds_the_registry o els i bt :
  els !! i = Some bt →
  length (createPanels o els) = length els ∧
  ∃ p, createPanels o els !! i = Some p ∧
    index p = i ∧ isRunning p = false ∧ open p = startsOpen o i ∧
    state p = stateOf (open p) ∧ machine p = machine_table ∧
    attributes (button p) !! "data-accordion-index" = Some (pretty i) ∧
    attributes (button p) !! "aria-expanded" = Some (js_string_of_bool (open p)) ∧
    attributes (button p) !! "aria-selected" = Some (js_string_of_bool (open p)) ∧
    attributes (button p) !! "aria-controls" = Some (name o +:+ "-" +:+ pretty i) ∧
    attributes (target p) !! "aria-hidden" = Some (js_string_of_bool (negb (open p))) ∧
    attributes (target p) !! "aria-labelledby" = Some (name o +:+ "-" +:+ pretty i) ∧
    attributes (target p) !! "role" = Some "tabpanel" ∧
    attributes (target p) !! "data-enhanced" = Some "true" ∧
    classList (button p) =
      (if open p then {[buttonActiveClass o]} ∪ classList bt.1 else classList bt.1) ∧
    classList (target p) =
      (if open p then {[contentActiveClass o]} ∪ classList bt.2 else classList bt.2) ∧
    style (target p) = style bt.2.
Proof.
  intros Hbt. split; [apply length_imap|].
  exists (createPanel o i bt). split.
  { unfold createPanels. by rewrite list_lookup_imap, Hbt. }
  destruct (createPanel_button_attributes o i bt) as (Hidx&Hex&Hsel&Hctl).
  destruct (createPanel_target_attributes o i bt) as (Hen&Hlab&Hhid&Hrole).
  destruct (createPanel_classes o i bt) as (Hcb&Hct&Hst&_).
  rewrite createPanel_open.
  split_and!; try done.
  unfold createPanel. cbn [state].
  fold (startsOpen o i). rewrite <- (createPanel_open o i bt).
  unfold createPanel. cbn [open]. by destruct (if optOpen o then _ else _).
Qed.

Lemma createPanels_builds_the_registry_witness :
  ∃ p, createPanels exclusive twoPanes !! 1 = Some p ∧ index p = 1 ∧
       open p = false ∧ state p = "close".
Proof.
  destruct (createPanels_builds_the_registry exclusive twoPanes 1 (trigger, blank))
    as (_&p&Hp&Hi&_&Ho&Hs&_); [reflexivity|].
  exists p. rewrite Ho in Hs. split_and!; [exact Hp|exact Hi|exact Ho|exact Hs].
Defined.

(** X5. A widget constructed without the [open] option starts with at
    most one open pane: a pane is open exactly when its position is
    [activeIndex], and then it is [current]. An [activeIndex] at which
    there is no button opens nothing and leaves [current] null. With the
    [open] option every pane starts open, whatever [activeIndex] is. *)
Theorem only_the_active_pane_starts_open o lay els i p :
  init o = true → panes (constructor o lay els) !! i = Some p →
  (optOpen o = false →
     (open p = true ↔ activeIndex o = Some i) ∧
     (open p = true → current (constructor o lay els) = Some i) ∧
     (∀ j q, panes (constructor o lay els) !! j = Some q →
             open p = true → open q = true → j = i)) ∧
  (optOpen o = true → open p = true) ∧
  (current (constructor o lay els) = Some i ↔ activeIndex o = Some i) ∧
  (∀ a, activeIndex o = Some a → (length els ≤ a)%nat →
        current (constructor o lay els) = None).
Proof.
  intros Hin Hi. unfold constructor in *. rewrite Hin in *. cbn [panes current] in *.
  destruct (createPanels_lookup _ _ _ _ Hi) as (bt&Hbt&->).
  assert (i < length els)%nat as Hlt by by eapply lookup_lt_Some.
  assert (∀ j bt', open (createPanel o j bt') = true → optOpen o = false →
                   activeIndex o = Some j) as Hact.
  { intros j bt'. rewrite createPanel_open. unfold startsOpen.
    intros H Hop. rewrite Hop in H. cbn [orb] in H.
    by apply bool_decide_eq_true in H. }
  split_and!.
  - intros Hop. split_and!.
    + split; [by eauto|]. intros Ha. rewrite createPanel_open. unfold startsOpen.
      rewrite Hop. cbn [orb]. by apply bool_decide_eq_true.
    + intros Ho. unfold initialCurrent. rewrite (Hact _ _ Ho Hop).
      by rewrite bool_decide_eq_true_2.
    + intros j q Hj Ho Hq.
      destruct (createPanels_lookup _ _ _ _ Hj) as (bt'&_&->).
      pose proof (Hact _ _ Ho Hop). pose proof (Hact _ _ Hq Hop). congruence.
  - intros Hop. rewrite createPanel_open. unfold startsOpen. by rewrite Hop.
  - unfold initialCurrent. destruct (activeIndex o) as [a|]; [|done].
    case_bool_decide; split; try done; try congruence.
  - intros a Ha Hge. unfold initialCurrent. rewrite Ha.
    by rewrite bool_decide_eq_false_2 by lia.
Qed.

Lemma only_the_active_pane_starts_open_witness :
  ∃ p, panes demo !! 1 = Some p ∧ open p = false ∧ current demo = None.
Proof.
  destruct (only_the_active_pane_starts_open exclusive layoutHalf twoPanes 1
              (createPanel exclusive 1 (trigger, blank)))
    as (_&_&_&_); [reflexivity|reflexivity|].
  eexists. split; [reflexivity|]. split; reflexivity.
Defined.

(** X6. A widget constructed with [init: false] has an empty registry and
    stays as it is: every click and every call of [expand] or [collapse]
    throws at the missing pane, the animator has nothing to run, and no
    event is ever emitted. *)
Theorem widget_without_init_is_inert o lay els ins :
  init o = false →
  run ins (constructor o lay els) = constructor o lay els ∧
  panes (constructor o lay els) = [] ∧
  (∀ i, clickHandle i (constructor o lay els) = Throw TypeError (constructor o lay els)).
Proof.
  intros Hin. unfold constructor. rewrite Hin.
  set (w0 := mkWorld o lay [] None [] []).
  assert (∀ x, res_world (step x w0) = w0) as Hstep.
  { intros [i|i|i|k v|k]; cbn [step].
    - by rewrite clickHandle_missing.
    - by rewrite expand_missing.
    - by rewrite collapse_missing.
    - by rewrite frame_none.
    - by rewrite resolve_none. }
  split_and!.
  - induction ins as [|x ins IH]; [done|].
    change (run (x :: ins) w0) with (run ins (res_world (step x w0))).
    by rewrite Hstep.
  - done.
  - intros i. by apply clickHandle_missing.
Qed.

Lemma widget_without_init_is_inert_witness :
  run [Click 0; CallExpand 1; Resolve 0] demoIdle = demoIdle.
Proof.
  refine (proj1 (widget_without_init_is_inert _ layoutHalf twoPanes
                   [Click 0; CallExpand 1; Resolve 0] _)).
  reflexivity.
Defined.

(** ** Clicks on a recognised button *)

Lemma closeOther_on i w c cp t :
  closeOthers (options w) = true → current w = Some c →
  panes w !! c = Some cp → index cp = c → c ≠ i →
  machine cp !! state cp = Some t →
  closeOther i w = collapse c (with_panes (alter (set_state (CLICK t)) c) w).
Proof.
  intros Hco Hc Hcp Hidx Hne Ht.
  with_world w. unfold closeOther. mcbv.
  rewrite Hco, Hc, Hcp, Hidx. destruct (Nat.eqb_spec c i) as [|_]; [done|].
  by rewrite Ht.
Qed.

Lemma closeOther_ok i w :
  wf w → ∃ w2, closeOther i w = Ok tt w2.
Proof.
  intros Hw.
  destruct (closeOther_cases i w Hw) as [->|(c&cp&t&_&_&_&Hcp&_&->)];
    [by eexists|].
  eapply (collapse_ok _ c (set_state (CLICK t) cp)).
  by apply set_state_lookup.
Qed.

(** A click that meets no exception: the worlds after the other pane is
    closed ([w2]) and after the clicked pane is dispatched ([w3]). *)
Lemma clickHandle_ok i w p v :
  wf w → panes w !! i = Some p →
  attributes (button p) !! "data-accordion-btn" = Some v →
  ∃ t w2 w3,
    machine_table !! state p = Some t ∧
    closeOther i (with_panes (alter (set_state (CLICK t)) i) w) = Ok tt w2 ∧
    panes w2 !! i = Some (set_state (CLICK t) p) ∧
    wf w2 ∧ options w2 = options w ∧
    (if String.eqb (CLICK t) "open" then expand i else collapse i) w2 = Ok tt w3 ∧
    clickHandle i w = Ok tt (with_current (Some i) w3).
Proof.
  intros Hw Hi Hb. destruct (wf_pane _ Hw _ _ Hi) as (_&Hmac&Hs&Hdai).
  destruct (machine_valid _ Hs) as (t&Ht&Hv&_).
  set (w1 := with_panes (alter (set_state (CLICK t)) i) w).
  assert (wf w1) as Hw1 by by apply wf_set_state.
  destruct (closeOther_ok i w1 Hw1) as [w2 Hco].
  pose proof (wf_closeOther i w1 Hw1) as Hw2.
  pose proof (closeOther_untouched i w1 Hw1) as (Hi2&_).
  assert (options w2 = options w) as Ho2.
  { destruct (closeOther_cases i w1 Hw1) as [Heq|(c&cp&t'&_&_&_&_&_&Heq)];
      rewrite Heq in Hco.
    - by injection Hco as <-.
    - destruct (collapse_keeps c (with_panes (alter (set_state (CLICK t')) c) w1))
        as (Hopt&_). rewrite Hco in Hopt. exact Hopt. }
  rewrite Hco in Hw2, Hi2. cbn [res_world] in Hw2, Hi2.
  unfold w1 in Hi2. rewrite (set_state_lookup w i p _ Hi) in Hi2.
  assert (∃ w3, (if String.eqb (CLICK t) "open" then expand i else collapse i) w2
                = Ok tt w3) as [w3 Hd].
  { destruct (String.eqb _ _);
      [by eapply expand_ok|by eapply collapse_ok]. }
  exists t, w2, w3. split_and!; try done.
  rewrite (clickHandle_shape i w p v t) by by rewrite ?Hmac.
  fold w1. unfold mbind, M_bind. rewrite Hco.
  rewrite (dispatch_eq i w2 _ Hi2). cbn [state set_state]. by rewrite Hd.
Qed.

(** X7. A click on the button of an idle pane, when that button carries
    [data-accordion-btn], never throws. It advances the pane's [state] by one
    transition and starts the transition that [state] names, so
    afterwards [open] agrees with [state], the pane is running with one
    animation, and the pane is [current]. [open] is negated exactly when
    it agreed with [state] before the click. *)
Theorem click_on_idle_pane_makes_open_follow_state w i p :
  reachable w → panes w !! i = Some p → isRunning p = false →
  is_Some (attributes (button p) !! "data-accordion-btn") →
  ∃ w' p',
    clickHandle i w = Ok tt w' ∧ panes w' !! i = Some p' ∧
    clicks 1 (state p) = Some (state p') ∧
    state p' = stateOf (open p') ∧
    isRunning p' = true ∧ animationsOn i w' = 1 ∧ current w' = Some i ∧
    (state p = stateOf (open p) → open p' = negb (open p)) ∧
    (state p ≠ stateOf (open p) → open p' = open p).
Proof.
  intros Hre Hi Hr [v Hb]. pose proof (reachable_wf _ Hre) as Hw.
  destruct (wf_pane _ Hw _ _ Hi) as (_&_&Hs&Hdai).
  destruct (clickHandle_ok i w p v Hw Hi Hb)
    as (t&w2&w3&Ht&_&Hi2&Hw2&_&Hd&Hclick).
  destruct (machine_valid _ Hs) as (t'&Ht'&Hv&Hne&Hcl).
  assert (t' = t) as -> by congruence.
  assert (i < length (panes w2))%nat as Hlt by by eapply lookup_lt_Some.
  assert (∃ p', panes w3 !! i = Some p' ∧ state p' = CLICK t ∧
                open p' = bool_decide (CLICK t = "open") ∧ isRunning p' = true)
    as (p'&Hi3&Hs3&Ho3&Hr3).
  { destruct Hv as [Hv|Hv]; rewrite Hv in Hd, Hi2 |- *.
    - change ((if String.eqb "open" "open" then expand i else collapse i) w2)
        with (expand i w2) in Hd.
      rewrite (expand_idle _ _ _ _ Hi2 Hr eq_refl) in Hd. injection Hd as <-.
      eexists. split; [by apply list_lookup_insert_eq|]. done.
    - change ((if String.eqb "close" "open" then expand i else collapse i) w2)
        with (collapse i w2) in Hd.
      rewrite (collapse_idle _ _ _ _ Hi2 Hr eq_refl) in Hd. injection Hd as <-.
      eexists. split; [by apply list_lookup_insert_eq|]. done. }
  exists (with_current (Some i) w3), p'.
  pose proof (wf_clickHandle i w Hw) as Hw'. rewrite Hclick in Hw'.
  cbn [res_world] in Hw'.
  split_and!; try done.
  - by rewrite Hs3.
  - rewrite Ho3, Hs3. destruct Hv as [-> | ->]; done.
  - by rewrite (wf_running _ Hw' i p' Hi3), Hr3.
  - intros Hsync. rewrite Ho3.
    destruct Hs as [Hs|Hs]; rewrite Hs in Ht, Hsync; injection Ht as <-;
      destruct (open p); done.
  - intros Hsync. rewrite Ho3.
    destruct Hs as [Hs|Hs]; rewrite Hs in Ht, Hsync; injection Ht as <-;
      destruct (open p); done.
Qed.

Lemma click_on_idle_pane_makes_open_follow_state_witness :
  ∃ w' p', clickHandle 1 demoRunning = Ok tt w' ∧ panes w' !! 1 = Some p' ∧
           state p' = "open" ∧ open p' = true ∧ current w' = Some 1.
Proof.
  destruct (click_on_idle_pane_makes_open_follow_state demoRunning 1
              (createPanel exclusive 1 (trigger, blank)))
    as (w'&p'&Hc&Hp&Hcl&Hs&_&_&Hcur&Hneg&_);
    [exact reachable_demoRunning|vm_compute; reflexivity|reflexivity|by exists ""|].
  exists w', p'.
  assert (Some "open" = Some (state p')) as [= Hst] by exact Hcl.
  split_and!; [exact Hc|exact Hp|by symmetry|by apply Hneg|exact Hcur].
Defined.

(** ** The hand-over of [closeOthers] *)

(** The world after a click on the recognised button of the idle pane
    [i], whose [state] is ['close'], while another idle pane [c] is
    [current] and [closeOthers] is on. *)
Lemma handover_world w i c pi pc v hc hi :
  wf w → closeOthers (options w) = true → current w = Some c → c ≠ i →
  panes w !! c = Some pc → isRunning pc = false →
  panes w !! i = Some pi → isRunning pi = false → state pi = "close" →
  attributes (button pi) !! "data-accordion-btn" = Some v →
  layout w c (target pc) = hc →
  layout w i (target (displayBlock pi)) = hi →
  ∃ sc ps0 ps1 ps2,
    clicks 1 (state pc) = Some sc ∧
    clickHandle i w = Ok tt
      (mkWorld (options w) (layout w)
         (<[i := expandStart (set_state "open" pi)]>
            (<[c := collapseStart hc (set_state sc pc)]> ps0))
         (Some i)
         ((pending w ++ [mkAnimation (collapseArgs (options w) hc) c ThenClosed]) ++
          [mkAnimation (expandArgs (options w) hi) i ThenOpened])
         ((trace w ++ collapseTrace (options w) c hc ps1) ++
          expandTrace (options w) i hi ps2)) ∧
    length ps0 = length (panes w) ∧
    (∀ j, j ≠ c → j ≠ i → ps0 !! j = panes w !! j).
Proof.
  intros Hw Hco Hcur Hne Hc Hrc Hi Hri Hsi Hb Hlc Hli.
  destruct (wf_pane _ Hw _ _ Hi) as (_&Hmi&_&Hdi).
  destruct (wf_pane _ Hw _ _ Hc) as (Hidx&Hmc&Hsc&Hdai).
  destruct (machine_valid _ Hsc) as (tc&Htc&_&_&Hclc).
  set (w1 := with_panes (alter (set_state "open") i) w).
  assert (clickHandle i w = (closeOther i ≫= fun _ => dispatch i) w1) as ->.
  { apply (clickHandle_shape i w pi v (mkTransitions "open")); [done|done|done|].
    by rewrite Hmi, Hsi. }
  assert (panes w1 !! c = Some pc) as Hc1
    by by (unfold w1; rewrite set_state_lookup_ne).
  assert (panes w1 !! i = Some (set_state "open" pi)) as Hi1
    by by apply set_state_lookup.
  set (w1' := with_panes (alter (set_state (CLICK tc)) c) w1).
  assert (closeOther i w1 = collapse c w1') as Hclose.
  { apply (closeOther_on i w1 c pc tc); try done. by rewrite Hmc. }
  assert (panes w1' !! c = Some (set_state (CLICK tc) pc)) as Hc1'
    by by apply set_state_lookup.
  assert (panes w1' !! i = Some (set_state "open" pi)) as Hi1'
    by by (unfold w1'; rewrite set_state_lookup_ne).
  assert (c < length (panes w1'))%nat as Hltc by by eapply lookup_lt_Some.
  unfold mbind, M_bind. rewrite Hclose.
  rewrite (collapse_idle c w1' _ hc Hc1' Hrc Hlc).
  set (w2 := mkWorld _ _ _ _ _ _).
  assert (panes w2 !! i = Some (set_state "open" pi)) as Hi2.
  { unfold w2. cbn [panes]. by rewrite list_lookup_insert_ne. }
  rewrite (dispatch_eq i w2 _ Hi2).
  change ((if String.eqb (state (set_state "open" pi)) "open"
           then expand i else collapse i) w2) with (expand i w2).
  rewrite (expand_idle i w2 _ hi Hi2 Hri Hli).
  exists (CLICK tc), (panes w1'). eexists _, _.
  split; [exact Hclc|]. split; [reflexivity|].
  split.
  - unfold w1', w1. cbn [panes with_panes]. by rewrite !length_alter.
  - intros j Hjc Hji. unfold w1', w1. cbn [panes with_panes].
    by rewrite !list_lookup_alter_ne.
Qed.

(** X8. With [closeOthers] on, a click on the button of an idle pane
    [i] whose [state] is ['close'], when that button carries
    [data-accordion-btn] and another idle pane [c] is [current], closes
    [c] and opens [i] in one turn: [c] is collapsed first, whether it was
    open or not, and its [state] advances; then [i] is expanded, whether
    it was open or not; [current] becomes [i]. [spon:close] of [c] and [spon:open] of [i] are emitted,
    in this order, before either animation ends. When both animations
    have ended, [c] is closed, [i] is open, both are idle, and
    [spon:closed] and [spon:opened] have followed. *)
Theorem closeOthers_click_hands_over w i c pi pc hc hi :
  reachable w → closeOthers (options w) = true → current w = Some c → c ≠ i →
  panes w !! c = Some pc → isRunning pc = false →
  panes w !! i = Some pi → isRunning pi = false → state pi = "close" →
  is_Some (attributes (button pi) !! "data-accordion-btn") →
  layout w c (target pc) = hc →
  layout w i (target (displayBlock pi)) = hi →
  ∃ w' sc ps1 ps2,
    clickHandle i w = Ok tt w' ∧ current w' = Some i ∧
    clicks 1 (state pc) = Some sc ∧
    panes w' !! c = Some (collapseStart hc (set_state sc pc)) ∧
    panes w' !! i = Some (expandStart (set_state "open" pi)) ∧
    (∀ j, j ≠ c → j ≠ i → panes w' !! j = panes w !! j) ∧
    pending w' = pending w ++
      [mkAnimation (collapseArgs (options w) hc) c ThenClosed;
       mkAnimation (expandArgs (options w) hi) i ThenOpened] ∧
    trace w' = trace w ++ collapseTrace (options w) c hc ps1 ++
                          expandTrace (options w) i hi ps2 ∧
    ∃ qc qi ps3 ps4,
      let k := length (pending w) in
      let w'' := run [Resolve k; Resolve k] w' in
      panes w'' !! c = Some qc ∧ open qc = false ∧ isRunning qc = false ∧
      panes w'' !! i = Some qi ∧ open qi = true ∧ isRunning qi = false ∧
      pending w'' = pending w ∧ current w'' = Some i ∧
      trace w'' = trace w' ++ closedTrace (options w) c false ps3 ++
                              openedTrace (options w) i true ps4.
Proof.
  intros Hre Hco Hcur Hne Hc Hrc Hi Hri Hsi [v Hb] Hlc Hli.
  pose proof (reachable_wf _ Hre) as Hw.
  destruct (handover_world w i c pi pc v hc hi Hw Hco Hcur Hne Hc Hrc Hi Hri Hsi
              Hb Hlc Hli) as (sc&ps0&ps1&ps2&Hsc&Hclick&Hlen&Hoth).
  assert (c < length ps0)%nat as Hltc.
  { rewrite Hlen. by eapply lookup_lt_Some. }
  assert (i < length ps0)%nat as Hlti.
  { rewrite Hlen. by eapply lookup_lt_Some. }
  set (pc' := collapseStart hc (set_state sc pc)) in *.
  set (pi' := expandStart (set_state "open" pi)) in *.
  set (ac := mkAnimation (collapseArgs (options w) hc) c ThenClosed) in *.
  set (ai := mkAnimation (expandArgs (options w) hi) i ThenOpened) in *.
  set (w' := mkWorld _ _ _ _ _ _) in Hclick.
  assert (panes w' !! c = Some pc') as Hc'.
  { unfold w'. cbn [panes]. rewrite list_lookup_insert_ne by done.
    by apply list_lookup_insert_eq. }
  assert (panes w' !! i = Some pi') as Hi'.
  { unfold w'. cbn [panes]. apply list_lookup_insert_eq.
    by rewrite length_insert. }
  exists w', sc, ps1, ps2.
  split; [exact Hclick|]. split; [reflexivity|]. split; [exact Hsc|].
  split; [exact Hc'|]. split; [exact Hi'|].
  split.
  { intros j Hjc Hji. unfold w'. cbn [panes].
    rewrite !list_lookup_insert_ne by done. by apply Hoth. }
  split; [unfold w'; cbn [pending]; by rewrite <- app_assoc|].
  split; [unfold w'; cbn [trace]; by rewrite <- app_assoc|].
  cbv zeta.
  change (run [Resolve ?k; Resolve ?k] w')
    with (res_world (resolve k (res_world (resolve k w')))).
  assert (pending w' !! length (pending w) = Some ac) as Hk1.
  { unfold w'. cbn [pending]. rewrite <- app_assoc.
    by rewrite lookup_app_r, Nat.sub_diag. }
  rewrite (resolve_closed _ w' ac pc' Hk1 eq_refl Hc'). cbn [res_world].
  set (w1 := mkWorld _ _ _ _ _ _).
  assert (pending w1 = pending w ++ [ai]) as Hp1.
  { unfold w1, w'. cbn [pending]. rewrite <- app_assoc.
    apply delete_middle. }
  assert (panes w1 !! i = Some pi') as Hi1.
  { unfold w1. cbn [panes an_pane ac]. by rewrite list_lookup_insert_ne. }
  assert (pending w1 !! length (pending w) = Some ai) as Hk2.
  { rewrite Hp1. by rewrite lookup_app_r, Nat.sub_diag. }
  rewrite (resolve_opened _ w1 ai pi' Hk2 eq_refl Hi1). cbn [res_world].
  cbn [panes pending trace current options an_pane ai].
  eexists _, _, _, _.
  split.
  { rewrite list_lookup_insert_ne by done. unfold w1. cbn [panes an_pane ac].
    apply list_lookup_insert_eq. unfold w'. cbn [panes].
    by rewrite !length_insert. }
  split; [reflexivity|]. split; [reflexivity|].
  split.
  { apply list_lookup_insert_eq. unfold w1, w'. cbn [panes].
    by rewrite !length_insert. }
  split; [reflexivity|]. split; [reflexivity|].
  split.
  { rewrite Hp1, delete_middle. apply app_nil_r. }
  split; [reflexivity|].
  unfold w1. cbn [trace options an_pane ac]. rewrite <- app_assoc. reflexivity.
Qed.

Lemma closeOthers_click_hands_over_witness :
  ∃ w', clickHandle 1 demoCycle = Ok tt w' ∧ current w' = Some 1 ∧
        length (pending w') = 2.
Proof.
  destruct (closeOthers_click_hands_over demoCycle 1 0
              (createPanel exclusive 1 (trigger, blank))
              (closedPane exclusive
                 (collapseStart (201 # 2)
                    (set_state "close"
                       (openedPane exclusive
                          (expandStart
                             (set_state "open"
                                (createPanel exclusive 0 (trigger, blank))))))))
              (201 # 2) (201 # 2))
    as (w'&sc&ps1&ps2&Hc&Hcur&_&_&_&_&Hp&_);
    [apply reachable_run, reachable_constructor|reflexivity
    |vm_compute; reflexivity|discriminate|vm_compute; reflexivity|reflexivity
    |vm_compute; reflexivity|reflexivity|reflexivity|by exists ""
    |reflexivity|reflexivity|].
  exists w'. split; [exact Hc|]. split; [exact Hcur|].
  rewrite Hp. reflexivity.
Defined.

(** ** Transitions started, running and finished *)

Lemma count_if_app P t1 t2 :
  count_if P (t1 ++ t2) = count_if P t1 + count_if P t2.
Proof. induction t1 as [|a t1 IH]; [done|]. cbn. rewrite IH. lia. Qed.

(** What a method adds to the two sides of the balance. *)
Lemma balanced_extend w w' t :
  balanced w → trace w' = trace w ++ t →
  count_if (is_emit "spon:open") t + count_if (is_emit "spon:close") t
    + length (pending w) =
  count_if (is_emit "spon:opened") t + count_if (is_emit "spon:closed") t
    + length (pending w') →
  count_if is_fromTo t =
  count_if (is_emit "spon:open") t + count_if (is_emit "spon:close") t →
  balanced w'.
Proof.
  unfold balanced, started, finished. intros [Hb Hf] -> He Hft.
  rewrite !count_if_app. lia.
Qed.

Lemma balanced_expand i w : balanced w → balanced (res_world (expand i w)).
Proof.
  intros Hb. destruct (panes w !! i) as [p|] eqn:Hi.
  2: { by rewrite expand_missing. }
  destruct (isRunning p) eqn:Hr.
  { by rewrite (expand_busy _ _ _ Hi Hr). }
  rewrite (expand_idle _ _ _ _ Hi Hr eq_refl).
  eapply balanced_extend; [exact Hb|reflexivity| |reflexivity].
  cbn [pending res_world]. rewrite length_app. cbn. lia.
Qed.

Lemma balanced_collapse i w : balanced w → balanced (res_world (collapse i w)).
Proof.
  intros Hb. destruct (panes w !! i) as [p|] eqn:Hi.
  2: { by rewrite collapse_missing. }
  destruct (isRunning p) eqn:Hr.
  { by rewrite (collapse_busy _ _ _ Hi Hr). }
  rewrite (collapse_idle _ _ _ _ Hi Hr eq_refl).
  eapply balanced_extend; [exact Hb|reflexivity| |reflexivity].
  cbn [pending res_world]. rewrite length_app. cbn. lia.
Qed.

Lemma balanced_frame k v w : wf w → balanced w → balanced (res_world (frame k v w)).
Proof.
  intros Hw Hb. destruct (pending w !! k) as [a|] eqn:Hk.
  2: { by rewrite frame_none. }
  destruct (pending_pane _ _ _ Hw Hk) as [p Hi].
  rewrite (frame_pane _ _ _ _ _ Hk Hi).
  eapply balanced_extend; [exact Hb|reflexivity| |reflexivity]. cbn. lia.
Qed.

Lemma balanced_resolve k w : wf w → balanced w → balanced (res_world (resolve k w)).
Proof.
  intros Hw Hb. destruct (pending w !! k) as [a|] eqn:Hk.
  2: { by rewrite resolve_none. }
  destruct (pending_pane _ _ _ Hw Hk) as [p Hi].
  assert (length (pending w) = S (length (delete k (pending w)))) as Hlen.
  { pose proof (length_delete (pending w) k (mk_is_Some _ _ Hk)) as Hd.
    apply lookup_lt_Some in Hk. lia. }
  destruct (an_then a) eqn:Ht.
  - rewrite (resolve_opened _ _ _ _ Hk Ht Hi).
    eapply balanced_extend; [exact Hb|reflexivity| |reflexivity].
    cbn [pending res_world]. rewrite Hlen. cbn. lia.
  - rewrite (resolve_closed _ _ _ _ Hk Ht Hi).
    eapply balanced_extend; [exact Hb|reflexivity| |reflexivity].
    cbn [pending res_world]. rewrite Hlen. cbn. lia.
Qed.

Lemma balanced_clickHandle i w :
  wf w → balanced w → balanced (res_world (clickHandle i w)).
Proof.
  intros Hw Hb. destruct (panes w !! i) as [p|] eqn:Hi.
  2: { by rewrite clickHandle_missing. }
  destruct (attributes (button p) !! "data-accordion-btn") as [vb|] eqn:Hbtn.
  2: { by rewrite (clickHandle_unrecognised _ _ _ Hi Hbtn). }
  destruct (click_world i w p vb Hw Hi Hbtn) as (t&w2&w3&Ht&Hw2&Hi2&Hw3&Hres).
  destruct (wf_pane _ Hw _ _ Hi) as (_&_&Hs&Hdai).
  destruct (machine_valid _ Hs) as (t'&Ht'&Hv&_).
  assert (t' = t) as -> by congruence.
  set (w1 := with_panes (alter (set_state (CLICK t)) i) w) in Hw2.
  assert (wf w1) as Hw1 by by apply wf_set_state.
  assert (balanced w2) as Hb2.
  { rewrite Hw2.
    destruct (closeOther_cases i w1 Hw1) as [->|(c&cp&tc&_&_&_&_&_&->)]; [done|].
    by apply balanced_collapse. }
  assert (balanced w3) as Hb3.
  { destruct Hw3 as [->| ->]; [done|].
    destruct (String.eqb _ _); [by apply balanced_expand|by apply balanced_collapse]. }
  by destruct Hres as [->| ->].
Qed.

#[local] Hint Resolve balanced_clickHandle balanced_expand balanced_collapse
  balanced_frame balanced_resolve : expander.

Lemma balanced_step x w : wf w → balanced w → balanced (res_world (step x w)).
Proof. intros Hw Hb. destruct x; cbn [step]; auto with expander. Qed.

Lemma balanced_run ins w : wf w → balanced w → balanced (run ins w).
Proof.
  revert w. induction ins as [|x ins IH]; intros w Hw Hb; [done|].
  change (run (x :: ins) w) with (run ins (res_world (step x w))).
  apply IH; [by apply wf_step|by apply balanced_step].
Qed.

Lemma balanced_constructor o lay els : balanced (constructor o lay els).
Proof. unfold constructor. by destruct (init o). Qed.

(** X9. In every state a widget can reach, the transitions announced by
    [spon:open] or [spon:close] are exactly those whose animation is
    still running plus those that have emitted [spon:opened] or
    [spon:closed], and [fromTo] has been called once per announcement.
    A pane is marked running exactly while one animation of its own is
    pending, so when no animation is pending every pane is idle and every
    announced transition has been completed. *)
Theorem every_transition_is_running_or_finished w :
  reachable w →
  started w = finished w + length (pending w) ∧
  count_if is_fromTo (trace w) = started w ∧
  (∀ i p, panes w !! i = Some p →
          (isRunning p = true ↔ animationsOn i w = 1) ∧
          (isRunning p = false ↔ animationsOn i w = 0)) ∧
  Forall (fun a => is_Some (panes w !! an_pane a)) (pending w) ∧
  (settled w → started w = finished w ∧
               ∀ i p, panes w !! i = Some p → isRunning p = false).
Proof.
  intros Hre. pose proof (reachable_wf _ Hre) as Hw.
  destruct Hre as (o&lay&els&ins&->).
  destruct (balanced_run ins _ (wf_constructor o lay els)
              (balanced_constructor o lay els)) as [Hb Hf].
  set (w := run ins (constructor o lay els)) in *.
  assert (∀ i p, panes w !! i = Some p →
            (isRunning p = true ↔ animationsOn i w = 1) ∧
            (isRunning p = false ↔ animationsOn i w = 0)) as Hrun.
  { intros i p Hi. rewrite (wf_running _ Hw _ _ Hi).
    destruct (isRunning p); split; split; done. }
  split_and!; try done.
  - eapply Forall_impl; [apply (wf_pending _ Hw)|].
    intros a Ha. by apply lookup_lt_is_Some.
  - intros Hset. unfold settled in Hset. split.
    + rewrite Hb, Hset. cbn. lia.
    + intros i p Hi. apply (Hrun i p Hi). unfold animationsOn. by rewrite Hset.
Qed.

Lemma every_transition_is_running_or_finished_witness :
  started demoRunning = finished demoRunning + length (pending demoRunning) ∧
  count_if is_fromTo (trace demoRunning) = started demoRunning.
Proof.
  destruct (every_transition_is_running_or_finished demoRunning
              reachable_demoRunning) as (Hb&Hf&_).
  split; [exact Hb|exact Hf].
Defined.

(** ** A pending animation fixes [open] *)

Lemma idle_pane_has_no_animation w i p k a :
  wf w → panes w !! i = Some p → isRunning p = false →
  pending w !! k = Some a → an_pane a ≠ i.
Proof.
  intros Hw Hi Hr Hk Heq. subst i.
  pose proof (pending_running _ _ _ _ Hw Hk Hi). congruence.
Qed.

Lemma directed_idle_write w i p p' t :
  wf w → directed w → panes w !! i = Some p → isRunning p = false →
  directed (mkWorld (options w) (layout w) (<[i := p']> (panes w)) (current w)
              (pending w) t).
Proof.
  intros Hw Hd Hi Hr k b q Hk Hb. cbn [panes pending] in Hk, Hb.
  pose proof (idle_pane_has_no_animation _ _ _ _ _ Hw Hi Hr Hk) as Hne.
  rewrite list_lookup_insert_ne in Hb by done. eauto.
Qed.

Lemma directed_start w i p p' a t :
  wf w → directed w → panes w !! i = Some p → isRunning p = false →
  an_pane a = i → open p' = direction a →
  directed (mkWorld (options w) (layout w) (<[i := p']> (panes w)) (current w)
              (pending w ++ [a]) t).
Proof.
  intros Hw Hd Hi Hr Ha Ho k b q Hk Hb. cbn [panes pending] in Hk, Hb.
  assert (i < length (panes w))%nat as Hlt by by eapply lookup_lt_Some.
  apply lookup_app_Some in Hk as [Hk|[_ Hk]].
  - pose proof (idle_pane_has_no_animation _ _ _ _ _ Hw Hi Hr Hk) as Hne.
    rewrite list_lookup_insert_ne in Hb by done. eauto.
  - apply list_lookup_singleton_Some in Hk as [_ <-].
    rewrite Ha, list_lookup_insert_eq in Hb by done. by simplify_eq.
Qed.

Lemma directed_same_open w i p p' t :
  directed w → panes w !! i = Some p → open p' = open p →
  directed (mkWorld (options w) (layout w) (<[i := p']> (panes w)) (current w)
              (pending w) t).
Proof.
  intros Hd Hi Ho k b q Hk Hb. cbn [panes pending] in Hk, Hb.
  assert (i < length (panes w))%nat as Hlt by by eapply lookup_lt_Some.
  destruct (decide (i = an_pane b)) as [->|Hne].
  - rewrite list_lookup_insert_eq in Hb by done. simplify_eq.
    rewrite Ho. eauto.
  - rewrite list_lookup_insert_ne in Hb by done. eauto.
Qed.

Lemma lookup_delete_elem {A} (l : list A) k j x :
  delete k l !! j = Some x → ∃ j', l !! j' = Some x.
Proof.
  destruct (decide (j < k)%nat).
  - rewrite list_lookup_delete_lt by done. eauto.
  - rewrite list_lookup_delete_ge by lia. eauto.
Qed.

Lemma directed_finish w k a p p' t :
  wf (mkWorld (options w) (layout w) (<[an_pane a := p']> (panes w)) (current w)
        (delete k (pending w)) t) →
  directed w → pending w !! k = Some a → panes w !! an_pane a = Some p →
  isRunning p' = false →
  directed (mkWorld (options w) (layout w) (<[an_pane a := p']> (panes w))
              (current w) (delete k (pending w)) t).
Proof.
  intros Hw' Hd Hk Hi Hr' j b q Hj Hb. cbn [panes pending] in Hj, Hb.
  assert (an_pane a < length (panes w))%nat as Hlt by by eapply lookup_lt_Some.
  assert (an_pane b ≠ an_pane a) as Hne.
  { apply (idle_pane_has_no_animation _ _ p' j b Hw'); [|done|done].
    cbn [panes]. by apply list_lookup_insert_eq. }
  rewrite list_lookup_insert_ne in Hb by done.
  destruct (lookup_delete_elem _ _ _ _ Hj) as [j' Hj']. eauto.
Qed.

Lemma directed_expand i w : wf w → directed w → directed (res_world (expand i w)).
Proof.
  intros Hw Hd. destruct (panes w !! i) as [p|] eqn:Hi.
  2: { by rewrite expand_missing. }
  destruct (isRunning p) eqn:Hr.
  { by rewrite (expand_busy _ _ _ Hi Hr). }
  rewrite (expand_idle _ _ _ _ Hi Hr eq_refl). by eapply directed_start.
Qed.

Lemma directed_collapse i w : wf w → directed w → directed (res_world (collapse i w)).
Proof.
  intros Hw Hd. destruct (panes w !! i) as [p|] eqn:Hi.
  2: { by rewrite collapse_missing. }
  destruct (isRunning p) eqn:Hr.
  { by rewrite (collapse_busy _ _ _ Hi Hr). }
  rewrite (collapse_idle _ _ _ _ Hi Hr eq_refl). by eapply directed_start.
Qed.

Lemma directed_frame k v w : wf w → directed w → directed (res_world (frame k v w)).
Proof.
  intros Hw Hd. destruct (pending w !! k) as [a|] eqn:Hk.
  2: { by rewrite frame_none. }
  destruct (pending_pane _ _ _ Hw Hk) as [p Hi].
  rewrite (frame_pane _ _ _ _ _ Hk Hi). by eapply directed_same_open.
Qed.

Lemma directed_resolve k w : wf w → directed w → directed (res_world (resolve k w)).
Proof.
  intros Hw Hd. pose proof (wf_resolve k w Hw) as Hw'.
  destruct (pending w !! k) as [a|] eqn:Hk.
  2: { by rewrite resolve_none. }
  destruct (pending_pane _ _ _ Hw Hk) as [p Hi].
  destruct (an_then a) eqn:Hth.
  - rewrite (resolve_opened _ _ _ _ Hk Hth Hi) in Hw' |- *.
    by eapply directed_finish.
  - rewrite (resolve_closed _ _ _ _ Hk Hth Hi) in Hw' |- *.
    by eapply directed_finish.
Qed.

Lemma directed_state i s w :
  wf w → directed w → directed (with_panes (alter (set_state s) i) w).
Proof.
  intros _ Hd. destruct (set_state_world w i s) as [->|(p&Hi&->)]; [done|].
  by eapply directed_same_open.
Qed.

Lemma directed_run ins w : wf w → directed w → directed (run ins w).
Proof.
  apply (invariant_run directed);
    auto using directed_expand, directed_collapse, directed_frame,
               directed_resolve, directed_state.
Qed.

Lemma directed_reachable w : reachable w → directed w.
Proof.
  intros (o&lay&els&ins&->). apply directed_run; [apply wf_constructor|].
  intros k a p Hk. unfold constructor in Hk. by destruct (init o).
Qed.

(** X10. While an animation is pending, [open] of its pane is the value
    the animation was started with: [true] for one started by [expand],
    [false] for one started by [collapse]. So the completion callback
    that runs is the one matching [open]: it leaves the pane idle with
    [open] unchanged, and its last effect is [spon:opened] when [open]
    is true and [spon:closed] when it is false, with the pane as it is
    after the callback in the payload. *)
Theorem completion_event_matches_open w k a p :
  reachable w → pending w !! k = Some a → panes w !! an_pane a = Some p →
  open p = direction a ∧
  ∃ p' t,
    panes (res_world (resolve k w)) !! an_pane a = Some p' ∧
    isRunning p' = false ∧ open p' = open p ∧
    trace (res_world (resolve k w)) =
      trace w ++ t ++
      [Emit (if open p then "spon:opened" else "spon:closed")
         (mkPayload (an_pane a) (an_pane a) (panes (res_world (resolve k w))))].
Proof.
  intros Hre Hk Hi. pose proof (directed_reachable w Hre k a p Hk Hi) as Ho.
  split; [done|].
  assert (an_pane a < length (panes w))%nat as Hlt by by eapply lookup_lt_Some.
  unfold direction in Ho. destruct (an_then a) eqn:Hth.
  - rewrite (resolve_opened _ _ _ _ Hk Hth Hi). cbn [res_world panes trace].
    exists (openedPane (options w) p),
      (onEndTrace (an_pane a) (open p) ++
       [ClassAdd (an_pane a) Button (buttonActiveClass (options w));
        ClassAdd (an_pane a) Target (contentActiveClass (options w))]).
    rewrite Ho. split_and!; [by apply list_lookup_insert_eq|done|done|].
    unfold openedTrace. by rewrite <- !app_assoc.
  - rewrite (resolve_closed _ _ _ _ Hk Hth Hi). cbn [res_world panes trace].
    exists (closedPane (options w) p),
      (onEndTrace (an_pane a) (open p) ++
       [ClassRemove (an_pane a) Button (buttonActiveClass (options w));
        ClassRemove (an_pane a) Target (contentActiveClass (options w))]).
    rewrite Ho. split_and!; [by apply list_lookup_insert_eq|done|done|].
    unfold closedTrace. by rewrite <- !app_assoc.
Qed.

Lemma completion_event_matches_open_witness :
  last (trace (res_world (resolve 0 demoRunning))) =
    Some (Emit "spon:opened"
            (mkPayload 0 0 (panes (res_world (resolve 0 demoRunning))))).
Proof.
  destruct (completion_event_matches_open demoRunning 0
              (mkAnimation (expandArgs exclusive (201 # 2)) 0 ThenOpened)
              (expandStart (set_state "open" (createPanel exclusive 0 (trigger, blank))))
              reachable_demoRunning)
    as (_&p'&t&_&_&_&Ht); [vm_compute; reflexivity|vm_compute; reflexivity|].
  cbn [an_pane open expandStart set_open] in Ht.
  rewrite Ht, !app_assoc. apply last_snoc.
Defined.

(** ** Idle panes show [open] in the DOM *)

Lemma mirrors_openedPane o p : open p = true → mirrors o (openedPane o p).
Proof.
  intros Ho. destruct (onEndPane_aria p) as (Hex&Hsel&Hhid).
  split_and!; try done.
  - split; [|done]. intros _.
    change (classList (button (openedPane o p)))
      with ({[buttonActiveClass o]} ∪ classList (button p)).
    apply elem_of_union_l. by apply elem_of_singleton.
  - split; [|done]. intros _.
    change (classList (target (openedPane o p)))
      with ({[contentActiveClass o]} ∪ classList (target p)).
    apply elem_of_union_l. by apply elem_of_singleton.
Qed.

Lemma mirrors_closedPane o p : open p = false → mirrors o (closedPane o p).
Proof.
  intros Ho. destruct (onEndPane_aria p) as (Hex&Hsel&Hhid).
  destruct (closedPane_classes o p) as (Hcb&Hct).
  assert (open (closedPane o p) = false) as Ho' by exact Ho.
  split_and!; try done; rewrite Ho'; split; done.
Qed.

Lemma mirrors_createPanel o i bt :
  buttonActiveClass o ∉ classList bt.1 →
  contentActiveClass o ∉ classList bt.2 →
  mirrors o (createPanel o i bt).
Proof.
  intros Hb Ht.
  pose proof (createPanel_button_attributes o i bt) as Hba.
  pose proof (createPanel_target_attributes o i bt) as Hta.
  cbv zeta in Hba, Hta.
  destruct Hba as (_&Hex&Hsel&_). destruct Hta as (_&_&Hhid&_).
  destruct (createPanel_classes o i bt) as (Hcb&Hct&_).
  unfold mirrors. rewrite Hcb, Hct, (createPanel_open o i bt).
  split_and!; [exact Hex|exact Hsel|exact Hhid|..];
    destruct (startsOpen o i); (split; [|done]); try done; intros _;
    apply elem_of_union_l; by apply elem_of_singleton.
Qed.

Lemma mirrored_insert w i p' c pend t :
  mirrored w → (isRunning p' = false → mirrors (options w) p') →
  mirrored (mkWorld (options w) (layout w) (<[i := p']> (panes w)) c pend t).
Proof.
  intros Hq Hp j q Hj Hr. cbn [panes options] in Hj |- *.
  apply list_lookup_insert_Some in Hj as [(->&->&_)|(Hne&Hj)]; eauto.
Qed.

Lemma shown_expand i w : wf w → shown w → shown (res_world (expand i w)).
Proof.
  intros Hw (Hd&Hq). split_and!.
  - by apply directed_expand.
  - destruct (panes w !! i) as [p|] eqn:Hi.
    2: { by rewrite expand_missing. }
    destruct (isRunning p) eqn:Hr.
    { by rewrite (expand_busy _ _ _ Hi Hr). }
    rewrite (expand_idle _ _ _ _ Hi Hr eq_refl). by apply mirrored_insert.
Qed.

Lemma shown_collapse i w : wf w → shown w → shown (res_world (collapse i w)).
Proof.
  intros Hw (Hd&Hq). split_and!.
  - by apply directed_collapse.
  - destruct (panes w !! i) as [p|] eqn:Hi.
    2: { by rewrite collapse_missing. }
    destruct (isRunning p) eqn:Hr.
    { by rewrite (collapse_busy _ _ _ Hi Hr). }
    rewrite (collapse_idle _ _ _ _ Hi Hr eq_refl). by apply mirrored_insert.
Qed.

Lemma shown_frame k v w : wf w → shown w → shown (res_world (frame k v w)).
Proof.
  intros Hw (Hd&Hq). split_and!.
  - by apply directed_frame.
  - destruct (pending w !! k) as [a|] eqn:Hk.
    2: { by rewrite frame_none. }
    destruct (pending_pane _ _ _ Hw Hk) as [p Hi].
    rewrite (frame_pane _ _ _ _ _ Hk Hi). apply mirrored_insert; [done|].
    intros Hr. change (isRunning p = false) in Hr.
    pose proof (pending_running _ _ _ _ Hw Hk Hi). congruence.
Qed.

Lemma shown_resolve k w : wf w → shown w → shown (res_world (resolve k w)).
Proof.
  intros Hw (Hd&Hq). split_and!.
  - by apply directed_resolve.
  - destruct (pending w !! k) as [a|] eqn:Hk.
    2: { by rewrite resolve_none. }
    destruct (pending_pane _ _ _ Hw Hk) as [p Hi].
    pose proof (Hd k a p Hk Hi) as Ho. unfold direction in Ho.
    destruct (an_then a) eqn:Hth.
    + rewrite (resolve_opened _ _ _ _ Hk Hth Hi).
      apply mirrored_insert; [done|]. intros _. by apply mirrors_openedPane.
    + rewrite (resolve_closed _ _ _ _ Hk Hth Hi).
      apply mirrored_insert; [done|]. intros _. by apply mirrors_closedPane.
Qed.

Lemma shown_state i s w :
  wf w → shown w → shown (with_panes (alter (set_state s) i) w).
Proof.
  intros Hw (Hd&Hq). split_and!; [by apply directed_state|].
  destruct (set_state_world w i s) as [->|(p&Hi&->)]; [done|].
  apply mirrored_insert; [done|]. intros Hr. exact (Hq i p Hi Hr).
Qed.

Lemma shown_run ins w : wf w → shown w → shown (run ins w).
Proof.
  apply (invariant_run shown);
    auto using shown_expand, shown_collapse, shown_frame, shown_resolve,
               shown_state.
Qed.

Lemma shown_constructor o lay els :
  unmarked o els → shown (constructor o lay els).
Proof.
  intros Hall. unfold constructor. destruct (init o).
  - split_and!.
    + intros k a p Hk. cbn [pending] in Hk. done.
    + intros i p Hi _. cbn [panes options] in Hi |- *.
      destruct (createPanels_lookup _ _ _ _ Hi) as (bt&Hbt&->).
      unfold unmarked in Hall. rewrite Forall_lookup in Hall.
      destruct (Hall _ _ Hbt). by apply mirrors_createPanel.
  - split_and!.
    + intros k a p Hk. cbn [pending] in Hk. done.
    + intros i p Hi. cbn [panes] in Hi. done.
Qed.

(** X11. A widget is built over buttons and targets that do not carry
    the active classes. Then after any clicks, calls, frames and
    completions every idle pane shows [open] in the DOM: [aria-expanded] and [aria-selected] read
    [String(open)], [aria-hidden] reads [String(!open)], and the button
    and the target carry their active class exactly when the pane is
    open. *)
Theorem idle_pane_shows_open_in_the_dom o lay els ins i p :
  unmarked o els →
  panes (run ins (constructor o lay els)) !! i = Some p →
  isRunning p = false →
  attributes (button p) !! "aria-expanded" = Some (js_string_of_bool (open p)) ∧
  attributes (button p) !! "aria-selected" = Some (js_string_of_bool (open p)) ∧
  attributes (target p) !! "aria-hidden" = Some (js_string_of_bool (negb (open p))) ∧
  (open p = true ↔ buttonActiveClass o ∈ classList (button p)) ∧
  (open p = true ↔ contentActiveClass o ∈ classList (target p)).
Proof.
  intros Hall Hi Hr.
  pose proof (shown_run ins _ (wf_constructor o lay els)
                (shown_constructor o lay els Hall)) as (_&Hq).
  pose proof (fixed_run o lay _ ins _ (wf_constructor o lay els)
                (fixed_constructor o lay els)) as (Ho&_).
  specialize (Hq i p Hi Hr). by rewrite Ho in Hq.
Qed.

Lemma idle_pane_shows_open_in_the_dom_witness :
  attributes (button (openedPane exclusive
    (expandStart (set_state "open" (createPanel exclusive 0 (trigger, blank))))))
    !! "aria-expanded" = Some "true" ∧
  "is-active" ∈ classList (button (openedPane exclusive
    (expandStart (set_state "open" (createPanel exclusive 0 (trigger, blank)))))).
Proof.
  destruct (idle_pane_shows_open_in_the_dom exclusive layoutHalf twoPanes
              [Click 0; Resolve 0] 0
              (openedPane exclusive
                 (expandStart (set_state "open" (createPanel exclusive 0 (trigger, blank))))))
    as (Hex&_&_&Hcl&_).
  - repeat (apply Forall_cons; split); try apply Forall_nil;
      try split; apply not_elem_of_empty.
  - vm_compute. reflexivity.
  - reflexivity.
  - split; [exact Hex|]. by apply Hcl.
Defined.

(** X12. After construction the methods write no attribute other than
    [aria-expanded] and [aria-selected] of a button and [aria-hidden] of
    a target, and add or remove no class other than the two active
    classes. In every world the event loop reaches the options and the
    layout are those of the constructor, the registry has one pane per
    button, and pane [i] has [index = i], the machine table, the inline
    style of its button, and every other attribute and class as
    [createPanels] left it: in particular [data-accordion-index = i],
    which [clickHandle] reads to find the pane, and the [aria-controls],
    [aria-labelledby], [role] and [data-enhanced] of [createPanels]. *)
Theorem methods_write_only_the_aria_state o lay els ins i bt :
  init o = true → els !! i = Some bt →
  options (run ins (constructor o lay els)) = o ∧
  layout (run ins (constructor o lay els)) = lay ∧
  length (panes (run ins (constructor o lay els))) = length els ∧
  ∃ p, panes (run ins (constructor o lay els)) !! i = Some p ∧
    index p = i ∧ machine p = machine_table ∧
    (∀ key, key ≠ "aria-expanded" → key ≠ "aria-selected" →
       attributes (button p) !! key =
       attributes (button (createPanel o i bt)) !! key) ∧
    (∀ key, key ≠ "aria-hidden" →
       attributes (target p) !! key =
       attributes (target (createPanel o i bt)) !! key) ∧
    (∀ c, c ≠ buttonActiveClass o → c ∈ classList (button p) ↔ c ∈ classList bt.1) ∧
    (∀ c, c ≠ contentActiveClass o → c ∈ classList (target p) ↔ c ∈ classList bt.2) ∧
    style (button p) = style bt.1 ∧
    attributes (button p) !! "data-accordion-index" = Some (pretty i) ∧
    attributes (button p) !! "aria-controls" = Some (name o +:+ "-" +:+ pretty i) ∧
    attributes (target p) !! "aria-labelledby" = Some (name o +:+ "-" +:+ pretty i) ∧
    attributes (target p) !! "role" = Some "tabpanel" ∧
    attributes (target p) !! "data-enhanced" = Some "true".
Proof.
  intros Hinit Hbt.
  pose proof (fixed_run o lay _ ins _ (wf_constructor o lay els)
                (fixed_constructor o lay els)) as (Ho&Hl&_).
  destruct (fixed_pane o lay els ins i bt Hinit Hbt)
    as (p&Hi&(Hidx&Hm&Hb&Ht)&(Hcb&Hct&Hs&_)).
  split_and!; [done|done|..].
  { rewrite fixed_length. unfold constructor. rewrite Hinit.
    unfold createPanels. apply length_imap. }
  pose proof (createPanel_button_attributes o i bt) as Hba.
  pose proof (createPanel_target_attributes o i bt) as Hta.
  cbv zeta in Hba, Hta.
  destruct Hba as (Hdi&_&_&Hac). destruct Hta as (Hde&Hal&_&Hro).
  destruct (createPanel_classes o i bt) as (Hkb&Hkt&_&Hsb).
  exists p. split_and!; try done.
  - intros c Hc. rewrite (Hcb c Hc), Hkb. destruct (startsOpen o i); [|done].
    rewrite elem_of_union, elem_of_singleton. tauto.
  - intros c Hc. rewrite (Hct c Hc), Hkt. destruct (startsOpen o i); [|done].
    rewrite elem_of_union, elem_of_singleton. tauto.
  - by rewrite Hs.
  - by rewrite Hb.
  - by rewrite Hb.
  - by rewrite Ht.
  - by rewrite Ht.
  - by rewrite Ht.
Qed.

Lemma methods_write_only_the_aria_state_witness :
  options (run [Click 0; Click 1; Resolve 0] demo) = exclusive ∧
  length (panes (run [Click 0; Click 1; Resolve 0] demo)) = 2.
Proof.
  destruct (methods_write_only_the_aria_state exclusive layoutHalf twoPanes
              [Click 0; Click 1; Resolve 0] 1 (trigger, blank))
    as (Ho&_&Hlen&_); [reflexivity|reflexivity|].
  split; [exact Ho|exact Hlen].
Defined.

(** ** The whole widget *)

Lemma newExpander_init o lay el els :
  init o = true →
  newExpander o lay el els =
  mkExpander (constructor o lay els)
    (setAttribute "aria-multiselectable" (js_string_of_bool (closeOthers o))
       (setAttribute "role" "tablist" el))
    (foldr (fun p ls => {[ (index p, "click") ]} ∪ ({[ (index p, "touchstart") ]} ∪ ls))
       ∅ (createPanels o els)).
Proof.
  intros Hinit. unfold newExpander, constructor. rewrite Hinit.
  unfold initWidget, addEvents. cbn [widget root listeners options layout panes
    current pending trace].
  by destruct (initialCurrent o els).
Qed.

Lemma newExpander_widget o lay el els :
  widget (newExpander o lay el els) = constructor o lay els.
Proof.
  destruct (init o) eqn:Hinit.
  - by rewrite newExpander_init.
  - unfold newExpander, constructor. by rewrite Hinit.
Qed.

Lemma occur_parts e x :
  root (occur e x) = root x ∧ listeners (occur e x) = listeners x.
Proof.
  destruct e as [ty j|i]; cbn [occur]; [|done].
  by destruct (bool_decide _).
Qed.

Lemma live_parts es x :
  root (live es x) = root x ∧ listeners (live es x) = listeners x.
Proof.
  revert x. induction es as [|e es IH]; intros x; [done|].
  change (live (e :: es) x) with (live es (occur e x)).
  destruct (IH (occur e x)) as [-> ->]. apply occur_parts.
Qed.

Lemma live_widget es x : widget (live es x) = run (delivered x es) (widget x).
Proof.
  revert x. induction es as [|e es IH]; intros x; [done|].
  change (live (e :: es) x) with (live es (occur e x)). rewrite IH.
  assert (delivered (occur e x) es = delivered x es) as ->.
  { unfold delivered. by destruct (occur_parts e x) as [_ ->]. }
  destruct e as [ty j|i]; cbn [occur delivered omap list_omap].
  - destruct (bool_decide _); reflexivity.
  - reflexivity.
Qed.

Lemma live_reachable o lay el els es :
  reachable (widget (live es (newExpander o lay el els))).
Proof.
  rewrite live_widget, newExpander_widget.
  apply reachable_run, reachable_constructor.
Qed.

(** *** Listeners *)

Lemma index_in_registry w j :
  wf w → (∃ p, p ∈ panes w ∧ index p = j) ↔ (j < length (panes w))%nat.
Proof.
  intros Hw. split.
  - intros (p&Hp&<-). apply list_elem_of_lookup in Hp as [i Hi].
    destruct (wf_pane _ Hw _ _ Hi) as (->&_). by eapply lookup_lt_Some.
  - intros Hlt. destruct (lookup_lt_is_Some_2 _ _ Hlt) as [p Hi].
    exists p. split; [by eapply list_elem_of_lookup_2|].
    by destruct (wf_pane _ Hw _ _ Hi) as (->&_).
Qed.

Lemma addEvents_listeners (ps : list Pane) (ls : gset (nat * string)) j ty :
  (j, ty) ∈ foldr (fun p ls => {[ (index p, "click") ]} ∪
                                ({[ (index p, "touchstart") ]} ∪ ls)) ls ps ↔
  (j, ty) ∈ ls ∨
  (∃ p, p ∈ ps ∧ index p = j) ∧ (ty = "click" ∨ ty = "touchstart").
Proof.
  induction ps as [|q ps IH]; cbn [foldr].
  - split; [by left|]. intros [H|[(p&Hp&_) _]]; [done|]. by apply elem_of_nil in Hp.
  - rewrite !elem_of_union, !elem_of_singleton, IH. split.
    + intros [[= -> ->]|[[= -> ->]|[H|[(p&Hp&Hj) Hty]]]].
      * right. split; [|by left]. exists q. split; [apply list_elem_of_here|done].
      * right. split; [|by right]. exists q. split; [apply list_elem_of_here|done].
      * by left.
      * right. split; [|done]. exists p. split; [by apply list_elem_of_further|done].
    + intros [H|[(p&Hp&Hj) Hty]]; [by do 2 right; left|].
      apply elem_of_cons in Hp as [->|Hp].
      * subst j. destruct Hty as [-> | ->]; [by left|by right; left].
      * do 3 right. split; [|done]. by exists p.
Qed.

Lemma removeEvents_listeners (ps : list Pane) (ls : gset (nat * string)) j ty :
  (j, ty) ∈ foldr (fun p ls => (ls ∖ {[ (index p, "click") ]}) ∖
                                {[ (index p, "touchstart") ]}) ls ps →
  (j, ty) ∈ ls ∧
  ¬ ((∃ p, p ∈ ps ∧ index p = j) ∧ (ty = "click" ∨ ty = "touchstart")).
Proof.
  induction ps as [|q ps IH]; cbn [foldr].
  - intros H. split; [done|]. intros [(p&Hp&_) _]. by apply elem_of_nil in Hp.
  - rewrite !elem_of_difference, !elem_of_singleton.
    intros [[H Hc] Ht]. destruct (IH H) as [Hls Hn]. split; [done|].
    intros [(p&Hp&Hj) Hty]. apply elem_of_cons in Hp as [->|Hp].
    + subst j. destruct Hty as [-> | ->]; [by apply Hc|by apply Ht].
    + apply Hn. split; [|done]. by exists p.
Qed.

(** *** The elements after [destroy] *)

Ltac drop_key key k :=
  destruct (decide (key = k)) as [->|?];
    [by rewrite !lookup_delete_eq
    |rewrite !(lookup_delete_ne _ k) by congruence].


Lemma same_but_class_attribute_sym e1 e2 :
  same_but_class_attribute e1 e2 → same_but_class_attribute e2 e1.
Proof. intros (Ha&Hc&Hs). by split_and!. Qed.














(** After a completed opening the target, found without a [class]
    attribute, has an empty one that [destroy] leaves behind. *)
Example destroy_leaves_an_empty_class_attribute :
  ∃ p, panes (widget (destroy (live [DomEvent "click" 0; Direct (Resolve 0)]
                                 (newExpander exclusive layoutHalf blank twoPanes))))
         !! 0 = Some p ∧
       classAttribute (target p) = true ∧ classList (target p) = ∅ ∧
       classAttribute blank = false.
Proof.
  eexists. split; [vm_compute; reflexivity|].
  split; [reflexivity|]. split; [|reflexivity].
  apply set_eq. intros c. vm_compute. tauto.
Qed.

(** X14. [destroy] does not stop a running animation. The animation is
    still pending after [destroy], and when it completes its callback
    writes [aria-expanded], [aria-selected] and [aria-hidden] back onto
    the elements [destroy] has stripped, adds the active classes again
    when the pane was opening, and emits the post-event. *)
Theorem animation_outlives_destroy o lay el els es k a :
  pending (widget (live es (newExpander o lay el els))) !! k = Some a →
  pending (widget (destroy (live es (newExpander o lay el els)))) !! k = Some a ∧
  ∃ p,
    panes (widget (occur (Direct (Resolve k))
                     (destroy (live es (newExpander o lay el els)))))
      !! an_pane a = Some p ∧
    isRunning p = false ∧ open p = direction a ∧
    attributes (button p) !! "aria-expanded" = Some (js_string_of_bool (open p)) ∧
    attributes (button p) !! "aria-selected" = Some (js_string_of_bool (open p)) ∧
    attributes (target p) !! "aria-hidden" = Some (js_string_of_bool (negb (open p))) ∧
    (open p = true → buttonActiveClass o ∈ classList (button p) ∧
                     contentActiveClass o ∈ classList (target p)) ∧
    last (trace (widget (occur (Direct (Resolve k))
                           (destroy (live es (newExpander o lay el els)))))) =
      Some (Emit (if open p then "spon:opened" else "spon:closed")
              (mkPayload (an_pane a) (an_pane a)
                 (panes (widget (occur (Direct (Resolve k))
                                  (destroy (live es (newExpander o lay el els)))))))).
Proof.
  intros Hk.
  pose proof (live_reachable o lay el els es) as Hre.
  set (x := live es (newExpander o lay el els)) in *.
  assert (options (widget x) = o) as Ho.
  { unfold x. rewrite live_widget, newExpander_widget.
    by destruct (fixed_run o lay _ (delivered (newExpander o lay el els) es) _
                   (wf_constructor o lay els) (fixed_constructor o lay els))
      as (->&_). }
  destruct (pending_pane _ _ _ (reachable_wf _ Hre) Hk) as [q Hq].
  pose proof (directed_reachable _ Hre k a q Hk Hq) as Hd.
  set (w' := widget (destroy x)).
  assert (pending w' !! k = Some a) as Hk' by exact Hk.
  assert (panes w' !! an_pane a = Some (destroyPane o q)) as Hq'.
  { unfold w', destroy, removeEvents. cbn [widget with_panes panes].
    by rewrite Ho, list_lookup_fmap, Hq. }
  assert (options w' = o) as Ho' by exact Ho.
  assert (an_pane a < length (panes w'))%nat as Hlt by by eapply lookup_lt_Some.
  split; [done|].
  change (widget (occur (Direct (Resolve k)) (destroy x)))
    with (res_world (resolve k w')).
  unfold direction in *. destruct (an_then a) eqn:Hth.
  - rewrite (resolve_opened _ _ _ _ Hk' Hth Hq'), Ho'. cbn [res_world panes trace].
    destruct (mirrors_openedPane o (destroyPane o q) Hd) as (Hex&Hsel&Hhid&Hcb&Hct).
    exists (openedPane o (destroyPane o q)).
    assert (open (openedPane o (destroyPane o q)) = true) as Hop by exact Hd.
    rewrite Hop in *.
    split_and!; [by apply list_lookup_insert_eq|done|done|done|done|done| |].
    + intros _. split; [by apply Hcb|by apply Hct].
    + unfold openedTrace. rewrite !last_app. reflexivity.
  - rewrite (resolve_closed _ _ _ _ Hk' Hth Hq'), Ho'. cbn [res_world panes trace].
    destruct (mirrors_closedPane o (destroyPane o q) Hd) as (Hex&Hsel&Hhid&Hcb&Hct).
    exists (closedPane o (destroyPane o q)).
    assert (open (closedPane o (destroyPane o q)) = false) as Hop by exact Hd.
    rewrite Hop in *.
    split_and!; [by apply list_lookup_insert_eq|done|done|done|done|done|done|].
    unfold closedTrace. rewrite !last_app. reflexivity.
Qed.

Lemma animation_outlives_destroy_witness :
  ∃ p,
    panes (widget (occur (Direct (Resolve 0))
                     (destroy (live [DomEvent "click" 0]
                                 (newExpander exclusive layoutHalf blank twoPanes)))))
      !! 0 = Some p ∧
    attributes (button p) !! "aria-expanded" = Some "true" ∧
    "is-active" ∈ classList (button p).
Proof.
  destruct (animation_outlives_destroy exclusive layoutHalf blank twoPanes
              [DomEvent "click" 0] 0
              (mkAnimation (expandArgs exclusive (201 # 2)) 0 ThenOpened))
    as (_&p&Hp&_&Ho&Hex&_&_&Hcl&_); [vm_compute; reflexivity|].
  exists p. change (open p = true) in Ho. rewrite Ho in Hex.
  split_and!; [exact Hp|exact Hex|]. by destruct (Hcl Ho).
Defined.

(** X15. The constructor binds [clickHandle] to every button for [click]
    and [touchstart] and to nothing else, and sets [role] and
    [aria-multiselectable], the latter to [String(closeOthers)], on the
    root. The registry never changes, so [removeEvents] in [destroy]
    finds every listener [addEvents] bound: after [destroy] no listener
    is left, no event on a button reaches the widget, and the root is
    the root as found without the two attributes. *)
Theorem clicks_are_heard_from_init_to_destroy o lay el els es :
  init o = true →
  (∀ j ty, (j, ty) ∈ listeners (live es (newExpander o lay el els)) ↔
           (j < length els)%nat ∧ (ty = "click" ∨ ty = "touchstart")) ∧
  attributes (root (live es (newExpander o lay el els))) !! "role" = Some "tablist" ∧
  attributes (root (live es (newExpander o lay el els))) !! "aria-multiselectable"
    = Some (js_string_of_bool (closeOthers o)) ∧
  listeners (destroy (live es (newExpander o lay el els))) = ∅ ∧
  root (destroy (live es (newExpander o lay el els))) =
    removeAttribute "aria-multiselectable" (removeAttribute "role" el) ∧
  (attributes el !! "role" = None → attributes el !! "aria-multiselectable" = None →
   root (destroy (live es (newExpander o lay el els))) = el) ∧
  (∀ es', Forall is_DomEvent es' →
          live es' (destroy (live es (newExpander o lay el els))) =
          destroy (live es (newExpander o lay el els))).
Proof.
  intros Hinit.
  pose proof (live_reachable o lay el els es) as Hre.
  pose proof (reachable_wf _ Hre) as Hw.
  assert (length (panes (widget (live es (newExpander o lay el els)))) = length els)
    as Hlen.
  { rewrite live_widget, newExpander_widget, fixed_length.
    unfold constructor. rewrite Hinit. unfold createPanels. apply length_imap. }
  destruct (live_parts es (newExpander o lay el els)) as [Hroot Hls].
  set (x := live es (newExpander o lay el els)) in *.
  assert (∀ j ty, (j, ty) ∈ listeners x ↔
                  (j < length els)%nat ∧ (ty = "click" ∨ ty = "touchstart")) as Hbound.
  { intros j ty. rewrite Hls, (newExpander_init _ _ _ _ Hinit). cbn [listeners].
    rewrite addEvents_listeners.
    pose proof (index_in_registry (constructor o lay els) j (wf_constructor o lay els))
      as Hreg.
    assert (panes (constructor o lay els) = createPanels o els) as Hps.
    { unfold constructor. by rewrite Hinit. }
    rewrite Hps in Hreg. rewrite Hreg. unfold createPanels. rewrite length_imap.
    split; [intros [H|H]; [by apply not_elem_of_empty in H|done]|by right]. }
  assert (listeners (destroy x) = ∅) as Hnone.
  { apply leibniz_equiv, elem_of_equiv_empty. intros [j ty] H.
    unfold destroy, removeEvents in H. cbn [listeners widget] in H.
    apply removeEvents_listeners in H as [Hin Hn].
    apply Hbound in Hin as [Hlt Hty]. apply Hn. split; [|done].
    apply index_in_registry; [done|]. by rewrite Hlen. }
  assert (root (destroy x) =
          removeAttribute "aria-multiselectable" (removeAttribute "role" el)) as Hr.
  { unfold destroy, removeEvents. cbn [root]. rewrite Hroot.
    rewrite (newExpander_init _ _ _ _ Hinit). cbn [root].
    unfold removeAttribute, setAttribute. cbn [attributes classList style].
    f_equal. apply map_eq. intros key.
    drop_key key "aria-multiselectable". drop_key key "role".
    by rewrite !lookup_insert_ne by congruence. }
  split_and!; [done| | |done|done| |].
  - rewrite Hroot, (newExpander_init _ _ _ _ Hinit). cbn [root].
    unfold setAttribute. cbn [attributes].
    rewrite lookup_insert_ne by discriminate. apply lookup_insert_eq.
  - rewrite Hroot, (newExpander_init _ _ _ _ Hinit). cbn [root].
    unfold setAttribute. cbn [attributes]. apply lookup_insert_eq.
  - intros H1 H2. rewrite Hr. unfold removeAttribute. cbn [attributes classList style].
    rewrite (delete_id _ "role") by done.
    rewrite (delete_id _ "aria-multiselectable") by done. by destruct el.
  - intros es' Hes. induction Hes as [|e es' He _ IH]; [done|].
    change (live (e :: es') (destroy x)) with (live es' (occur e (destroy x))).
    destruct e as [ty j|i]; [|done]. cbn [occur]. rewrite Hnone.
    rewrite bool_decide_eq_false_2 by apply not_elem_of_empty.
    exact IH.
Qed.

Lemma clicks_are_heard_from_init_to_destroy_witness :
  (1, "touchstart") ∈ listeners (live [DomEvent "click" 0]
                                    (newExpander exclusive layoutHalf blank twoPanes)) ∧
  listeners (destroy (live [DomEvent "click" 0]
                        (newExpander exclusive layoutHalf blank twoPanes))) = ∅.
Proof.
  destruct (clicks_are_heard_from_init_to_destroy exclusive layoutHalf blank twoPanes
              [DomEvent "click" 0]) as (Hb&_&_&Hn&_); [reflexivity|].
  split; [|exact Hn]. apply Hb. split; [cbn; lia|by right].
Defined.

(** ** The default easing *)

(** X16. The default easing of [defaults], read over exact rationals,
    starts at [b], ends at [b + c] and passes [b + c / 2] at half the
    duration, for every positive duration. *)
Theorem defaultEasing_endpoints (b c d : Q) :
  (0 < d)%Q →
  (easing defaults 0 b c d == b)%Q ∧
  (easing defaults d b c d == b + c)%Q ∧
  (easing defaults (d / 2) b c d == b + c / 2)%Q.
Proof.
  intros Hd.
  assert (~ (d == 0)%Q) as Hne.
  { intros H. rewrite H in Hd. by apply Qlt_irrefl in Hd. }
  change (easing defaults) with defaultEasing. unfold defaultEasing. cbv zeta.
  split_and!.
  - assert (0 / (d / 2) == 0)%Q as H0 by (field; done).
    destruct (Qle_bool 1 (0 / (d / 2))) eqn:E; cbn [negb].
    + apply Qle_bool_iff in E. rewrite H0 in E. by apply Qle_not_lt in E.
    + rewrite H0. field.
  - assert (d / (d / 2) == 2)%Q as H2 by (field; done).
    destruct (Qle_bool 1 (d / (d / 2))) eqn:E; cbn [negb].
    + rewrite H2. field.
    + assert (Qle_bool 1 (d / (d / 2)) = true) as E'.
      { apply Qle_bool_iff. rewrite H2. done. }
      congruence.
  - assert (d / 2 / (d / 2) == 1)%Q as H1 by (field; done).
    destruct (Qle_bool 1 (d / 2 / (d / 2))) eqn:E; cbn [negb].
    + rewrite H1. field.
    + assert (Qle_bool 1 (d / 2 / (d / 2)) = true) as E'.
      { apply Qle_bool_iff. rewrite H1. apply Qle_refl. }
      congruence.
Qed.

Lemma defaultEasing_endpoints_witness :
  (easing defaults 0 0 101 300 == 0)%Q ∧ (easing defaults 300 0 101 300 == 0 + 101)%Q.
Proof.
  destruct (defaultEasing_endpoints 0 101 300) as (H0&H1&_); [reflexivity|].
  split; [exact H0|exact H1].
Defined.

(** ** One pane at a time *)

Lemma collapse_opens_nothing c w j p' :
  panes (res_world (collapse c w)) !! j = Some p' → open p' = true →
  ∃ p, panes w !! j = Some p ∧ open p = true.
Proof.
  destruct (panes w !! c) as [cp|] eqn:Hc.
  2: { rewrite collapse_missing by done. eauto. }
  destruct (isRunning cp) eqn:Hr.
  { rewrite (collapse_busy _ _ _ Hc Hr). eauto. }
  rewrite (collapse_idle _ _ _ _ Hc Hr eq_refl). cbn [res_world panes].
  intros Hj Ho. apply list_lookup_insert_Some in Hj as [(_&<-&_)|(_&Hj)]; [done|eauto].
Qed.

Lemma collapse_closes_idle c w cp p' :
  panes w !! c = Some cp → isRunning cp = false →
  panes (res_world (collapse c w)) !! c = Some p' → open p' = false.
Proof.
  intros Hc Hr. assert (c < length (panes w))%nat as Hlt by by eapply lookup_lt_Some.
  rewrite (collapse_idle _ _ _ _ Hc Hr eq_refl). cbn [res_world panes].
  rewrite list_lookup_insert_eq by done. by intros [= <-].
Qed.

Lemma set_state_open w i s j p' :
  panes (with_panes (alter (set_state s) i) w) !! j = Some p' →
  ∃ p, panes w !! j = Some p ∧ open p = open p' ∧ isRunning p = isRunning p'.
Proof.
  cbn [panes with_panes]. destruct (decide (i = j)) as [->|Hne].
  - rewrite list_lookup_alter_eq. destruct (panes w !! j) as [p|]; [|done].
    intros [= <-]. by exists p.
  - rewrite list_lookup_alter_ne by done. eauto.
Qed.

Lemma closeOther_opens_nothing i w j p' :
  wf w → panes (res_world (closeOther i w)) !! j = Some p' → open p' = true →
  ∃ p, panes w !! j = Some p ∧ open p = true.
Proof.
  intros Hw.
  destruct (closeOther_cases i w Hw) as [->|(c&cp&t&_&_&_&_&_&->)]; [eauto|].
  intros Hj Ho. destruct (collapse_opens_nothing _ _ _ _ Hj Ho) as (q&Hq&Hoq).
  destruct (set_state_open _ _ _ _ _ Hq) as (p&Hp&Hop&_). exists p. split; congruence.
Qed.

Lemma closeOther_closes_current i w c p' :
  wf w → calm w → closeOthers (options w) = true → current w = Some c → c ≠ i →
  panes (res_world (closeOther i w)) !! c = Some p' → open p' = false.
Proof.
  intros Hw Hcalm Hco Hc Hne.
  destruct (lookup_lt_is_Some_2 _ _ (wf_current _ Hw _ Hc)) as [cp Hcp].
  destruct (wf_pane _ Hw _ _ Hcp) as (Hidx&Hm&Hs&Hdai).
  destruct (machine_valid _ Hs) as (t&Ht&_).
  rewrite <- Hm in Ht.
  rewrite (closeOther_on i w c cp t Hco Hc Hcp Hidx Hne Ht).
  apply (collapse_closes_idle _ _ (set_state (CLICK t) cp)).
  - by apply set_state_lookup.
  - exact (Hcalm c cp Hc Hcp).
Qed.

Lemma single_click i w :
  wf w → closeOthers (options w) = true → calm w → single w →
  single (res_world (clickHandle i w)).
Proof.
  intros Hw Hco Hcalm Hs. destruct (panes w !! i) as [p|] eqn:Hi.
  2: { by rewrite clickHandle_missing. }
  destruct (attributes (button p) !! "data-accordion-btn") as [vb|] eqn:Hbtn.
  2: { by rewrite (clickHandle_unrecognised _ _ _ Hi Hbtn). }
  destruct (clickHandle_ok i w p vb Hw Hi Hbtn)
    as (t&w2&w3&Ht&Hw2&Hi2&Hwf2&_&Hw3&->).
  destruct (wf_pane _ Hw _ _ Hi) as (_&_&Hst&Hdai).
  destruct (machine_valid _ Hst) as (t'&Ht'&Hv&_).
  assert (t' = t) as -> by congruence.
  set (w1 := with_panes (alter (set_state (CLICK t)) i) w) in *.
  assert (wf w1) as Hw1 by by apply wf_set_state.
  assert (w2 = res_world (closeOther i w1)) as Hw2' by by rewrite Hw2.
  intros j q Hj Ho. cbn [res_world with_current panes current] in Hj |- *.
  destruct (decide (j = i)) as [->|Hne]; [done|]. exfalso.
  assert (panes w3 !! j = panes w2 !! j) as Hj3.
  { assert (w3 = res_world
              ((if String.eqb (CLICK t) "open" then expand i else collapse i) w2))
      as -> by by rewrite Hw3.
    destruct (String.eqb _ _).
    - by destruct (expand_untouched j i w2 Hne) as (->&_).
    - by destruct (collapse_untouched j i w2 Hne) as (->&_). }
  rewrite Hj3, Hw2' in Hj.
  destruct (closeOther_opens_nothing _ _ _ _ Hw1 Hj Ho) as (q1&Hq1&Ho1).
  destruct (set_state_open _ _ _ _ _ Hq1) as (q0&Hq0&Ho0&_).
  assert (current w = Some j) as Hc by (apply (Hs j q0); congruence).
  assert (open q = false) as Hcl; [|congruence].
  apply (closeOther_closes_current i w1 j q); try done.
  intros c cp Hc1 Hcp. destruct (set_state_open _ _ _ _ _ Hcp) as (cp0&Hcp0&_&Hr).
  rewrite <- Hr. by apply (Hcalm c cp0).
Qed.

Lemma single_insert w i p p' pend t :
  single w → panes w !! i = Some p → (open p' = true → open p = true) →
  single (mkWorld (options w) (layout w) (<[i := p']> (panes w)) (current w) pend t).
Proof.
  intros Hs Hi Ho j q Hj Hq. cbn [panes current] in Hj |- *.
  apply list_lookup_insert_Some in Hj as [(->&->&_)|(_&Hj)]; eauto.
Qed.

Lemma single_collapse i w : single w → single (res_world (collapse i w)).
Proof.
  intros Hs j q Hj Ho.
  destruct (collapse_opens_nothing _ _ _ _ Hj Ho) as (p&Hp&Hop).
  destruct (collapse_keeps i w) as (_&_&->&_). by apply (Hs j p).
Qed.

Lemma single_frame k v w : wf w → single w → single (res_world (frame k v w)).
Proof.
  intros Hw Hs. destruct (pending w !! k) as [a|] eqn:Hk.
  2: { by rewrite frame_none. }
  destruct (pending_pane _ _ _ Hw Hk) as [p Hi].
  rewrite (frame_pane _ _ _ _ _ Hk Hi). by eapply single_insert.
Qed.

Lemma single_resolve k w : wf w → single w → single (res_world (resolve k w)).
Proof.
  intros Hw Hs. destruct (pending w !! k) as [a|] eqn:Hk.
  2: { by rewrite resolve_none. }
  destruct (pending_pane _ _ _ Hw Hk) as [p Hi].
  destruct (an_then a) eqn:Hth.
  - rewrite (resolve_opened _ _ _ _ Hk Hth Hi). by eapply single_insert.
  - rewrite (resolve_closed _ _ _ _ Hk Hth Hi). by eapply single_insert.
Qed.

Lemma single_run ins w :
  wf w → closeOthers (options w) = true → single w →
  paced ins w → single (run ins w).
Proof.
  revert w. induction ins as [|x ins IH]; intros w Hw Hco Hs Hp; [done|].
  destruct Hp as [Hx Hp].
  change (run (x :: ins) w) with (run ins (res_world (step x w))).
  apply IH; [by apply wf_step| | |done].
  - by rewrite step_options.
  - destruct x as [i|i|i|k v|k]; cbn [step].
    + by apply single_click.
    + done.
    + by apply single_collapse.
    + by apply single_frame.
    + by apply single_resolve.
Qed.

Lemma single_constructor o lay els :
  optOpen o = false → single (constructor o lay els).
Proof.
  intros Hopt j p Hj Ho. unfold constructor in *. destruct (init o); [|done].
  cbn [panes current] in *.
  destruct (createPanels_lookup _ _ _ _ Hj) as (bt&Hbt&->).
  rewrite createPanel_open in Ho. unfold startsOpen in Ho. rewrite Hopt in Ho.
  cbn [orb] in Ho. apply bool_decide_eq_true in Ho.
  unfold initialCurrent. rewrite <- Ho.
  rewrite bool_decide_eq_true_2; [done|]. by eapply lookup_lt_Some.
Qed.

Lemma none_open (l : list Pane) :
  (∀ j p, l !! j = Some p → open p = true → False) →
  filter (fun p => open p = true) l = [].
Proof.
  induction l as [|x l IH]; intros H; [done|].
  rewrite filter_cons. destruct (decide (open x = true)) as [Hx|_].
  - destruct (H 0%nat x eq_refl Hx).
  - apply IH. intros j p Hj. apply (H (S j) p Hj).
Qed.

Lemma at_most_one_open (l : list Pane) :
  (∀ i j pi pj, l !! i = Some pi → open pi = true →
                l !! j = Some pj → open pj = true → i = j) →
  (length (filter (fun p => open p = true) l) ≤ 1)%nat.
Proof.
  induction l as [|x l IH]; intros H; [cbn; lia|].
  rewrite filter_cons. destruct (decide (open x = true)) as [Hx|_].
  - rewrite none_open; [cbn; lia|].
    intros j p Hj Hp. by specialize (H 0%nat (S j) x p eq_refl Hx Hj Hp).
  - apply IH. intros i j pi pj Hi Hpi Hj Hpj.
    by specialize (H (S i) (S j) pi pj Hi Hpi Hj Hpj) as [= ->].
Qed.

(** X17. With [closeOthers] on and the [open] option off, as long as
    every click finds the current pane idle and [expand] is not called
    from outside, at most one pane is open at any time, and an open pane
    is the current one. *)
Theorem paced_clicks_keep_one_pane_open o lay els ins :
  closeOthers o = true → optOpen o = false →
  paced ins (constructor o lay els) →
  (openCount (run ins (constructor o lay els)) ≤ 1)%nat ∧
  ∀ j p, panes (run ins (constructor o lay els)) !! j = Some p → open p = true →
         current (run ins (constructor o lay els)) = Some j.
Proof.
  intros Hco Hopt Hp.
  assert (single (run ins (constructor o lay els))) as Hs.
  { apply single_run; [apply wf_constructor| |by apply single_constructor|done].
    unfold constructor. by destruct (init o). }
  split; [|exact Hs].
  apply at_most_one_open. intros i j pi pj Hi Hpi Hj Hpj.
  pose proof (Hs i pi Hi Hpi) as H1. pose proof (Hs j pj Hj Hpj) as H2. congruence.
Qed.

Lemma paced_clicks_keep_one_pane_open_witness :
  (openCount (run [Click 0; Resolve 0; Click 1; Resolve 0; Resolve 0] demo) ≤ 1)%nat.
Proof.
  destruct (paced_clicks_keep_one_pane_open exclusive layoutHalf twoPanes
              [Click 0; Resolve 0; Click 1; Resolve 0; Resolve 0])
    as [Hn _]; [reflexivity|reflexivity| |exact Hn].
  cbn [paced]. split_and!; try exact I.
  all: intros c p Hc Hp; vm_compute in Hc; try discriminate Hc;
    injection Hc as <-; vm_compute in Hp; injection Hp as <-; reflexivity.
Defined.

(** X18. A click on button [i] writes pane [i] and, with [closeOthers]
    on, the current pane, and nothing else: any other pane [j] is as it
    was, no animation is started on it and no effect on it is
    recorded. *)
Theorem click_writes_its_pane_and_the_current_one w i j :
  reachable w → j ≠ i →
  current w ≠ Some j ∨ closeOthers (options w) = false →
  untouched j w (res_world (clickHandle i w)).
Proof.
  intros Hre Hne Hcur. pose proof (reachable_wf _ Hre) as Hw.
  destruct (panes w !! i) as [p|] eqn:Hi.
  2: { rewrite clickHandle_missing by done. apply untouched_refl. }
  destruct (attributes (button p) !! "data-accordion-btn") as [vb|] eqn:Hbtn.
  2: { rewrite (clickHandle_unrecognised _ _ _ Hi Hbtn). apply untouched_refl. }
  destruct (click_world i w p vb Hw Hi Hbtn) as (t&w2&w3&Hmt&Hw2&Hi2&Hw3&Hres).
  destruct (wf_pane _ Hw _ _ Hi) as (_&_&Hst&Hdai).
  destruct (machine_valid _ Hst) as (t'&Ht'&Hv&_).
  assert (t' = t) as -> by congruence.
  set (w1 := with_panes (alter (set_state (CLICK t)) i) w) in *.
  assert (wf w1) as Hw1 by by apply wf_set_state.
  assert (untouched j w w1) as H1.
  { split; [by apply set_state_lookup_ne|].
    split; exists []; by rewrite app_nil_r. }
  assert (untouched j w1 w2) as H2.
  { rewrite Hw2.
    destruct (closeOther_cases i w1 Hw1) as [->|(c&cp&tc&Hco&Hc&_&_&_&->)];
      [apply untouched_refl|].
    assert (j ≠ c) as Hjc.
    { destruct Hcur as [Hcur|Hcur].
      - intros ->. by apply Hcur.
      - change (closeOthers (options w) = true) in Hco. congruence. }
    eapply untouched_trans; [|by apply collapse_untouched].
    split; [by apply set_state_lookup_ne|].
    split; exists []; by rewrite app_nil_r. }
  assert (untouched j w2 w3) as H3.
  { destruct Hw3 as [->| ->]; [apply untouched_refl|].
    destruct (String.eqb _ _);
      [by apply expand_untouched|by apply collapse_untouched]. }
  assert (untouched j w3 (res_world (clickHandle i w))) as H4.
  { destruct Hres as [->| ->]; [apply untouched_refl|].
    split; [done|]. split; exists []; by rewrite app_nil_r. }
  eauto using untouched_trans.
Qed.

Lemma click_writes_its_pane_and_the_current_one_witness :
  panes (res_world (clickHandle 0 demo)) !! 1 = panes demo !! 1.
Proof.
  destruct (click_writes_its_pane_and_the_current_one demo 0 1) as (H&_).
  - apply reachable_constructor.
  - done.
  - left. vm_compute. done.
  - exact H.
Defined.

(** ** The rounded height *)

Lemma Math_round_nearest (h : Q) :
  (h - (1 # 2) < inject_Z (Math_round h))%Q ∧
  (inject_Z (Math_round h) <= h + (1 # 2))%Q.
Proof.
  unfold Math_round. split; [|apply Qfloor_le].
  pose proof (Qlt_floor (h + (1 # 2))) as H. rewrite inject_Z_plus in H.
  apply (Qplus_lt_l _ _ 1).
  setoid_replace (h - (1 # 2) + 1)%Q with (h + (1 # 2))%Q using relation Qeq by ring.
  exact H.
Qed.

Lemma Math_round_integer (h : Q) (n : Z) :
  (h == inject_Z n)%Q → Math_round h = n.
Proof.
  intros H. unfold Math_round. rewrite H.
  unfold Qfloor, Qplus, inject_Z. cbn [Qnum Qden].
  change (Z.pos (1 * 2)) with 2%Z.
  symmetry. apply (Z.div_unique _ _ _ 1); lia.
Qed.

(** X19. The animation of an idle pane runs between [0] and the nearest
    integer to the measured height, halves rounded up: the end of the
    animation [expand] starts, and the start of the animation [collapse]
    starts, is within half a pixel of the height the layout engine
    measured, and is the measured height when that is an integer. *)
Theorem animation_runs_to_the_nearest_pixel w i p h :
  panes w !! i = Some p → isRunning p = false →
  (layout w i (target (displayBlock p)) = h →
   ∃ a, last (pending (res_world (expand i w))) = Some a ∧
        an_start (an_args a) = 0%Z ∧
        (h - (1 # 2) < inject_Z (an_end (an_args a)))%Q ∧
        (inject_Z (an_end (an_args a)) <= h + (1 # 2))%Q ∧
        (∀ n, (h == inject_Z n)%Q → an_end (an_args a) = n)) ∧
  (layout w i (target p) = h →
   ∃ a, last (pending (res_world (collapse i w))) = Some a ∧
        an_end (an_args a) = 0%Z ∧
        (h - (1 # 2) < inject_Z (an_start (an_args a)))%Q ∧
        (inject_Z (an_start (an_args a)) <= h + (1 # 2))%Q ∧
        (∀ n, (h == inject_Z n)%Q → an_start (an_args a) = n)).
Proof.
  intros Hi Hr. destruct (Math_round_nearest h) as [Hlo Hhi]. split; intros Hl.
  - rewrite (expand_idle _ _ _ _ Hi Hr Hl). cbn [res_world pending].
    exists (mkAnimation (expandArgs (options w) h) i ThenOpened).
    split_and!; [apply last_snoc|done|done|done|].
    intros n Hn. by apply Math_round_integer.
  - rewrite (collapse_idle _ _ _ _ Hi Hr Hl). cbn [res_world pending].
    exists (mkAnimation (collapseArgs (options w) h) i ThenClosed).
    split_and!; [apply last_snoc|done|done|done|].
    intros n Hn. by apply Math_round_integer.
Qed.

Lemma animation_runs_to_the_nearest_pixel_witness :
  ∃ a, last (pending (res_world (expand 0 demo))) = Some a ∧
       (inject_Z (an_end (an_args a)) <= (201 # 2) + (1 # 2))%Q.
Proof.
  destruct (animation_runs_to_the_nearest_pixel demo 0
              (createPanel exclusive 0 (trigger, blank)) (201 # 2))
    as [He _]; [reflexivity|reflexivity|].
  destruct (He eq_refl) as (a&Ha&_&_&Hhi&_).
  exists a. split; [exact Ha|exact Hhi].
Defined.

(** ** Calls from outside *)

(** X20. [expand(j)] called from outside on an idle pane opens it without
    writing [state] or [current] and without touching any other pane:
    with [closeOthers] on, a pane that was open stays open beside it,
    although no click arrived while an animation was running. *)
Theorem expand_from_outside_bypasses_closeOthers w j p :
  reachable w → panes w !! j = Some p → isRunning p = false →
  ∃ p', panes (res_world (expand j w)) !! j = Some p' ∧
        open p' = true ∧ isRunning p' = true ∧ state p' = state p ∧
        current (res_world (expand j w)) = current w ∧
        (∀ c, c ≠ j → panes (res_world (expand j w)) !! c = panes w !! c) ∧
        (∀ c pc, c ≠ j → panes w !! c = Some pc → open pc = true →
                 ∃ pc', panes (res_world (expand j w)) !! c = Some pc' ∧
                        open pc' = true ∧ open p' = true).
Proof.
  intros Hre Hj Hr.
  assert (j < length (panes w))%nat as Hlt by by eapply lookup_lt_Some.
  rewrite (expand_idle _ _ _ _ Hj Hr eq_refl). cbn [res_world panes current].
  exists (expandStart p).
  split_and!; [by apply list_lookup_insert_eq|done|done|done|done| |].
  - intros c Hc. by rewrite list_lookup_insert_ne.
  - intros c pc Hc Hpc Ho. exists pc. by rewrite list_lookup_insert_ne.
Qed.

Lemma expand_from_outside_bypasses_closeOthers_witness :
  closeOthers (options (run [Click 0; Resolve 0] demo)) = true ∧
  pending (run [Click 0; Resolve 0] demo) = [] ∧
  ∃ p0 p1, panes (run [Click 0; Resolve 0; CallExpand 1] demo) !! 0 = Some p0 ∧
           panes (run [Click 0; Resolve 0; CallExpand 1] demo) !! 1 = Some p1 ∧
           open p0 = true ∧ open p1 = true.
Proof.
  destruct (expand_from_outside_bypasses_closeOthers (run [Click 0; Resolve 0] demo) 1
              (createPanel exclusive 1 (trigger, blank)))
    as (p1&Hp1&Ho1&_&_&_&_&Hboth).
  - apply reachable_run, reachable_constructor.
  - vm_compute. reflexivity.
  - reflexivity.
  - destruct (Hboth 0%nat
                (openedPane exclusive
                   (expandStart (set_state "open" (createPanel exclusive 0 (trigger, blank))))))
      as (p0&Hp0&Ho0&_); [done|vm_compute; reflexivity|reflexivity|].
    split_and!; [reflexivity|reflexivity|].
    exists p0, p1. split_and!; [exact Hp0|exact Hp1|exact Ho0|exact Ho1].
Defined.

(** ** The selector *)

Lemma constructed_button o lay els ins i bt :
  init o = true → els !! i = Some bt →
  ∃ p, panes (run ins (constructor o lay els)) !! i = Some p ∧
       attributes (button p) !! "data-accordion-btn" =
       attributes bt.1 !! "data-accordion-btn".
Proof.
  intros Hinit Hbt.
  destruct (fixed_pane o lay els ins i bt Hinit Hbt) as (p&Hi&(_&_&Hb&_)&_).
  exists p. split; [exact Hi|].
  rewrite Hb by discriminate. rewrite createPanel_button_map.
  by rewrite !lookup_insert_ne by discriminate.
Qed.

(** X23. [createPanels] finds the buttons by the [selector] option, and
    [clickHandle] finds the clicked button by the attribute
    [data-accordion-btn]. With the selector of the defaults the two
    agree: in every state the widget reaches, a click on any of its
    buttons returns normally and makes its pane the current one. On a
    button that does not carry the attribute, which another selector can
    find, every click throws a [TypeError] and leaves the widget as it
    was, whatever happened before. *)
Theorem clicks_are_handled_under_the_default_selector o lay els ins i bt :
  init o = true → els !! i = Some bt → selected o els →
  (selector o = "[data-accordion-btn]" →
   recognised i (run ins (constructor o lay els)) ∧
   ∃ w', clickHandle i (run ins (constructor o lay els)) = Ok tt w' ∧
         current w' = Some i) ∧
  (attributes bt.1 !! "data-accordion-btn" = None →
   ¬ recognised i (run ins (constructor o lay els)) ∧
   clickHandle i (run ins (constructor o lay els)) =
     Throw TypeError (run ins (constructor o lay els))).
Proof.
  intros Hinit Hbt Hsel.
  destruct (constructed_button o lay els ins i bt Hinit Hbt) as (p&Hi&Hb).
  pose proof (reachable_wf _ (reachable_run ins _ (reachable_constructor o lay els)))
    as Hw.
  split.
  - intros Hdef. specialize (Hsel Hdef). rewrite Forall_lookup in Hsel.
    destruct (Hsel _ _ Hbt) as [v Hv]. rewrite Hv in Hb.
    split; [exists p; split; [exact Hi|by exists v]|].
    destruct (clickHandle_ok i _ p v Hw Hi Hb) as (t&w2&w3&_&_&_&_&_&_&Hc).
    eexists. split; [exact Hc|reflexivity].
  - intros Hnone. rewrite Hnone in Hb. split.
    + intros (p'&Hi'&[v Hv]). congruence.
    + exact (clickHandle_unrecognised _ _ _ Hi Hb).
Qed.

Lemma clicks_are_handled_under_the_default_selector_witness :
  ∃ w', clickHandle 1 (run [Click 0; Resolve 0] demo) = Ok tt w' ∧
        current w' = Some 1.
Proof.
  destruct (clicks_are_handled_under_the_default_selector exclusive layoutHalf
              twoPanes [Click 0; Resolve 0] 1 (trigger, blank))
    as [Hdef _]; [reflexivity|reflexivity| |].
  - intros _. apply Forall_cons. split; [by exists ""|].
    apply Forall_cons. split; [by exists ""|]. by apply Forall_nil.
  - destruct (Hdef eq_refl) as (_&w'&Hc&Hcur).
    exists w'. split; [exact Hc|exact Hcur].
Defined.
